(** * Predictive-modeling notebooks: penguins classifier and text vectorization

    A shallow embedding of the two exported notebooks
      docs/notes/classification/penguins_classifier_(multiclass)_solutions.py
      docs/notes/natural-language-processing/nlp_text_vectorization_demo_(fall_2024).py
    together with the contracts of the pandas / scikit-learn / spaCy
    operations they call, and the properties stated about them.

    Layout: the first half holds the models (data, library operations, the
    scripts' own functions and statements), the second half the lemmas. *)

From Stdlib Require Import String Ascii Bool Arith ZArith QArith Qround.
From Stdlib Require Import Reals Lia Lra Permutation List.
Import ListNotations.

Set Implicit Arguments.
Close Scope Q_scope.
Local Open Scope string_scope.
Local Open Scope list_scope.

(* ================================================================== *)
(** * Part I. Models                                                   *)
(* ================================================================== *)

(** ** Python glue: list comprehensions

    [[elt(a) for a in it if cond(a)]] starts from the empty list and appends
    one element per accepted item, in iteration order. *)

Definition list_comp {A B : Type} (elt : A -> B) (cond : A -> bool)
    (it : list A) : list B :=
  fold_left (fun acc a => if cond a then acc ++ [elt a] else acc) it [].

(** [select mask l] keeps the items of [l] whose mask bit is set. *)
Fixpoint select {A : Type} (mask : list bool) (l : list A) : list A :=
  match mask, l with
  | b :: mask', a :: l' => if b then a :: select mask' l' else select mask' l'
  | _, _ => []
  end.

(** [Subseq s l]: [s] is obtained from [l] by deleting items. *)
Inductive Subseq {A : Type} : list A -> list A -> Prop :=
| Subseq_nil : Subseq [] []
| Subseq_skip : forall a s l, Subseq s l -> Subseq s (a :: l)
| Subseq_take : forall a s l, Subseq s l -> Subseq (a :: s) (a :: l).

(** ** Python glue: exceptions

    A call either returns a value or raises.  [LibraryError] stands for any
    exception raised from inside an external library on the given source
    line; [Unmodelled] marks inputs outside the fragment of a library
    operation that is modelled here. *)

Inductive exn : Type :=
| NameError (name : string)
| UnboundLocalError (name : string)
| KeyError (key : string)
| ValueError (msg : string)
| IndexError
| RecursionError
| LibraryError (line : nat)
| Unmodelled (what : string).

Inductive result (A : Type) : Type :=
| Ok (a : A)
| Raise (e : exn).
Arguments Ok {A} a.
Arguments Raise {A} e.

Definition bind {A B : Type} (c : result A) (k : A -> result B) : result B :=
  match c with
  | Ok a => k a
  | Raise e => Raise e
  end.

Notation "x <- c ;; k" := (bind c (fun x => k))
  (at level 61, c at next level, right associativity).

Fixpoint mapM {A B : Type} (f : A -> result B) (l : list A) : result (list B) :=
  match l with
  | [] => Ok []
  | a :: l' => b <- f a ;; bs <- mapM f l' ;; Ok (b :: bs)
  end.

(** ** Python glue: [sorted] and [unique] on strings

    [sorted] orders by code point, [unique] keeps first occurrences. *)

Fixpoint insert (s : string) (l : list string) : list string :=
  match l with
  | [] => [s]
  | h :: t => if String.leb s h then s :: l else h :: insert s t
  end.

Definition sorted (l : list string) : list string := fold_right insert [] l.

(** Whether a list of strings is in non-decreasing code-point order. *)
Fixpoint ascending (l : list string) : bool :=
  match l with
  | a :: (b :: _) as t => String.leb a b && ascending t
  | _ => true
  end.

Definition mem (s : string) (l : list string) : bool :=
  existsb (String.eqb s) l.

Definition unique (l : list string) : list string :=
  rev (nodup string_dec (rev l)).

(** ** Tabular data (pandas)

    A frame is column-major, as in pandas: a row index and named columns of
    equal length.  A cell is missing ([NA], pandas' NaN/None), a string, a
    float or an integer. *)

Inductive cell : Type :=
| NA
| Str (s : string)
| Float (q : Q)
| Int (z : Z).

Definition notna (c : cell) : bool :=
  match c with NA => false | _ => true end.

Record DataFrame (A : Type) : Type := mkDF {
  index : list Z;
  cols : list (string * list A)
}.

Record Series (A : Type) : Type := mkSeries {
  sindex : list Z;
  svalues : list A
}.

Definition nrows {A : Type} (df : DataFrame A) : nat := length (index df).

Definition well_formed {A : Type} (df : DataFrame A) : bool :=
  forallb (fun c => Nat.eqb (length (snd c)) (nrows df)) (cols df).

Definition lookup_col {A : Type} (name : string) (cs : list (string * list A))
    : option (list A) :=
  option_map snd (find (fun c => String.eqb (fst c) name) cs).

(** Row view: the label and the cells of row [i], left to right. *)
Definition row_at (cs : list (string * list cell)) (i : nat) : list cell :=
  map (fun c => nth i (snd c) NA) cs.

Definition rows_of (idx : list Z) (cs : list (string * list cell))
    : list (Z * list cell) :=
  map (fun i => (nth i idx 0%Z, row_at cs i)) (seq 0 (length idx)).

(** The columns without their first cell: rows 1, 2, ... of the frame. *)
Definition tails (cs : list (string * list cell)) : list (string * list cell) :=
  map (fun c => (fst c, tl (snd c))) cs.

Definition rows (df : DataFrame cell) : list (Z * list cell) :=
  rows_of (index df) (cols df).

Definition complete (r : list cell) : bool := forallb notna r.

(** [df.dropna(inplace=True)] (line 37): with the defaults [axis=0] and
    [how="any"], every row holding at least one missing cell is removed;
    [inplace=True] rebinds the result to [df]. *)
Definition dropna (df : DataFrame cell) : DataFrame cell :=
  let mask := map (fun i => complete (row_at (cols df) i)) (seq 0 (nrows df)) in
  {| index := select mask (index df);
     cols := map (fun c => (fst c, select mask (snd c))) (cols df) |}.

(** [df.drop(columns=names)] (line 91): a new frame without the named
    columns; a name that labels no column raises [KeyError]. *)
Definition drop_columns {A : Type} (names : list string) (df : DataFrame A)
    : result (DataFrame A) :=
  _ <- mapM (fun n => if mem n (map fst (cols df)) then Ok tt
                      else Raise (KeyError n)) names ;;
  Ok {| index := index df;
        cols := filter (fun c => negb (mem (fst c) names)) (cols df) |}.

(** [df[target]] (line 92): the named column with the frame's index. *)
Definition getitem {A : Type} (name : string) (df : DataFrame A)
    : result (Series A) :=
  match lookup_col name (cols df) with
  | Some vals => Ok {| sindex := index df; svalues := vals |}
  | None => Raise (KeyError name)
  end.

(** *** One-hot encoding: [pandas.get_dummies]

    The levels of a column are its distinct non-missing values in sorted
    order; each level [lv] of column [prefix] gives an indicator column
    named [prefix_lv].  A missing cell gets 0 in every indicator
    ([dummy_na=False]).  Only string-valued columns are modelled. *)

Fixpoint strings_of (vals : list cell) : result (list string) :=
  match vals with
  | [] => Ok []
  | NA :: t => strings_of t
  | Str s :: t => ss <- strings_of t ;; Ok (s :: ss)
  | _ :: _ => Raise (Unmodelled "get_dummies on a numeric column")
  end.

Definition is_level (lv : string) (v : cell) : bool :=
  match v with Str s => String.eqb s lv | _ => false end.

Definition indicator (lv : string) (v : cell) : cell :=
  Int (if is_level lv v then 1 else 0).

Definition dummies_1d (prefix : string) (vals : list cell)
    : result (list (string * list cell)) :=
  ss <- strings_of vals ;;
  Ok (map (fun lv => ((prefix ++ "_" ++ lv)%string, map (indicator lv) vals))
          (sorted (unique ss))).

(** [get_dummies(data, columns=columns, dtype=int)]: the columns not listed
    come first, unchanged, then the indicator columns of each listed column
    in turn. *)
Definition get_dummies (data : DataFrame cell) (columns : list string)
    : result (DataFrame cell) :=
  encoded <- mapM (fun c => match lookup_col c (cols data) with
                            | Some vals => dummies_1d c vals
                            | None => Raise (KeyError c)
                            end) columns ;;
  Ok {| index := index data;
        cols := filter (fun c => negb (mem (fst c) columns)) (cols data)
                ++ concat encoded |}.

(** The number of indicator columns in [D] that hold the integer 1 at
    row [i]. *)
Definition is_one (c : cell) : bool :=
  match c with Int 1 => true | _ => false end.

Definition ones_at (i : nat) (D : list (string * list cell)) : nat :=
  length (filter (fun c => is_one (nth i (snd c) NA)) D).

(** What the indicator columns of one source column have to be, stated
    on the cells themselves: one column per distinct string of the source
    column, in ascending order of these strings, named by the prefix, an
    underscore and the string, and holding the integer 1 in the rows where
    the source cell is that string and the integer 0 in all other rows. *)
Definition marks (lv : string) (v e : cell) : Prop :=
  (e = Int 1 /\ v = Str lv) \/ (e = Int 0 /\ v <> Str lv).

Definition indicator_columns (prefix : string) (vals : list cell)
    (D : list (string * list cell)) : Prop :=
  exists levels,
    NoDup levels /\ ascending levels = true /\
    (forall lv, In lv levels <-> In (Str lv) vals) /\
    Forall2 (fun lv c => fst c = (prefix ++ "_" ++ lv)%string /\
                         Forall2 (marks lv) vals (snd c))
            levels D.

(** The notebook's preparation of the feature frame (lines 37, 91, 102). *)
Definition target : string := "species".

Definition prepare_x (df : DataFrame cell) : result (DataFrame cell) :=
  let df := dropna df in
  x <- drop_columns [target; "year"] df ;;
  get_dummies x ["island"; "gender"].

(** A few rows of the data returned by [load_penguins()], after the renaming
    and upper-casing of lines 23-26.  Row 3 has missing measurements. *)
Definition penguins_sample : DataFrame cell :=
  {| index := [0; 1; 2; 3; 4; 152]%Z;
     cols :=
       [ ("species", [Str "ADELIE"; Str "ADELIE"; Str "ADELIE"; Str "ADELIE";
                      Str "ADELIE"; Str "GENTOO"]);
         ("island", [Str "TORGERSEN"; Str "TORGERSEN"; Str "TORGERSEN";
                     Str "TORGERSEN"; Str "TORGERSEN"; Str "BISCOE"]);
         ("bill_length_mm", [Float (391 # 10); Float (395 # 10); Float (403 # 10);
                             NA; Float (367 # 10); Float (461 # 10)]);
         ("bill_depth_mm", [Float (187 # 10); Float (174 # 10); Float (180 # 10);
                            NA; Float (193 # 10); Float (132 # 10)]);
         ("flipper_length_mm", [Float (181 # 1); Float (186 # 1); Float (195 # 1);
                                NA; Float (193 # 1); Float (211 # 1)]);
         ("body_mass_g", [Float (3750 # 1); Float (3800 # 1); Float (3250 # 1);
                          NA; Float (3450 # 1); Float (4500 # 1)]);
         ("gender", [Str "MALE"; Str "FEMALE"; Str "FEMALE"; NA; Str "FEMALE";
                     Str "FEMALE"]);
         ("year", [Int 2007; Int 2007; Int 2007; Int 2007; Int 2007; Int 2007]) ]
  |}.

(** The feature frame built from [penguins_sample], before and after the
    encoding. *)
Definition sample_x : DataFrame cell :=
  Eval vm_compute in
    match drop_columns [target; "year"] (dropna penguins_sample) with
    | Ok x => x
    | Raise _ => penguins_sample
    end.

Definition sample_x_encoded : DataFrame cell :=
  Eval vm_compute in
    match get_dummies sample_x ["island"; "gender"] with
    | Ok x => x
    | Raise _ => sample_x
    end.

(** ** Feature scaling (line 107), in exact arithmetic

    A float cell is a real number, or [None] for NaN and the infinities.
    The reductions skip NaN ([skipna=True]); [std] is the sample standard
    deviation ([ddof=1]). *)

Definition float : Type := option R.

Fixpoint finite (col : list float) : list R :=
  match col with
  | [] => []
  | Some v :: t => v :: finite t
  | None :: t => finite t
  end.

Definition Rsum (l : list R) : R := fold_right Rplus 0%R l.

Definition mean (col : list float) : float :=
  match finite col with
  | [] => None
  | xs => Some (Rsum xs / INR (length xs))%R
  end.

Definition std (col : list float) : float :=
  let xs := finite col in
  if Nat.ltb (length xs) 2 then None
  else
    let avg := (Rsum xs / INR (length xs))%R in
    Some (sqrt (Rsum (map (fun v => (avg - v) * (avg - v))%R xs)
                / INR (length xs - 1))).

Definition fsub (a b : float) : float :=
  match a, b with
  | Some a, Some b => Some (a - b)%R
  | _, _ => None
  end.

Definition fdiv (a b : float) : float :=
  match a, b with
  | Some a, Some b => if Req_dec_T b 0 then None else Some (a / b)%R
  | _, _ => None
  end.

(** [x.mean(axis=0)], [x.std(axis=0)]: one value per column, labelled by
    the column names. *)
Definition mean_axis0 (x : DataFrame float) : list (string * float) :=
  map (fun c => (fst c, mean (snd c))) (cols x).

Definition std_axis0 (x : DataFrame float) : list (string * float) :=
  map (fun c => (fst c, std (snd c))) (cols x).

Definition lookup_label (name : string) (s : list (string * float)) : float :=
  match find (fun p => String.eqb (fst p) name) s with
  | Some p => snd p
  | None => None
  end.

(** [frame op series]: the series is aligned on the column labels of the
    frame and the operation is applied down each column.  (The series of
    the notebook are reductions of the frame itself and carry exactly its
    labels.) *)
Definition frame_op (op : float -> float -> float) (x : DataFrame float)
    (s : list (string * float)) : DataFrame float :=
  {| index := index x;
     cols := map (fun c => (fst c, map (fun v => op v (lookup_label (fst c) s))
                                       (snd c)))
                 (cols x) |}.

(** x_scaled = (x - x.mean(axis=0)) / x.std(axis=0) *)
Definition x_scaled (x : DataFrame float) : DataFrame float :=
  frame_op fdiv (frame_op fsub x (mean_axis0 x)) (std_axis0 x).

(** A two-column numeric frame: body mass and an indicator column. *)
Definition scaling_sample : DataFrame float :=
  {| index := [0; 1; 2]%Z;
     cols := [ ("body_mass_g", [Some 3750%R; Some 3800%R; Some 3250%R]);
               ("gender_MALE", [Some 1%R; Some 0%R; Some 0%R]) ] |}.

(** ** Train/test split (line 117): [sklearn.model_selection.train_test_split]

    Positional selection ([iloc]) of rows; a position past the end raises
    [IndexError]. *)

Definition iloc_list {A : Type} (l : list A) (ind : list nat) : result (list A) :=
  mapM (fun i => match nth_error l i with
                 | Some a => Ok a
                 | None => Raise IndexError
                 end) ind.

Definition iloc {A : Type} (df : DataFrame A) (ind : list nat)
    : result (DataFrame A) :=
  idx <- iloc_list (index df) ind ;;
  cs <- mapM (fun c => vals <- iloc_list (snd c) ind ;; Ok (fst c, vals))
             (cols df) ;;
  Ok {| index := idx; cols := cs |}.

Definition iloc_series {A : Type} (s : Series A) (ind : list nat)
    : result (Series A) :=
  idx <- iloc_list (sindex s) ind ;;
  vals <- iloc_list (svalues s) ind ;;
  Ok {| sindex := idx; svalues := vals |}.

(** What a positional selection has to hold, stated on the cells: the
    k-th selected element is the element at the k-th position. *)
Definition taken_at {A : Type} (l : list A) (pos : list nat) (l' : list A)
    : Prop :=
  Forall2 (fun i a => nth_error l i = Some a) pos l'.

(** [x'] has the columns of [x], by name and in order, each cut down to the
    rows at the positions [pos], with the labels of these rows as index. *)
Definition frame_rows_at {A : Type} (x : DataFrame A) (pos : list nat)
    (x' : DataFrame A) : Prop :=
  taken_at (index x) pos (index x') /\
  Forall2 (fun c c' => fst c' = fst c /\ taken_at (snd c) pos (snd c'))
          (cols x) (cols x').

Definition series_rows_at {A : Type} (y : Series A) (pos : list nat)
    (y' : Series A) : Prop :=
  taken_at (sindex y) pos (sindex y') /\ taken_at (svalues y) pos (svalues y').

(** [_validate_shuffle_split] for a fractional [test_size] and no
    [train_size]: the test set gets [ceil(test_size * n_samples)] rows and
    the train set the rest, which must not be empty. *)
Definition validate_shuffle_split (n_samples : nat) (test_size : Q)
    : result (nat * nat) :=
  if Qle_bool test_size 0 || Qle_bool 1 test_size
  then Raise (ValueError "test_size should be in the (0, 1) range")
  else
    let n_test := Z.to_nat (Qceiling (test_size * inject_Z (Z.of_nat n_samples))) in
    let n_train := n_samples - n_test in
    if Nat.eqb n_train 0
    then Raise (ValueError "the resulting train set will be empty")
    else Ok (n_train, n_test).

Section TrainTestSplit.
(** [numpy.random.RandomState(seed).permutation(n)]: the shuffled positions
    [0 .. n-1] produced by the generator seeded with [random_state]. *)
Variable permutation : Z -> nat -> list nat.

(** [ShuffleSplit._iter_indices]: the test positions are the head of the
    permutation, the train positions follow them. *)
Definition shuffle_split (random_state : Z) (n_samples n_train n_test : nat)
    : list nat * list nat :=
  let p := permutation random_state n_samples in
  (firstn n_train (skipn n_test p), firstn n_test p).

(** train_test_split(x, y, test_size=test_size, random_state=random_state) *)
Definition train_test_split {A B : Type} (x : DataFrame A) (y : Series B)
    (test_size : Q) (random_state : Z)
    : result (DataFrame A * DataFrame A * Series B * Series B) :=
  if negb (Nat.eqb (nrows x) (length (sindex y)))
  then Raise (ValueError "inconsistent numbers of samples")
  else
    sizes <- validate_shuffle_split (nrows x) test_size ;;
    let (train, test) :=
      shuffle_split random_state (nrows x) (fst sizes) (snd sizes) in
    x_train <- iloc x train ;;
    x_test <- iloc x test ;;
    y_train <- iloc_series y train ;;
    y_test <- iloc_series y test ;;
    Ok (x_train, x_test, y_train, y_test).
End TrainTestSplit.

(** A stand-in for the generator, used to run the split on examples. *)
Definition reversing_permutation (_ : Z) (n : nat) : list nat := rev (seq 0 n).

(** [y = df[target]] (line 92) on the null-free sample. *)
Definition sample_y : Series cell :=
  Eval vm_compute in
    match getitem target (dropna penguins_sample) with
    | Ok y => y
    | Raise _ => {| sindex := []; svalues := [] |}
    end.

(** ** Evaluation (lines 158-192)

    [sklearn.metrics.confusion_matrix] on string labels.  [label_to_ind] is
    the dictionary [{y: x for x, y in enumerate(labels)}]: when a label is
    listed twice its last position wins.  Samples whose true or predicted
    label is not listed are not counted. *)

Fixpoint label_to_ind_from (i : nat) (labels : list string) (y : string)
    : option nat :=
  match labels with
  | [] => None
  | h :: t => match label_to_ind_from (S i) t y with
              | Some k => Some k
              | None => if String.eqb h y then Some i else None
              end
  end.

Definition label_to_ind (labels : list string) (y : string) : option nat :=
  label_to_ind_from 0 labels y.

Definition same_cell (i j : nat) (p : option nat * option nat) : bool :=
  match p with
  | (Some a, Some b) => Nat.eqb a i && Nat.eqb b j
  | _ => false
  end.

Definition confusion_matrix (y_true y_pred : list string)
    (labels : option (list string)) : result (list (list nat)) :=
  if negb (Nat.eqb (length y_true) (length y_pred))
  then Raise (ValueError
                "Found input variables with inconsistent numbers of samples")
  else
    labels <- match labels with
              | None => Ok (sorted (unique (y_true ++ y_pred)))
              | Some [] =>
                  Raise (ValueError "'labels' should contains at least one label.")
              | Some ls =>
                  match y_true with
                  | [] => Ok ls
                  | _ => if existsb (fun y => mem y ls) y_true then Ok ls
                         else Raise (ValueError
                                "At least one label specified must be in y_true")
                  end
              end ;;
    let n_labels := length labels in
    let samples := combine (map (label_to_ind labels) y_true)
                           (map (label_to_ind labels) y_pred) in
    Ok (map (fun i => map (fun j => length (filter (same_cell i j) samples))
                          (seq 0 n_labels))
            (seq 0 n_labels)).

(** The figure handed to [fig.show()]: the arguments of [px.imshow] and the
    two layout updates. *)
Record Figure : Type := mkFigure {
  img : list (list nat);
  fig_x : list string;
  fig_y : list string;
  fig_height : Z;
  axis_labels : list (string * string);
  color_continuous_scale : string;
  text_auto : bool;
  title_text : string;
  title_x : Q;
  title_xanchor : string;
  coloraxis_showscale : bool
}.

(** Truth value of an optional string argument: [None] and the empty string
    are false. *)
Definition truthy (s : option string) : bool :=
  match s with
  | Some (String _ _) => true
  | _ => false
  end.

Definition or_default (s : option string) (default : string) : string :=
  match s with
  | Some (String a t) => String a t
  | _ => default
  end.

Section PlotConfusionMatrix.
(** [y_test], the module-level variable bound by the split of line 117, which
    the function body reads from its enclosing scope. *)
Variable y_test : list string.

(** def plot_confusion_matrix(y_true, y_pred, height=450, showscale=False,
                              title=None, subtitle=None)  (lines 165-188) *)
Definition plot_confusion_matrix (y_true y_pred : list string) (height : Z)
    (showscale : bool) (title subtitle : option string) : result Figure :=
  cm <- confusion_matrix y_true y_pred None ;;
  let class_names := sorted (unique y_test) in
  cm <- confusion_matrix y_test y_pred (Some class_names) ;;
  let title := or_default title "Confusion Matrix" in
  let title :=
    if truthy subtitle
    then (title ++ "<br><sup>" ++ or_default subtitle "" ++ "</sup>")%string
    else title in
  Ok {| img := cm; fig_x := class_names; fig_y := class_names;
        fig_height := height;
        axis_labels := [("x", "Predicted"); ("y", "Actual")];
        color_continuous_scale := "Blues"; text_auto := true;
        title_text := title; title_x := (485 # 1000)%Q;
        title_xanchor := "center";
        coloraxis_showscale := showscale |}.
End PlotConfusionMatrix.

(** A small evaluation set: true test labels, predictions, and another list
    of labels passed as [y_true]. *)
Definition sample_y_test : list string :=
  ["ADELIE"; "GENTOO"; "ADELIE"; "CHINSTRAP"].
Definition sample_y_pred : list string :=
  ["ADELIE"; "GENTOO"; "CHINSTRAP"; "CHINSTRAP"].
Definition sample_other_y_true : list string :=
  ["GENTOO"; "GENTOO"; "GENTOO"; "GENTOO"].

Definition sample_figure : Figure :=
  Eval vm_compute in
    match confusion_matrix sample_y_test sample_y_pred
            (Some (sorted (unique sample_y_test))) with
    | Ok cm =>
        {| img := cm;
           fig_x := sorted (unique sample_y_test);
           fig_y := sorted (unique sample_y_test);
           fig_height := 450;
           axis_labels := [("x", "Predicted"); ("y", "Actual")];
           color_continuous_scale := "Blues"; text_auto := true;
           title_text :=
             "Confusion Matrix<br><sup>Penguin Classification Model: LogisticRegression</sup>";
           title_x := (485 # 1000)%Q; title_xanchor := "center";
           coloraxis_showscale := false |}
    | Raise _ =>
        mkFigure [] [] [] 0 [] "" false "" 0%Q "" false
    end.

(** ** Text vectorization (lines 19-88): [CountVectorizer], [TfidfVectorizer]

    Texts are ASCII strings.  The default analyzer lower-cases a document,
    takes as tokens the maximal runs of two or more word characters
    ([token_pattern = (?u)\b\w\w+\b]) and drops the stop words, if any. *)

Definition corpus : list string :=
  [ "the quick brown fox ate";
    "the slow brown dog walked";
    "the quick red dog ran";
    "the lazy yellow fox slept" ].

Definition is_word_char (a : ascii) : bool :=
  let n := nat_of_ascii a in
  (((48 <=? n) && (n <=? 57)) || ((65 <=? n) && (n <=? 90))
   || ((97 <=? n) && (n <=? 122)) || (n =? 95))%nat.

Definition lower_char (a : ascii) : ascii :=
  let n := nat_of_ascii a in
  if ((65 <=? n) && (n <=? 90))%nat then ascii_of_nat (n + 32) else a.

Fixpoint lower (s : string) : string :=
  match s with
  | EmptyString => EmptyString
  | String a s' => String (lower_char a) (lower s')
  end.

Definition flush (run : string) : list string :=
  if (2 <=? String.length run)%nat then [run] else [].

Fixpoint tokenize_from (run : string) (s : string) : list string :=
  match s with
  | EmptyString => flush run
  | String a s' =>
      if is_word_char a then tokenize_from (run ++ String a EmptyString) s'
      else flush run ++ tokenize_from EmptyString s'
  end.

Definition tokenize (doc : string) : list string :=
  tokenize_from EmptyString doc.

Inductive stop_words_param : Type :=
| NoStopWords
| English
| StopList (words : list string).

(** The constructor parameters that the notebook's claims depend on; the
    others stay at their defaults ([ngram_range=(1,1)], [min_df=1],
    [max_df=1.0], [max_features=None], which prune nothing). *)
Record Vectorizer : Type := mkVectorizer {
  lowercase : bool;
  stop_words : stop_words_param;
  tokenizer : option (string -> list string)
}.

(** CountVectorizer(), TfidfVectorizer() *)
Definition default_vectorizer : Vectorizer :=
  {| lowercase := true; stop_words := NoStopWords; tokenizer := None |}.

(** TfidfVectorizer(stop_words="english") *)
Definition english_vectorizer : Vectorizer :=
  {| lowercase := true; stop_words := English; tokenizer := None |}.

(** The vocabulary under construction lists the terms in order of first
    occurrence; the feature index of a term is its position.  A feature
    counter maps feature indices to counts. *)
Fixpoint index_of (t : string) (vocab : list string) : option nat :=
  match vocab with
  | [] => None
  | h :: rest => if String.eqb h t then Some 0
                 else option_map S (index_of t rest)
  end.

Definition counter : Type := list (nat * nat).

Fixpoint counter_incr (k : nat) (c : counter) : counter :=
  match c with
  | [] => [(k, 1)]
  | (k', n) :: c' => if Nat.eqb k k' then (k', S n) :: c'
                     else (k', n) :: counter_incr k c'
  end.

Fixpoint counter_get (k : nat) (c : counter) : nat :=
  match c with
  | [] => 0
  | (k', n) :: c' => if Nat.eqb k k' then n else counter_get k c'
  end.

Record Fitted : Type := mkFitted {
  feature_names : list string;
  matrix : list (list nat)
}.

Section Vectorizers.
(** [sklearn.feature_extraction.text.ENGLISH_STOP_WORDS], the list selected
    by [stop_words="english"]. *)
Variable ENGLISH_STOP_WORDS : list string.

Definition get_stop_words (v : Vectorizer) : option (list string) :=
  match stop_words v with
  | NoStopWords => None
  | English => Some ENGLISH_STOP_WORDS
  | StopList words => Some words
  end.

Definition analyze (v : Vectorizer) (doc : string) : list string :=
  let doc := if lowercase v then lower doc else doc in
  let tokens := match tokenizer v with
                | Some f => f doc
                | None => tokenize doc
                end in
  match get_stop_words v with
  | Some stop => list_comp (fun w => w) (fun w => negb (mem w stop)) tokens
  | None => tokens
  end.

(** One pass of [_count_vocab]'s inner loop: look the feature up, adding it
    to the vocabulary when new, and count it. *)
Definition count_feature (st : list string * counter) (feature : string)
    : list string * counter :=
  let (vocab, fc) := st in
  match index_of feature vocab with
  | Some idx => (vocab, counter_incr idx fc)
  | None => (vocab ++ [feature], counter_incr (length vocab) fc)
  end.

Definition count_doc (v : Vectorizer) (st : list string * list counter)
    (doc : string) : list string * list counter :=
  let (vocab, rows) := st in
  let (vocab', fc) := fold_left count_feature (analyze v doc) (vocab, []) in
  (vocab', rows ++ [fc]).

Definition count_vocab (v : Vectorizer) (raw_documents : list string)
    : result (list string * list counter) :=
  let (vocab, rows) := fold_left (count_doc v) raw_documents ([], []) in
  match vocab with
  | [] => Raise (ValueError
            "empty vocabulary; perhaps the documents only contain stop words")
  | _ => Ok (vocab, rows)
  end.

(** [fit_transform]: count, then sort the features ([_sort_features]); the
    column of a term holds the counts recorded under its old index. *)
Definition fit_transform (v : Vectorizer) (raw_documents : list string)
    : result Fitted :=
  counted <- count_vocab v raw_documents ;;
  let (vocab, rows) := counted in
  let terms := sorted vocab in
  Ok {| feature_names := terms;
        matrix := map (fun fc =>
                    map (fun t => match index_of t vocab with
                                  | Some k => counter_get k fc
                                  | None => 0
                                  end) terms) rows |}.

(** [get_feature_names_out()] after fitting; [TfidfVectorizer] learns the
    same vocabulary as [CountVectorizer] and only reweights the counts. *)
Definition get_feature_names_out (v : Vectorizer) (raw_documents : list string)
    : result (list string) :=
  fitted <- fit_transform v raw_documents ;;
  Ok (feature_names fitted).
End Vectorizers.

(** Some entries of scikit-learn's English stop-word list. *)
Definition stop_words_excerpt : list string :=
  ["a"; "about"; "all"; "an"; "and"; "are"; "as"; "at"; "be"; "but"; "by";
   "for"; "from"; "in"; "is"; "it"; "of"; "on"; "or"; "that"; "the"; "this";
   "to"; "was"; "with"].

(** ** Custom tokenizers of the text-vectorization notebook (lines 138-146) *)

(** The attributes of a spaCy token that the notebook reads. *)
Record Token : Type := mkToken {
  lemma_ : string;
  is_stop : bool;
  is_punct : bool
}.

(** The filter condition of [lemmatizer_nostop], per token. *)
Definition kept (token : Token) : bool :=
  negb (is_stop token) && negb (is_punct token).

Section Lemmatizers.
(** [nlp = spacy.load("en_core_web_sm")]: the pre-trained pipeline, a
    function from a text to its sequence of tokens. *)
Variable nlp : string -> list Token.

(** def lemmatizer(text):
        return [token.lemma_ for token in nlp(text)] *)
Definition lemmatizer (text : string) : list string :=
  list_comp lemma_ (fun _ => true) (nlp text).

(** def lemmatizer_nostop(text):
        return [token.lemma_ for token in nlp(text)
                if not token.is_stop and not token.is_punct] *)
Definition lemmatizer_nostop (text : string) : list string :=
  list_comp lemma_
    (fun token => negb (is_stop token) && negb (is_punct token))
    (nlp text).
End Lemmatizers.

(** ** The penguins notebook as a program

    The statements of the script, and what running them top to bottom does
    with names: which names are bound when a statement runs, where a name
    is looked up, and which statement raises.  Values are abstracted to
    "some object" or "a function defined by the script"; whether an
    operation of an external library raises, and the truth value of a test,
    are inputs of the run. *)

Inductive binop : Type := Add | Sub | Mul | Div.

#[local] Unset Elimination Schemes.

Inductive expr : Type :=
| EName (id : string)
| EStr (s : string)
| EInt (z : Z)
| EFloat (q : Q)
| EBool (b : bool)
| ENone
| ESlice
| EAttr (value : expr) (attr : string)
| ECall (func : expr) (args : list expr)
| EKw (arg : string) (value : expr)
| EBinOp (op : binop) (lhs rhs : expr)
| EOr (lhs rhs : expr)
| EAnd (lhs rhs : expr)
| ENot (operand : expr)
| EList (elts : list expr)
| ETuple (elts : list expr)
| EDict (keys values : list expr)
| ESubscript (value index : expr)
| EFString (parts : list expr)
| EListComp (elt : expr) (var : string) (iter : expr) (conds : list expr).

(** Every statement carries the source line it starts on. *)
Inductive stmt : Type :=
| SExpr (line : nat) (e : expr)
| SAssign (line : nat) (targets : list string) (e : expr)
| SSetItem (line : nat) (obj key e : expr)
| SAugAssign (line : nat) (target : string) (e : expr)
| SImport (line : nat) (module asname : string)
| SFromImport (line : nat) (module : string) (names : list (string * string))
| SDef (line : nat) (name : string) (params : list string)
       (defaults : list expr) (body : list stmt)
| SIf (line : nat) (test : expr) (body orelse : list stmt)
| SReturn (line : nat) (e : expr).

#[local] Set Elimination Schemes.

Inductive value : Type :=
| VObj
| VFun (params : list string) (body : list stmt).

Definition env : Type := list (string * value).

(** Module level has no local frame.  Inside a function the names that the
    body assigns (and the parameters) are local for the whole body. *)
Record scope : Type := mkScope {
  globals : env;
  locals : option (list string * env);
  comp_vars : list string
}.

(** The builtin functions and types. *)
Definition builtins : list string :=
  ["abs"; "aiter"; "all"; "anext"; "any"; "ascii"; "bin"; "bool";
   "breakpoint"; "bytearray"; "bytes"; "callable"; "chr"; "classmethod";
   "compile"; "complex"; "delattr"; "dict"; "dir"; "divmod"; "enumerate";
   "eval"; "exec"; "filter"; "float"; "format"; "frozenset"; "getattr";
   "globals"; "hasattr"; "hash"; "help"; "hex"; "id"; "input"; "int";
   "isinstance"; "issubclass"; "iter"; "len"; "list"; "locals"; "map";
   "max"; "memoryview"; "min"; "next"; "object"; "oct"; "open"; "ord";
   "pow"; "print"; "property"; "range"; "repr"; "reversed"; "round"; "set";
   "setattr"; "slice"; "sorted"; "staticmethod"; "str"; "sum"; "super";
   "tuple"; "type"; "vars"; "zip"; "__import__"].

Fixpoint lookup_env (x : string) (en : env) : option value :=
  match en with
  | [] => None
  | (y, v) :: en' => if String.eqb y x then Some v else lookup_env x en'
  end.

Definition lookup_global (sc : scope) (x : string) : result value :=
  match lookup_env x (globals sc) with
  | Some v => Ok v
  | None => if mem x builtins then Ok VObj else Raise (NameError x)
  end.

Definition lookup (sc : scope) (x : string) : result value :=
  if mem x (comp_vars sc) then Ok VObj
  else
    match locals sc with
    | Some (names, loc) =>
        if mem x names
        then match lookup_env x loc with
             | Some v => Ok v
             | None => Raise (UnboundLocalError x)
             end
        else lookup_global sc x
    | None => lookup_global sc x
    end.

Definition bind_name (sc : scope) (x : string) (v : value) : scope :=
  match locals sc with
  | Some (names, loc) =>
      {| globals := globals sc; locals := Some (names, (x, v) :: loc);
         comp_vars := comp_vars sc |}
  | None =>
      {| globals := (x, v) :: globals sc; locals := None;
         comp_vars := comp_vars sc |}
  end.

(** The names a function body assigns. *)
Fixpoint assigned_stmt (s : stmt) : list string :=
  let assigned_block :=
    fix assigned_block (ss : list stmt) : list string :=
      match ss with
      | [] => []
      | s' :: ss' => assigned_stmt s' ++ assigned_block ss'
      end in
  match s with
  | SAssign _ targets _ => targets
  | SAugAssign _ target _ => [target]
  | SImport _ _ asname => [asname]
  | SFromImport _ _ names => map snd names
  | SDef _ name _ _ _ => [name]
  | SIf _ _ body orelse => assigned_block body ++ assigned_block orelse
  | _ => []
  end.

Definition assigned (body : list stmt) : list string :=
  flat_map assigned_stmt body.

(** A computation threads the trace (the lines of the statements started so
    far, in order) and returns a value or raises. *)
Definition M (A : Type) : Type := list nat -> list nat * result A.

Definition retM {A : Type} (a : A) : M A := fun tr => (tr, Ok a).

Definition raiseM {A : Type} (e : exn) : M A := fun tr => (tr, Raise e).

Definition bindM {A B : Type} (c : M A) (k : A -> M B) : M B :=
  fun tr => match c tr with
            | (tr', Ok a) => k a tr'
            | (tr', Raise e) => (tr', Raise e)
            end.

Notation "x <~ c ;; k" := (bindM c (fun x => k))
  (at level 61, c at next level, right associativity).

Inductive flow : Type :=
| Next (sc : scope)
| Returned.

Section Semantics.
(** [raises k]: the external operations of the statement that runs after
    [k] statements have been started raise.  [truth k]: the test evaluated
    then is true. *)
Variable raises : nat -> bool.
Variable truth : nat -> bool.
(** Calling a function defined by the script. *)
Variable call : list string -> list stmt -> env -> M value.

(** An operation carried out by an external library or by the object
    model: attribute access, call, operator, subscript, import. *)
Definition external (line : nat) : M value :=
  fun tr => if raises (length tr) then (tr, Raise (LibraryError line))
            else (tr, Ok VObj).

Fixpoint eval (sc : scope) (line : nat) (e : expr) {struct e} : M value :=
  let evals :=
    fix evals (es : list expr) : M unit :=
      match es with
      | [] => retM tt
      | e' :: es' => _ <~ eval sc line e' ;; evals es'
      end in
  match e with
  | EName id => fun tr => (tr, lookup sc id)
  | EStr _ | EInt _ | EFloat _ | EBool _ | ENone | ESlice => retM VObj
  | EAttr value _ => _ <~ eval sc line value ;; external line
  | ECall func args =>
      f <~ eval sc line func ;;
      _ <~ evals args ;;
      match f with
      | VFun params body => call params body (globals sc)
      | VObj => external line
      end
  | EKw _ value => eval sc line value
  | EBinOp _ lhs rhs =>
      _ <~ eval sc line lhs ;; _ <~ eval sc line rhs ;; external line
  | EOr lhs rhs =>
      _ <~ eval sc line lhs ;;
      fun tr => if truth (length tr) then retM VObj tr
                else eval sc line rhs tr
  | EAnd lhs rhs =>
      _ <~ eval sc line lhs ;;
      fun tr => if truth (length tr) then eval sc line rhs tr
                else retM VObj tr
  | ENot operand => eval sc line operand
  | EList elts | ETuple elts | EFString elts => _ <~ evals elts ;; retM VObj
  | EDict keys values => _ <~ evals keys ;; _ <~ evals values ;; retM VObj
  | ESubscript value index =>
      _ <~ eval sc line value ;; _ <~ eval sc line index ;; external line
  | EListComp elt var iter conds =>
      _ <~ eval sc line iter ;;
      let inner := {| globals := globals sc; locals := locals sc;
                      comp_vars := var :: comp_vars sc |} in
      fun tr =>
        if truth (length tr)
        then ((fix conds_then_elt (cs : list expr) : M value :=
                 match cs with
                 | [] => eval inner line elt
                 | c :: cs' => _ <~ eval inner line c ;; conds_then_elt cs'
                 end) conds) tr
        else retM VObj tr
  end.

Fixpoint evals (sc : scope) (line : nat) (es : list expr) : M unit :=
  match es with
  | [] => retM tt
  | e :: es' => _ <~ eval sc line e ;; evals sc line es'
  end.

Definition start (line : nat) : M unit := fun tr => (tr ++ [line], Ok tt).

Fixpoint exec (sc : scope) (s : stmt) {struct s} : M flow :=
  let block :=
    fix block (sc : scope) (ss : list stmt) : M flow :=
      match ss with
      | [] => retM (Next sc)
      | s' :: ss' =>
          fl <~ exec sc s' ;;
          match fl with
          | Next sc' => block sc' ss'
          | Returned => retM Returned
          end
      end in
  match s with
  | SExpr line e =>
      _ <~ start line ;; _ <~ eval sc line e ;; retM (Next sc)
  | SAssign line targets e =>
      _ <~ start line ;;
      v <~ eval sc line e ;;
      retM (Next (fold_left (fun sc t => bind_name sc t v) targets sc))
  | SSetItem line obj key e =>
      _ <~ start line ;;
      _ <~ eval sc line e ;; _ <~ eval sc line obj ;; _ <~ eval sc line key ;;
      _ <~ external line ;;
      retM (Next sc)
  | SAugAssign line target e =>
      _ <~ start line ;;
      _ <~ eval sc line (EName target) ;; _ <~ eval sc line e ;;
      _ <~ external line ;;
      retM (Next (bind_name sc target VObj))
  | SImport line _ asname =>
      _ <~ start line ;; _ <~ external line ;;
      retM (Next (bind_name sc asname VObj))
  | SFromImport line _ names =>
      _ <~ start line ;; _ <~ external line ;;
      retM (Next (fold_left (fun sc n => bind_name sc (snd n) VObj) names sc))
  | SDef line name params defaults body =>
      _ <~ start line ;;
      _ <~ evals sc line defaults ;;
      retM (Next (bind_name sc name (VFun params body)))
  | SIf line test body orelse =>
      _ <~ start line ;;
      _ <~ eval sc line test ;;
      fun tr => if truth (length tr) then block sc body tr
                else block sc orelse tr
  | SReturn line e =>
      _ <~ start line ;; _ <~ eval sc line e ;; retM Returned
  end.

Fixpoint exec_block (sc : scope) (ss : list stmt) : M flow :=
  match ss with
  | [] => retM (Next sc)
  | s :: ss' =>
      fl <~ exec sc s ;;
      match fl with
      | Next sc' => exec_block sc' ss'
      | Returned => retM Returned
      end
  end.
End Semantics.

(** A call runs the body in a fresh local frame that binds the parameters;
    [depth] is the interpreter's recursion limit. *)
Fixpoint call_function (raises truth : nat -> bool) (depth : nat)
    (params : list string) (body : list stmt) (glob : env) : M value :=
  match depth with
  | 0 => raiseM RecursionError
  | S depth' =>
      let sc := {| globals := glob;
                   locals := Some (params ++ assigned body,
                                   map (fun p => (p, VObj)) params);
                   comp_vars := [] |} in
      _ <~ exec_block raises truth (call_function raises truth depth') sc body ;;
      retM VObj
  end.

(** Running a script top to bottom from an empty module namespace: the
    trace of started lines and how the run ended. *)
Definition run_script (raises truth : nat -> bool) (depth : nat)
    (script : list stmt) : list nat * result flow :=
  exec_block raises truth (call_function raises truth depth)
    {| globals := []; locals := None; comp_vars := [] |} script [].

(** *** The statements of the penguins notebook

    The computational steps are named, so that they can be referred to. *)

Definition dq : string := String (ascii_of_nat 34) EmptyString.

Definition method_call (obj : expr) (meth : string) (args : list expr) : expr :=
  ECall (EAttr obj meth) args.

Definition item (obj : string) (key : string) : expr :=
  ESubscript (EName obj) (EStr key).

(** df.dropna(inplace=True) *)
Definition null_dropping : expr :=
  method_call (EName "df") "dropna" [EKw "inplace" (EBool true)].

(** one_hot_encode(x, columns=["island", "gender"], dtype=int) *)
Definition one_hot_encoding : expr :=
  ECall (EName "one_hot_encode")
    [EName "x"; EKw "columns" (EList [EStr "island"; EStr "gender"]);
     EKw "dtype" (EName "int")].

(** (x - x.mean(axis=0)) / x.std(axis=0) *)
Definition standardization : expr :=
  EBinOp Div
    (EBinOp Sub (EName "x")
       (method_call (EName "x") "mean" [EKw "axis" (EInt 0)]))
    (method_call (EName "x") "std" [EKw "axis" (EInt 0)]).

(** train_test_split(x_scaled, y, test_size=0.2, random_state=99) *)
Definition splitting : expr :=
  ECall (EName "train_test_split")
    [EName "x_scaled"; EName "y"; EKw "test_size" (EFloat (2 # 10));
     EKw "random_state" (EInt 99)].

(** model.fit(x_train, y_train) *)
Definition fitting : expr :=
  method_call (EName "model") "fit" [EName "x_train"; EName "y_train"].

(** confusion_matrix(y_test, y_pred, labels=model.classes_) *)
Definition confusion : expr :=
  ECall (EName "confusion_matrix")
    [EName "y_test"; EName "y_pred";
     EKw "labels" (EAttr (EName "model") "classes_")].

(** roc_auc_score(y_true=y_test, y_score=y_pred_proba, multi_class="ovr") *)
Definition roc_auc : expr :=
  ECall (EName "roc_auc_score")
    [EKw "y_true" (EName "y_test"); EKw "y_score" (EName "y_pred_proba");
     EKw "multi_class" (EStr "ovr")].

Definition title_layout : expr :=
  EKw "title" (EDict [EStr "text"; EStr "x"; EStr "xanchor"]
                     [EName "title"; EFloat (485 # 1000); EStr "center"]).

Definition plot_correlation_matrix_body : list stmt :=
  [ SExpr 65 (EStr ("Params: method (str): " ++ dq ++ "spearman" ++ dq
                    ++ " or " ++ dq ++ "pearson" ++ dq ++ ". ")%string);
    SAssign 67 ["cor_mat"]
      (method_call (EName "df") "corr"
         [EKw "method" (EName "method"); EKw "numeric_only" (EBool true)]);
    SAssign 69 ["title"]
      (EFString [method_call (EName "method") "title" []; EStr " Correlation"]);
    SAssign 71 ["fig"]
      (method_call (EName "px") "imshow"
         [EName "cor_mat"; EKw "height" (EName "height");
          EKw "text_auto" (EStr ".2f");
          EKw "color_continuous_scale" (EStr "Blues");
          EKw "color_continuous_midpoint" (EInt 0);
          EKw "labels" (EDict [EStr "x"; EStr "y"]
                              [EStr "Variable"; EStr "Variable"])]);
    SExpr 79 (method_call (EName "fig") "update_layout" [title_layout]);
    SExpr 80 (method_call (EName "fig") "show" []) ].

Definition plot_confusion_matrix_body : list stmt :=
  [ SAssign 171 ["cm"]
      (ECall (EName "confusion_matrix") [EName "y_true"; EName "y_pred"]);
    SAssign 173 ["class_names"]
      (ECall (EName "sorted")
         [method_call (method_call (EName "y_test") "unique" []) "tolist" []]);
    SAssign 175 ["cm"]
      (ECall (EName "confusion_matrix")
         [EName "y_test"; EName "y_pred"; EKw "labels" (EName "class_names")]);
    SAssign 177 ["title"] (EOr (EName "title") (EStr "Confusion Matrix"));
    SIf 178 (EName "subtitle")
      [ SAugAssign 179 "title"
          (EFString [EStr "<br><sup>"; EName "subtitle"; EStr "</sup>"]) ]
      [];
    SAssign 181 ["fig"]
      (method_call (EName "px") "imshow"
         [EName "cm"; EKw "x" (EName "class_names");
          EKw "y" (EName "class_names"); EKw "height" (EName "height");
          EKw "labels" (EDict [EStr "x"; EStr "y"]
                              [EStr "Predicted"; EStr "Actual"]);
          EKw "color_continuous_scale" (EStr "Blues");
          EKw "text_auto" (EBool true)]);
    SExpr 185 (method_call (EName "fig") "update_layout" [title_layout]);
    SExpr 186 (method_call (EName "fig") "update_coloraxes"
                 [EKw "showscale" (EName "showscale")]);
    SExpr 188 (method_call (EName "fig") "show" []) ].

Definition compute_roc_auc_score_body : list stmt :=
  [ SExpr 202 (EStr "NOTE: roc_auc_score uses average='macro' by default");
    SIf 204 (EName "is_multiclass")
      [ SReturn 205 roc_auc ]
      [ SAssign 207 ["y_pred_proba_pos"]
          (ESubscript (EName "y_pred_proba") (ETuple [ESlice; EInt 1]));
        SReturn 208
          (ECall (EName "roc_auc_score")
             [EKw "y_true" (EName "y_test");
              EKw "y_score" (EName "y_pred_proba_pos")]) ] ].

Definition upper_case (line : nat) (column : string) : stmt :=
  SSetItem line (EName "df") (EStr column)
    (method_call (EAttr (item "df" column) "str") "upper" []).

Definition sorted_coefficients (line : nat) (species : string) : stmt :=
  SExpr line (method_call (item "coef" species) "sort_values"
                [EKw "ascending" (EBool false)]).

(** Lines 1-98: up to and including the first statement of the Data
    Encoding cell. *)
Definition penguins_head : list stmt :=
  [ SExpr 2 (EStr "Penguins Classifier (Multiclass) - SOLUTIONS

Automatically generated by Colab.

Original file is located at
    https://colab.research.google.com/drive/1mNFyi-0YVpwwWF7jRptEug4s7mW67I9z

In this example, we will predict a penguin's species, given other identifying characteristics such as the penguin's mass and length, as well as which island the penguin lives on.

## Data Loading and Cleaning

https://github.com/mcnakhaee/palmerpenguins
");
    SFromImport 20 "palmerpenguins" [("load_penguins", "load_penguins")];
    SAssign 22 ["df"] (ECall (EName "load_penguins") []);
    SExpr 23 (method_call (EName "df") "rename"
                [EKw "columns" (EDict [EStr "sex"] [EStr "gender"]);
                 EKw "inplace" (EBool true)]);
    upper_case 24 "species";
    upper_case 25 "island";
    upper_case 26 "gender";
    SExpr 27 (method_call (EName "df") "head" []);
    SExpr 29 (method_call (item "df" "island") "value_counts" []);
    SExpr 31 (method_call (item "df" "year") "value_counts" []);
    SExpr 33 (EStr "### Drop Nulls");
    SExpr 35 (method_call (EName "df") "info" []);
    SExpr 37 null_dropping;
    SExpr 38 (method_call (EName "df") "info" []);
    SExpr 40 (EStr "## Data Exploration");
    SExpr 42 (method_call (EName "df") "head" []);
    SExpr 44 (method_call (item "df" "species") "value_counts" []);
    SExpr 46 (method_call (item "df" "island") "value_counts" []);
    SExpr 48 (EStr "### Relationships");
    SImport 50 "plotly.express" "px";
    SExpr 52 (method_call (EName "px") "scatter"
                [EName "df"; EKw "x" (EStr "body_mass_g");
                 EKw "y" (EStr "island"); EKw "color" (EStr "species")]);
    SExpr 54 (EStr "### Pairplots");
    SFromImport 56 "seaborn" [("pairplot", "pairplot")];
    SExpr 58 (ECall (EName "pairplot") [EName "df"; EKw "hue" (EStr "species")]);
    SExpr 60 (EStr "### Correlation");
    SDef 64 "plot_correlation_matrix" ["df"; "method"; "height"]
      [EStr "pearson"; EInt 450] plot_correlation_matrix_body;
    SExpr 83 (ECall (EName "plot_correlation_matrix")
                [EName "df"; EKw "method" (EStr "spearman");
                 EKw "height" (EInt 450)]);
    SExpr 85 (EStr "## X/Y Split");
    SExpr 87 (method_call (EName "df") "head" []);
    SAssign 89 ["target"] (EStr "species");
    SAssign 91 ["x"]
      (method_call (EName "df") "drop"
         [EKw "columns" (EList [EName "target"; EStr "year"])]);
    SAssign 92 ["y"] (ESubscript (EName "df") (EName "target"));
    SExpr 94 (method_call (EName "x") "head" []);
    SExpr 96 (EStr "## Data Encoding");
    SExpr 98 one_hot_encoding ].

(** Lines 100-212. *)
Definition penguins_tail : list stmt :=
  [ SFromImport 100 "pandas" [("get_dummies", "one_hot_encode")];
    SAssign 102 ["x"] one_hot_encoding;
    SExpr 103 (EName "x");
    SExpr 105 (EStr "## Feature Scaling");
    SAssign 107 ["x_scaled"] standardization;
    SExpr 108 (method_call (EName "x_scaled") "head" []);
    SExpr 110 (method_call (EName "x_scaled") "mean" [EKw "axis" (EInt 0)]);
    SExpr 111 (method_call (EName "x_scaled") "std" [EKw "axis" (EInt 0)]);
    SExpr 113 (EStr "## Train Test Split");
    SFromImport 115 "sklearn.model_selection"
      [("train_test_split", "train_test_split")];
    SAssign 117 ["x_train"; "x_test"; "y_train"; "y_test"] splitting;
    SExpr 119 (ECall (EName "print")
                 [EStr "TRAIN:"; EAttr (EName "x_train") "shape";
                  EAttr (EName "y_train") "shape"]);
    SExpr 120 (ECall (EName "print")
                 [EStr "TEST:"; EAttr (EName "x_test") "shape";
                  EAttr (EName "y_test") "shape"]);
    SExpr 122 (EStr "## Model Training (Logistic Regression)");
    SFromImport 124 "sklearn.linear_model"
      [("LogisticRegression", "LogisticRegression")];
    SAssign 126 ["model"]
      (ECall (EName "LogisticRegression")
         [EKw "random_state" (EInt 99); EKw "C" (EInt 1)]);
    SExpr 128 fitting;
    SExpr 130 (method_call (EName "model") "get_params" []);
    SExpr 132 (EAttr (EName "model") "classes_");
    SExpr 134 (EAttr (EAttr (EName "model") "coef_") "shape");
    SExpr 136 (EAttr (EName "model") "feature_names_in_");
    SFromImport 138 "pandas" [("Series", "Series"); ("DataFrame", "DataFrame")];
    SAssign 140 ["coef"]
      (EAttr (ECall (EName "DataFrame")
                [EAttr (EName "model") "coef_";
                 EKw "columns" (EAttr (EName "x_scaled") "columns");
                 EKw "index" (EAttr (EName "model") "classes_")]) "T");
    SExpr 141 (EName "coef");
    sorted_coefficients 143 "ADELIE";
    sorted_coefficients 145 "CHINSTRAP";
    sorted_coefficients 147 "GENTOO";
    SExpr 149 (EStr "## Evaluation");
    SFromImport 151 "sklearn.metrics"
      [("classification_report", "classification_report")];
    SAssign 153 ["y_pred"] (method_call (EName "model") "predict" [EName "x_test"]);
    SExpr 154 (ECall (EName "print")
                 [ECall (EName "classification_report")
                    [EName "y_test"; EName "y_pred"]]);
    SExpr 156 (EStr "### Confusion Matrix");
    SFromImport 158 "sklearn.metrics" [("confusion_matrix", "confusion_matrix")];
    SExpr 160 (ECall (EName "print") [confusion]);
    SFromImport 162 "sklearn.metrics" [("confusion_matrix", "confusion_matrix")];
    SImport 163 "plotly.express" "px";
    SDef 165 "plot_confusion_matrix"
      ["y_true"; "y_pred"; "height"; "showscale"; "title"; "subtitle"]
      [EInt 450; EBool false; ENone; ENone] plot_confusion_matrix_body;
    SAssign 191 ["subtitle"]
      (EFString [EStr "Penguin Classification Model: ";
                 EAttr (EAttr (EName "model") "__class__") "__name__"]);
    SExpr 192 (ECall (EName "plot_confusion_matrix")
                 [EName "y_test"; EName "y_pred";
                  EKw "subtitle" (EName "subtitle"); EKw "height" (EInt 450)]);
    SExpr 194 (EStr "### ROC-AUC");
    SAssign 196 ["y_pred_proba"]
      (method_call (EName "model") "predict_proba" [EName "x_test"]);
    SExpr 197 (ECall (EName "print") [EAttr (EName "y_pred_proba") "shape"]);
    SFromImport 199 "sklearn.metrics" [("roc_auc_score", "roc_auc_score")];
    SDef 201 "compute_roc_auc_score" ["y_test"; "y_pred_proba"; "is_multiclass"]
      [EBool true] compute_roc_auc_score_body;
    SExpr 212 (ECall (EName "compute_roc_auc_score")
                 [EName "y_test"; EName "y_pred_proba"]) ].

Definition penguins_script : list stmt := penguins_head ++ penguins_tail.

(** No external operation raises; every test is true. *)
Definition never : nat -> bool := fun _ => false.
Definition always : nat -> bool := fun _ => true.

(** *** The computational steps of the two notebooks

    From the text-vectorization notebook: lines 43, 65 and 143. *)

(** cv.fit_transform(x) *)
Definition bag_of_words : expr :=
  method_call (EName "cv") "fit_transform" [EName "x"].

(** tv.fit_transform(x) *)
Definition tfidf : expr :=
  method_call (EName "tv") "fit_transform" [EName "x"].

(** [token.lemma_ for token in nlp(text)] *)
Definition lemmatization : expr :=
  EListComp (EAttr (EName "token") "lemma_") "token"
    (ECall (EName "nlp") [EName "text"]) [].

Definition computational_steps : list (string * expr) :=
  [ ("null-dropping", null_dropping);
    ("one-hot encoding", one_hot_encoding);
    ("standardization", standardization);
    ("train/test split", splitting);
    ("logistic regression fitting", fitting);
    ("confusion matrix", confusion);
    ("ROC-AUC", roc_auc);
    ("CountVectorizer", bag_of_words);
    ("TfidfVectorizer", tfidf);
    ("lemmatization", lemmatization) ].

(** The calls and the arithmetic operators written in an expression, and
    the names it calls directly. *)
Fixpoint calls (e : expr) : nat :=
  let sum := fix sum (es : list expr) : nat :=
    match es with
    | [] => 0
    | e' :: es' => calls e' + sum es'
    end in
  match e with
  | ECall func args => 1 + calls func + sum args
  | EAttr value _ | EKw _ value | ENot value => calls value
  | EBinOp _ lhs rhs | EOr lhs rhs | EAnd lhs rhs | ESubscript lhs rhs =>
      calls lhs + calls rhs
  | EList elts | ETuple elts | EFString elts => sum elts
  | EDict keys values => sum keys + sum values
  | EListComp elt _ iter conds => calls elt + calls iter + sum conds
  | _ => 0
  end.

Fixpoint operators (e : expr) : nat :=
  let sum := fix sum (es : list expr) : nat :=
    match es with
    | [] => 0
    | e' :: es' => operators e' + sum es'
    end in
  match e with
  | EBinOp _ lhs rhs => 1 + operators lhs + operators rhs
  | ECall func args => operators func + sum args
  | EAttr value _ | EKw _ value | ENot value => operators value
  | EOr lhs rhs | EAnd lhs rhs | ESubscript lhs rhs =>
      operators lhs + operators rhs
  | EList elts | ETuple elts | EFString elts => sum elts
  | EDict keys values => sum keys + sum values
  | EListComp elt _ iter conds => operators elt + operators iter + sum conds
  | _ => 0
  end.

Fixpoint callees (e : expr) : list string :=
  let all := fix all (es : list expr) : list string :=
    match es with
    | [] => []
    | e' :: es' => callees e' ++ all es'
    end in
  match e with
  | ECall (EName f) args => f :: all args
  | ECall func args => callees func ++ all args
  | EAttr value _ | EKw _ value | ENot value => callees value
  | EBinOp _ lhs rhs | EOr lhs rhs | EAnd lhs rhs | ESubscript lhs rhs =>
      callees lhs ++ callees rhs
  | EList elts | ETuple elts | EFString elts => all elts
  | EDict keys values => all keys ++ all values
  | EListComp elt _ iter conds => callees elt ++ callees iter ++ all conds
  | _ => []
  end.

(** The functions the notebooks define themselves. *)
Definition defined_functions (script : list stmt) : list string :=
  flat_map (fun s => match s with
                     | SDef _ name _ _ _ => [name]
                     | _ => []
                     end) script.

Definition own_functions : list string :=
  defined_functions penguins_script ++ ["lemmatizer"; "lemmatizer_nostop"].

(** A step is a single call into an external library when the expression
    holds exactly one call, the callee is not a function of the notebook,
    and no arithmetic operator is applied by the script. *)
Definition single_library_call (e : expr) : bool :=
  Nat.eqb (calls e) 1 && Nat.eqb (operators e) 0
  && forallb (fun f => negb (mem f own_functions)) (callees e).

(** Whether every line of a trace is at most [n]. *)
Definition all_le (n : nat) (tr : list nat) : bool :=
  forallb (fun l => Nat.leb l n) tr.

(** [y = df[target]] on the cleaned frame (lines 37 and 92). *)
Definition prepare_y (df : DataFrame cell) : result (Series cell) :=
  getitem target (dropna df).

(** A frame without missing cells. *)
Definition no_missing (df : DataFrame cell) : bool :=
  forallb (fun c => forallb notna (snd c)) (cols df).

(** The column that line 107 computes from one column of [x]: each value
    minus the column mean, divided by the column standard deviation. *)
Definition standardize (col : list float) : list float :=
  map (fun w => fdiv (fsub w (mean col)) (std col)) col.

(** A change of unit [v |-> a * v + b] of a float cell; NaN stays NaN. *)
Definition affine (a b : R) (v : float) : float :=
  option_map (fun r => a * r + b)%R v.

(** An indicator column that is 1 in every row, and the body mass of
    [scaling_sample] in kilograms. *)
Definition constant_column_sample : DataFrame float :=
  {| index := [0; 1; 2]%Z;
     cols := [ ("island_TORGERSEN", [Some 1%R; Some 1%R; Some 1%R]) ] |}.

Definition kilogram_sample : DataFrame float :=
  {| index := [0; 1; 2]%Z;
     cols := [ ("body_mass_g",
                map (affine (/ 1000) 0)
                    [Some 3750%R; Some 3800%R; Some 3250%R]) ] |}.

(** Whether every character of a string satisfies [p]. *)
Fixpoint string_forall (p : ascii -> bool) (s : string) : bool :=
  match s with
  | EmptyString => true
  | String a s' => p a && string_forall p s'
  end.

Definition is_lower_char (a : ascii) : bool := Ascii.eqb (lower_char a) a.

Section LemmaVectorizers.
Variable nlp : string -> list Token.

(** TfidfVectorizer(tokenizer=lemmatizer)  (line 152) *)
Definition lemma_vectorizer : Vectorizer :=
  {| lowercase := true; stop_words := NoStopWords;
     tokenizer := Some (lemmatizer nlp) |}.

(** TfidfVectorizer(tokenizer=lemmatizer_nostop)  (line 159) *)
Definition lemma_nostop_vectorizer : Vectorizer :=
  {| lowercase := true; stop_words := NoStopWords;
     tokenizer := Some (lemmatizer_nostop nlp) |}.
End LemmaVectorizers.

(** The blank-separated words of a text; [word] holds the characters of the
    word being read. *)
Fixpoint split_words (word : string) (s : string) : list string :=
  match s with
  | EmptyString => match word with EmptyString => [] | _ => [word] end
  | String a s' =>
      if Ascii.eqb a " "
      then match word with
           | EmptyString => split_words EmptyString s'
           | _ => word :: split_words EmptyString s'
           end
      else split_words (word ++ String a EmptyString) s'
  end.

(** The number of times a word occurs in a sentence, the sentence being
    read as its blank-separated words. *)
Definition occurrences (word sentence : string) : nat :=
  count_occ string_dec (split_words EmptyString sentence) word.

(** A stand-in for the spaCy pipeline: one token per blank-separated word,
    the word itself as lemma, "the" as the only stop word. *)
Definition toy_nlp (text : string) : list Token :=
  map (fun w => {| lemma_ := w; is_stop := String.eqb w "the";
                   is_punct := false |})
      (split_words EmptyString text).

(** *** Pruning by document frequency (lines 119-122)

    [TfidfVectorizer(min_df=min_df, max_df=max_df)] with fractional bounds
    between 0 and 1.  Fitting counts the terms as [CountVectorizer] does,
    keeps a feature when the number of documents it occurs in lies between
    [min_df * n_doc] and [max_df * n_doc] ([_limit_features]), and only
    then turns the counts of the kept features into tf-idf weights.  What
    is modelled is the set of kept features, in their order: the value of
    [tv.get_feature_names_out()] on line 122.  The weights returned by
    [tv.fit_transform(x)] on line 121 are not modelled.  Pruning acts
    column by column, so it is applied to the sorted features. *)

(** [_document_frequency]: the number of rows with a non-zero count in
    column [j]. *)
Definition document_frequency (rows : list (list nat)) (j : nat) : nat :=
  length (filter (fun row => Nat.ltb 0 (nth j row 0)) rows).

Definition within (low high : Q) (df : nat) : bool :=
  Qle_bool low (inject_Z (Z.of_nat df))
  && Qle_bool (inject_Z (Z.of_nat df)) high.

(** [_limit_features], as far as the feature names go: the features whose
    document frequency lies within the two bounds, computed on the count
    matrix. *)
Definition limit_features (low high : Q) (F : Fitted) : result (list string) :=
  let mask := map (fun j => within low high (document_frequency (matrix F) j))
                  (seq 0 (length (feature_names F))) in
  if existsb (fun b => b) mask
  then Ok (select mask (feature_names F))
  else Raise (ValueError
         "After pruning, no terms remain. Try a lower min_df or a higher max_df.").

Section DocumentFrequency.
Variable ENGLISH_STOP_WORDS : list string.
(** The two bounds are products of a binary64 number and the number of
    documents, computed in binary64: [float_mul q n] is the value of that
    product for the fraction [q] and [n] documents. *)
Variable float_mul : Q -> nat -> Q.

(** [get_feature_names_out()] after fitting with [min_df] and [max_df]. *)
Definition get_feature_names_out_df (min_df max_df : Q) (v : Vectorizer)
    (raw_documents : list string) : result (list string) :=
  counted <- fit_transform ENGLISH_STOP_WORDS v raw_documents ;;
  let n_doc := length raw_documents in
  let max_doc_count := float_mul max_df n_doc in
  let min_doc_count := float_mul min_df n_doc in
  if negb (Qle_bool min_doc_count max_doc_count)
  then Raise (ValueError "max_df corresponds to < documents than min_df")
  else limit_features min_doc_count max_doc_count counted.
End DocumentFrequency.

(** A stand-in for the binary64 product, used to run the pruning on the
    corpus: the exact product.  On the four documents of the corpus it
    admits the same document frequencies as the notebook's bounds, 2 and
    3 for [min_df=0.5] and [max_df=0.9]. *)
Definition exact_product (q : Q) (n : nat) : Q :=
  (q * inject_Z (Z.of_nat n))%Q.

(** The number of documents in which a term occurs. *)
Definition occurs_in (ENGLISH_STOP_WORDS : list string) (v : Vectorizer)
    (docs : list string) (t : string) : nat :=
  length (filter (fun doc => mem t (analyze ENGLISH_STOP_WORDS v doc)) docs).

(** The number of samples whose true label is [t] and whose predicted label
    is [p]. *)
Definition samples_with (y_true y_pred : list string) (t p : string) : nat :=
  length (filter (fun s => String.eqb (fst s) t && String.eqb (snd s) p)
                 (combine y_true y_pred)).



Definition plot_confusion_matrix_params : list string :=
  ["y_true"; "y_pred"; "height"; "showscale"; "title"; "subtitle"].

Definition compute_roc_auc_score_params : list string :=
  ["y_test"; "y_pred_proba"; "is_multiclass"].

(** A module namespace that binds the two imports of lines 162-163 and
    nothing else, and one that binds only [roc_auc_score]. *)
Definition metrics_namespace : env :=
  [("px", VObj); ("confusion_matrix", VObj)].

Definition roc_namespace : env := [("roc_auc_score", VObj)].

(** ** Loading and cleaning (lines 22-26, 37)

    [df.rename(columns={"sex": "gender"}, inplace=True)] relabels the
    column; [df[c] = df[c].str.upper()] replaces the string column [c] by
    its upper-cased values, missing cells staying missing.  Only columns of
    strings and missing cells are modelled for the [.str] accessor, and
    only frames in which the label names one column. *)

Definition upper_char (a : ascii) : ascii :=
  let n := nat_of_ascii a in
  if ((97 <=? n) && (n <=? 122))%nat then ascii_of_nat (n - 32) else a.

Fixpoint upper (s : string) : string :=
  match s with
  | EmptyString => EmptyString
  | String a s' => String (upper_char a) (upper s')
  end.

Definition upper_cell (c : cell) : result cell :=
  match c with
  | Str s => Ok (Str (upper s))
  | NA => Ok NA
  | _ => Raise (Unmodelled "str accessor on a numeric cell")
  end.

Definition rename_column (old new : string) (df : DataFrame cell)
    : DataFrame cell :=
  {| index := index df;
     cols := map (fun c => (if String.eqb (fst c) old then new else fst c,
                            snd c)) (cols df) |}.

Definition upper_case_column (name : string) (df : DataFrame cell)
    : result (DataFrame cell) :=
  match count_occ string_dec (map fst (cols df)) name with
  | 0 => Raise (KeyError name)
  | 1 =>
      cs <- mapM (fun c => if String.eqb (fst c) name
                           then vals <- mapM upper_cell (snd c) ;;
                                Ok (fst c, vals)
                           else Ok c) (cols df) ;;
      Ok {| index := index df; cols := cs |}
  | _ => Raise (Unmodelled "duplicate column labels")
  end.

(** Lines 23-26 and 37 on the frame returned by [load_penguins()]. *)
Definition clean (df : DataFrame cell) : result (DataFrame cell) :=
  let df := rename_column "sex" "gender" df in
  df <- upper_case_column "species" df ;;
  df <- upper_case_column "island" df ;;
  df <- upper_case_column "gender" df ;;
  Ok (dropna df).

(** What cleaning does to a column label and to a cell of a column. *)
Definition cleaned_label (name : string) : string :=
  if String.eqb name "sex" then "gender" else name.

Definition upper_total (c : cell) : cell :=
  match c with
  | Str s => Str (upper s)
  | _ => c
  end.

Definition cleaned_cell (label : string) (c : cell) : cell :=
  if mem label ["species"; "island"; "gender"] then upper_total c else c.

Definition cleaned_column (c : string * list cell) : string * list cell :=
  (cleaned_label (fst c), map (cleaned_cell (cleaned_label (fst c))) (snd c)).

(** The rows of [penguins_sample] as [load_penguins()] returns them. *)
Definition raw_penguins_sample : DataFrame cell :=
  {| index := [0; 1; 2; 3; 4; 152]%Z;
     cols :=
       [ ("species", [Str "Adelie"; Str "Adelie"; Str "Adelie"; Str "Adelie";
                      Str "Adelie"; Str "Gentoo"]);
         ("island", [Str "Torgersen"; Str "Torgersen"; Str "Torgersen";
                     Str "Torgersen"; Str "Torgersen"; Str "Biscoe"]);
         ("bill_length_mm", [Float (391 # 10); Float (395 # 10); Float (403 # 10);
                             NA; Float (367 # 10); Float (461 # 10)]);
         ("bill_depth_mm", [Float (187 # 10); Float (174 # 10); Float (180 # 10);
                            NA; Float (193 # 10); Float (132 # 10)]);
         ("flipper_length_mm", [Float (181 # 1); Float (186 # 1); Float (195 # 1);
                                NA; Float (193 # 1); Float (211 # 1)]);
         ("body_mass_g", [Float (3750 # 1); Float (3800 # 1); Float (3250 # 1);
                          NA; Float (3450 # 1); Float (4500 # 1)]);
         ("sex", [Str "male"; Str "female"; Str "female"; NA; Str "female";
                  Str "female"]);
         ("year", [Int 2007; Int 2007; Int 2007; Int 2007; Int 2007; Int 2007]) ]
  |}.

(* ================================================================== *)
(** * Part II. Properties                                              *)
(* ================================================================== *)

(** ** List comprehensions *)

Lemma list_comp_acc {A B : Type} (elt : A -> B) (cond : A -> bool) it acc :
  fold_left (fun acc a => if cond a then acc ++ [elt a] else acc) it acc
  = acc ++ map elt (filter cond it).
Proof.
  revert acc; induction it as [|a it IH]; intros acc; simpl.
  - now rewrite app_nil_r.
  - rewrite IH. destruct (cond a); simpl; [now rewrite <- app_assoc|reflexivity].
Qed.

Lemma list_comp_map_filter {A B : Type} (elt : A -> B) (cond : A -> bool) it :
  list_comp elt cond it = map elt (filter cond it).
Proof. unfold list_comp. now rewrite list_comp_acc. Qed.

Lemma filter_true {A : Type} (l : list A) : filter (fun _ => true) l = l.
Proof. induction l; simpl; congruence. Qed.

Lemma select_map_filter {A B : Type} (elt : A -> B) (cond : A -> bool) l :
  select (map cond l) (map elt l) = map elt (filter cond l).
Proof.
  induction l as [|a l IH]; simpl; [reflexivity|].
  destruct (cond a); simpl; now rewrite IH.
Qed.

Lemma select_Subseq {A : Type} (mask : list bool) (l : list A) :
  length mask = length l -> Subseq (select mask l) l.
Proof.
  revert l; induction mask as [|b mask IH]; intros [|a l] Hlen;
    simpl in *; try discriminate.
  - constructor.
  - injection Hlen as Hlen.
    destruct b; [apply Subseq_take|apply Subseq_skip]; auto.
Qed.

(** ** Lemmatizers *)

Section LemmatizerFacts.
Variable nlp : string -> list Token.

(** C10. For every text, [lemmatizer_nostop text] is a subsequence of
    [lemmatizer text]: the full output has one lemma per token, and the
    filtered output is the selection, in order, of the lemmas whose token
    is neither a stopword nor punctuation. *)
Theorem lemmatizer_nostop_subsequence (text : string) :
  length (lemmatizer nlp text) = length (nlp text) /\
  lemmatizer_nostop nlp text
    = select (map kept (nlp text)) (lemmatizer nlp text) /\
  Subseq (lemmatizer_nostop nlp text) (lemmatizer nlp text).
Proof.
  unfold lemmatizer, lemmatizer_nostop.
  rewrite !list_comp_map_filter, filter_true.
  assert (E : map lemma_ (filter (fun token => negb (is_stop token) && negb (is_punct token)) (nlp text))
              = select (map kept (nlp text)) (map lemma_ (nlp text))).
  { symmetry. apply (select_map_filter lemma_ kept). }
  split; [apply length_map|]. split; [exact E|].
  rewrite E. apply select_Subseq. now rewrite !length_map.
Qed.
End LemmatizerFacts.

(** ** Frames: [dropna] *)

Lemma select_id_filter {A : Type} (f : A -> bool) (l : list A) :
  select (map f l) l = filter f l.
Proof.
  induction l as [|a l IH]; simpl; [reflexivity|].
  destruct (f a); now rewrite IH.
Qed.

Lemma filter_Subseq {A : Type} (f : A -> bool) (l : list A) :
  Subseq (filter f l) l.
Proof.
  induction l as [|a l IH]; simpl; [constructor|].
  destruct (f a); [apply Subseq_take|apply Subseq_skip]; exact IH.
Qed.

Lemma select_In {A : Type} (mask : list bool) (l : list A) (v : A) :
  In v (select mask l) ->
  exists i, nth_error mask i = Some true /\ nth_error l i = Some v.
Proof.
  revert l; induction mask as [|b mask IH]; intros [|a l] H;
    simpl in H; try contradiction.
  destruct b.
  - destruct H as [->|H].
    + now exists 0.
    + destruct (IH _ H) as (i & Hm & Hl). now exists (S i).
  - destruct (IH _ H) as (i & Hm & Hl). now exists (S i).
Qed.

Lemma row_at_S cs i : row_at cs (S i) = row_at (tails cs) i.
Proof.
  unfold row_at, tails. rewrite map_map. apply map_ext.
  intros [n [|h t]]; simpl; [now destruct i|reflexivity].
Qed.

Lemma rows_of_cons z idx cs :
  rows_of (z :: idx) cs = (z, row_at cs 0) :: rows_of idx (tails cs).
Proof.
  unfold rows_of. simpl. f_equal.
  rewrite <- seq_shift, map_map. apply map_ext.
  intros i. now rewrite row_at_S.
Qed.

Lemma rows_of_select mask : forall idx cs,
  length mask = length idx ->
  (forall c, In c cs -> length (snd c) = length idx) ->
  rows_of (select mask idx) (map (fun c => (fst c, select mask (snd c))) cs)
  = select mask (rows_of idx cs).
Proof.
  induction mask as [|b mask IH]; intros [|z idx] cs Hlen Hcs;
    simpl in Hlen; try discriminate; [reflexivity|].
  injection Hlen as Hlen.
  rewrite (rows_of_cons z idx cs).
  assert (Ht : forall c, In c (tails cs) -> length (snd c) = length idx).
  { intros c Hc. apply in_map_iff in Hc as (c0 & <- & Hc0). simpl.
    specialize (Hcs _ Hc0). simpl in Hcs. destruct (snd c0); simpl in *; lia. }
  assert (Hsel : map (fun c => (fst c, select mask (snd c))) (tails cs)
                 = map (fun c => (fst c, select (false :: mask) (snd c))) cs).
  { unfold tails. rewrite map_map. apply map_ext_in. intros c Hc. simpl.
    specialize (Hcs _ Hc). simpl in Hcs. now destruct (snd c). }
  destruct b; simpl select.
  - rewrite rows_of_cons. f_equal.
    + f_equal. unfold row_at. rewrite map_map. apply map_ext_in.
      intros c Hc. specialize (Hcs _ Hc). simpl in *.
      now destruct (snd c).
    + rewrite <- (IH idx (tails cs) Hlen Ht). f_equal.
      unfold tails. rewrite !map_map. apply map_ext_in.
      intros c Hc. specialize (Hcs _ Hc). simpl in *.
      now destruct (snd c).
  - rewrite <- (IH idx (tails cs) Hlen Ht). now rewrite Hsel.
Qed.

Lemma well_formed_cols {A : Type} (df : DataFrame A) :
  well_formed df = true ->
  forall c, In c (cols df) -> length (snd c) = nrows df.
Proof.
  unfold well_formed. rewrite forallb_forall. intros H c Hc.
  now apply Nat.eqb_eq, H.
Qed.

Lemma rows_dropna (df : DataFrame cell) :
  well_formed df = true ->
  rows (dropna df) = filter (fun r => complete (snd r)) (rows df).
Proof.
  intros Hwf. unfold rows, dropna. cbn [index cols].
  rewrite rows_of_select.
  - rewrite <- select_id_filter. f_equal.
    unfold rows_of, nrows. now rewrite map_map.
  - unfold nrows. now rewrite length_map, length_seq.
  - apply (well_formed_cols df Hwf).
Qed.

Lemma dropna_notna (df : DataFrame cell) c v :
  In c (cols (dropna df)) -> In v (snd c) -> notna v = true.
Proof.
  unfold dropna. cbn [cols]. intros Hc Hv.
  apply in_map_iff in Hc as (c0 & <- & Hc0). cbn [snd] in Hv.
  apply select_In in Hv as (i & Hm & Hl).
  rewrite nth_error_map in Hm.
  destruct (nth_error (seq 0 (nrows df)) i) as [j|] eqn:Ej;
    [|discriminate].
  simpl in Hm. injection Hm as Hm.
  assert (j = i).
  { assert (Hi : i < length (seq 0 (nrows df))) by (apply nth_error_Some; congruence).
    rewrite (nth_error_nth' _ 0 Hi) in Ej. injection Ej as <-.
    rewrite length_seq in Hi. now rewrite seq_nth. }
  subst j. unfold complete, row_at in Hm. rewrite forallb_forall in Hm.
  specialize (Hm (nth i (snd c0) NA)).
  rewrite (nth_error_nth _ _ NA Hl) in Hm. apply Hm.
  apply in_map_iff. exists c0. split; [now rewrite (nth_error_nth _ _ NA Hl)|exact Hc0].
Qed.

Lemma select_length_eq {A B : Type} (mask : list bool) :
  forall (l : list A) (l' : list B),
  length l = length l' -> length (select mask l) = length (select mask l').
Proof.
  induction mask as [|b mask IH]; intros [|a l] [|a' l'] H; simpl in *;
    try discriminate; try reflexivity.
  injection H as H. destruct b; simpl; auto.
Qed.

Lemma well_formed_dropna (df : DataFrame cell) :
  well_formed df = true -> well_formed (dropna df) = true.
Proof.
  intros Hwf. unfold well_formed. apply forallb_forall. intros c Hc.
  apply Nat.eqb_eq. unfold dropna in *. cbn [cols index nrows] in *.
  apply in_map_iff in Hc as (c0 & <- & Hc0). cbn [snd].
  apply select_length_eq. exact (well_formed_cols df Hwf c0 Hc0).
Qed.

(** C4. On a well-formed frame, [dropna] leaves no missing entry; its rows
    are exactly the rows of the input that hold no missing value, so every
    retained row is a row of the input, the retained rows are in their
    original relative order, and no complete row is removed. *)
Theorem dropna_keeps_exactly_complete_rows (df : DataFrame cell) :
  well_formed df = true ->
  (forall c v, In c (cols (dropna df)) -> In v (snd c) -> v <> NA) /\
  rows (dropna df) = filter (fun r => complete (snd r)) (rows df) /\
  (forall r, In r (rows (dropna df)) -> In r (rows df)) /\
  Subseq (rows (dropna df)) (rows df) /\
  (forall r, In r (rows df) -> complete (snd r) = true ->
             In r (rows (dropna df))).
Proof.
  intros Hwf. pose proof (rows_dropna df Hwf) as E.
  split; [|split; [exact E|rewrite E; split; [|split]]].
  - intros c v Hc Hv ->. now pose proof (dropna_notna df c NA Hc Hv).
  - intros r Hr. now apply filter_In in Hr.
  - apply filter_Subseq.
  - intros r Hr Hcomp. apply filter_In. now split.
Qed.

Lemma dropna_keeps_exactly_complete_rows_witness :
  well_formed penguins_sample = true /\
  rows (dropna penguins_sample)
  = filter (fun r => complete (snd r)) (rows penguins_sample).
Proof.
  split; [reflexivity|].
  apply (dropna_keeps_exactly_complete_rows penguins_sample). reflexivity.
Defined.

(** ** The exception monad *)

Lemma bind_Ok {A B : Type} (c : result A) (k : A -> result B) (b : B) :
  bind c k = Ok b -> exists a, c = Ok a /\ k a = Ok b.
Proof. destruct c as [a|e]; simpl; [now exists a|discriminate]. Qed.

Ltac inv_bind H :=
  let a := fresh "a" in
  let Ha := fresh "Ha" in
  apply bind_Ok in H; destruct H as (a & Ha & H).

(** ** [sorted] and [unique] *)

Lemma insert_perm s l : Permutation (insert s l) (s :: l).
Proof.
  induction l as [|h t IH]; simpl; [reflexivity|].
  destruct (String.leb s h); [reflexivity|].
  rewrite IH. apply perm_swap.
Qed.

Lemma sorted_perm l : Permutation (sorted l) l.
Proof.
  induction l as [|a l IH]; simpl; [reflexivity|].
  rewrite insert_perm. now constructor.
Qed.

Lemma unique_In s l : In s (unique l) <-> In s l.
Proof. unfold unique. now rewrite <- in_rev, nodup_In, <- in_rev. Qed.

Lemma unique_NoDup l : NoDup (unique l).
Proof. unfold unique. apply NoDup_rev, NoDup_nodup. Qed.

Lemma sorted_unique_In s l : In s (sorted (unique l)) <-> In s l.
Proof.
  split; intros H.
  - apply unique_In. exact (Permutation_in s (sorted_perm (unique l)) H).
  - apply (Permutation_in s (Permutation_sym (sorted_perm (unique l)))).
    now apply unique_In.
Qed.

Lemma sorted_unique_NoDup l : NoDup (sorted (unique l)).
Proof.
  apply (Permutation_NoDup (l := unique l));
    [symmetry; apply sorted_perm|apply unique_NoDup].
Qed.

Lemma insert_ascending s l :
  ascending l = true -> ascending (insert s l) = true.
Proof.
  induction l as [|h t IH]; intros H; [reflexivity|].
  cbn [insert]. destruct (String.leb s h) eqn:E.
  - cbn [ascending]. now rewrite E.
  - assert (Hhs : String.leb h s = true).
    { destruct (String.leb_total s h); congruence. }
    destruct t as [|h' t'].
    + simpl. now rewrite Hhs.
    + cbn [ascending] in H. apply andb_true_iff in H as [Hh Ht].
      specialize (IH Ht). cbn [insert] in *.
      destruct (String.leb s h'); cbn [ascending] in *.
      * now rewrite Hhs, IH.
      * now rewrite Hh, IH.
Qed.

Lemma sorted_ascending l : ascending (sorted l) = true.
Proof.
  induction l as [|a l IH]; [reflexivity|]. simpl. now apply insert_ascending.
Qed.

Lemma mem_In s l : mem s l = true <-> In s l.
Proof.
  unfold mem. rewrite existsb_exists. split.
  - intros (x & Hx & E). apply String.eqb_eq in E. now subst.
  - intros H. exists s. split; [exact H|apply String.eqb_refl].
Qed.

Lemma count_in_NoDup (s : string) (l : list string) :
  NoDup l -> In s l -> length (filter (String.eqb s) l) = 1.
Proof.
  induction 1 as [|a l Hnotin Hnd IH]; intros Hin; [contradiction|].
  simpl. destruct (String.eqb s a) eqn:E.
  - apply String.eqb_eq in E. subst a. simpl. f_equal.
    assert (Hnone : forall x, In x l -> String.eqb s x = false).
    { intros x Hx. apply String.eqb_neq. intros ->. contradiction. }
    clear -Hnone. induction l as [|b l IH]; [reflexivity|].
    simpl. rewrite (Hnone b (or_introl eq_refl)). apply IH.
    intros x Hx. apply Hnone. now right.
  - apply IH. destruct Hin as [->|Hin]; [|exact Hin].
    now rewrite String.eqb_refl in E.
Qed.

(** ** Frames: one-hot encoding *)

Lemma strings_of_spec vals ss :
  strings_of vals = Ok ss ->
  forall v, In v vals -> v = NA \/ exists s, v = Str s /\ In s ss.
Proof.
  revert ss; induction vals as [|a vals IH]; intros ss H v Hv;
    [contradiction|].
  destruct a as [|s|q|z]; simpl in H; try discriminate.
  - destruct Hv as [<-|Hv]; [now left|eauto].
  - inv_bind H. injection H as <-. destruct Hv as [<-|Hv].
    + right. exists s. split; [reflexivity|now left].
    + destruct (IH _ Ha v Hv) as [->|(s' & -> & Hs')]; [now left|].
      right. exists s'. split; [reflexivity|now right].
Qed.

Lemma lookup_col_In {A : Type} c (cs : list (string * list A)) vals :
  lookup_col c cs = Some vals -> In (c, vals) cs.
Proof.
  unfold lookup_col. destruct (find _ cs) as [[n v]|] eqn:E; [|discriminate].
  simpl. intros [= <-]. apply find_some in E as [Hin Heq].
  simpl in Heq. apply String.eqb_eq in Heq. now subst.
Qed.

Lemma lookup_col_kept {A : Type} (names : list string) c
    (cs extra : list (string * list A)) :
  In c (map fst cs) -> mem c names = false ->
  lookup_col c (filter (fun x => negb (mem (fst x) names)) cs ++ extra)
  = lookup_col c cs.
Proof.
  unfold lookup_col. intros Hin Hc. f_equal.
  induction cs as [|h t IH]; [contradiction|]. simpl.
  destruct (String.eqb (fst h) c) eqn:E.
  - apply String.eqb_eq in E. rewrite E, Hc. simpl.
    now rewrite <- E, String.eqb_refl.
  - assert (Ht : In c (map fst t)).
    { destruct Hin as [Hh|Ht]; [|exact Ht].
      simpl in Hh. subst c. now rewrite String.eqb_refl in E. }
    destruct (negb (mem (fst h) names)); simpl; [rewrite E|]; now apply IH.
Qed.

Lemma indicator_values lv vals v :
  In v (map (indicator lv) vals) -> v = Int 0 \/ v = Int 1.
Proof.
  intros H. apply in_map_iff in H as (x & <- & _). unfold indicator.
  destruct (is_level lv x); [now right|now left].
Qed.

Lemma dummies_1d_values prefix vals D :
  dummies_1d prefix vals = Ok D ->
  forall c v, In c D -> In v (snd c) -> v = Int 0 \/ v = Int 1.
Proof.
  unfold dummies_1d. intros H c v Hc Hv. inv_bind H. injection H as <-.
  apply in_map_iff in Hc as (lv & <- & _). simpl in Hv.
  eapply indicator_values; eauto.
Qed.

Lemma dummies_1d_length prefix vals D :
  dummies_1d prefix vals = Ok D ->
  forall c, In c D -> length (snd c) = length vals.
Proof.
  unfold dummies_1d. intros H c Hc. inv_bind H. injection H as <-.
  apply in_map_iff in Hc as (lv & <- & _). simpl. apply length_map.
Qed.

Lemma dummies_1d_one_hot prefix vals D :
  dummies_1d prefix vals = Ok D ->
  (forall v, In v vals -> notna v = true) ->
  forall i, i < length vals -> ones_at i D = 1.
Proof.
  unfold dummies_1d, ones_at. intros H Hna i Hi. inv_bind H.
  injection H as <-.
  assert (Hv : In (nth i vals NA) vals) by now apply nth_In.
  destruct (strings_of_spec _ Ha _ Hv) as [E|(s & E & Hs)].
  { specialize (Hna _ Hv). now rewrite E in Hna. }
  rewrite <- (@count_in_NoDup s _ (sorted_unique_NoDup a)
                (proj2 (sorted_unique_In s a) Hs)).
  generalize (sorted (unique a)). intros L.
  induction L as [|lv L IH]; [reflexivity|].
  cbn [map filter snd].
  rewrite (nth_indep _ NA (indicator lv NA)) by now rewrite length_map.
  rewrite map_nth, E. unfold indicator at 1. unfold is_level.
  destruct (String.eqb s lv); cbn [is_one length]; now rewrite IH.
Qed.

Lemma strings_of_In vals ss :
  strings_of vals = Ok ss -> forall s, In s ss <-> In (Str s) vals.
Proof.
  revert ss; induction vals as [|a vals IH]; intros ss H s.
  - injection H as <-. reflexivity.
  - destruct a as [|s0|q|z]; simpl in H; try discriminate.
    + rewrite (IH _ H s). simpl. split; [now right|].
      intros [E|E]; [discriminate|exact E].
    + apply bind_Ok in H as (ss' & Hss' & H). injection H as <-.
      simpl. rewrite (IH _ Hss' s). split.
      * intros [->|E]; [now left|now right].
      * intros [[= ->]|E]; [now left|now right].
Qed.

Lemma indicator_marks lv v : marks lv v (indicator lv v).
Proof.
  unfold marks, indicator, is_level.
  destruct v as [|s|q|z]; try (right; split; [reflexivity|discriminate]).
  destruct (String.eqb s lv) eqn:E.
  - apply String.eqb_eq in E. subst s. now left.
  - apply String.eqb_neq in E. right. split; [reflexivity|].
    intros [= ->]. now apply E.
Qed.

Lemma Forall2_map_self {A B : Type} (P : A -> B -> Prop) (f : A -> B) l :
  (forall a, P a (f a)) -> Forall2 P l (map f l).
Proof. intros H. induction l; simpl; constructor; auto. Qed.

Lemma dummies_1d_columns prefix vals D :
  dummies_1d prefix vals = Ok D -> indicator_columns prefix vals D.
Proof.
  unfold dummies_1d. intros H.
  apply bind_Ok in H as (ss & Hss & H). injection H as <-.
  exists (sorted (unique ss)).
  split; [apply sorted_unique_NoDup|].
  split; [apply sorted_ascending|].
  split.
  - intros lv. rewrite sorted_unique_In. exact (strings_of_In _ Hss lv).
  - apply Forall2_map_self. intros lv. cbn [fst snd].
    split; [reflexivity|].
    apply Forall2_map_self. apply indicator_marks.
Qed.

Lemma drop_columns_Ok {A : Type} names (df x : DataFrame A) :
  drop_columns names df = Ok x ->
  index x = index df /\
  cols x = filter (fun c => negb (mem (fst c) names)) (cols df).
Proof.
  unfold drop_columns. intros H. inv_bind H. injection H as <-. now split.
Qed.

(** C5. On the feature frame of the notebook ([x] is the null-free frame
    without the species and year columns), one-hot encoding island and
    gender keeps the row index and every other column of [x] as it is, and
    replaces island and gender by their indicator columns: integer columns
    holding only 0 and 1, with exactly one 1 per row among the indicators
    of each of the two source columns.  The indicator columns are tied to
    the cells they encode: for each source column there is one indicator
    per distinct value, in ascending order of the values and named
    [island_<value>] or [gender_<value>], and it holds 1 exactly in the
    rows whose source cell is that value and 0 in the others. *)
Theorem get_dummies_frame (df x x' : DataFrame cell) :
  well_formed df = true ->
  drop_columns [target; "year"] (dropna df) = Ok x ->
  get_dummies x ["island"; "gender"] = Ok x' ->
  exists isl gen Disl Dgen,
    lookup_col "island" (cols x) = Some isl /\
    lookup_col "gender" (cols x) = Some gen /\
    dummies_1d "island" isl = Ok Disl /\
    dummies_1d "gender" gen = Ok Dgen /\
    index x' = index x /\
    cols x' = filter (fun c => negb (mem (fst c) ["island"; "gender"])) (cols x)
              ++ Disl ++ Dgen /\
    (forall c, In c (map fst (cols x)) -> c <> "island" -> c <> "gender" ->
               lookup_col c (cols x') = lookup_col c (cols x)) /\
    (forall c v, In c (Disl ++ Dgen) -> In v (snd c) ->
                 v = Int 0 \/ v = Int 1) /\
    (forall c, In c (Disl ++ Dgen) -> length (snd c) = nrows x) /\
    (forall i, i < nrows x -> ones_at i Disl = 1 /\ ones_at i Dgen = 1) /\
    indicator_columns "island" isl Disl /\
    indicator_columns "gender" gen Dgen.
Proof.
  intros Hwf Hx Hx'.
  apply drop_columns_Ok in Hx as [Hidx Hcols].
  assert (Hin : forall c, In c (cols x) -> In c (cols (dropna df))).
  { intros c Hc. rewrite Hcols in Hc. now apply filter_In in Hc. }
  assert (Hlen : forall c, In c (cols x) -> length (snd c) = nrows x).
  { intros c Hc. unfold nrows. rewrite Hidx.
    exact (well_formed_cols _ (well_formed_dropna df Hwf) c (Hin c Hc)). }
  assert (Hna : forall c v, In c (cols x) -> In v (snd c) -> notna v = true).
  { intros c v Hc. apply (dropna_notna df). auto. }
  unfold get_dummies in Hx'. inv_bind Hx'. injection Hx' as <-.
  simpl in Ha.
  destruct (lookup_col "island" (cols x)) as [isl|] eqn:Eisl; [|discriminate].
  destruct (lookup_col "gender" (cols x)) as [gen|] eqn:Egen;
    [|destruct (dummies_1d "island" isl); discriminate].
  destruct (dummies_1d "island" isl) as [Disl|] eqn:EDi; [|discriminate].
  destruct (dummies_1d "gender" gen) as [Dgen|] eqn:EDg; [|discriminate].
  simpl in Ha. injection Ha as <-.
  apply lookup_col_In in Eisl as Hisl. apply lookup_col_In in Egen as Hgen.
  exists isl, gen, Disl, Dgen. cbn [index cols concat]. rewrite app_nil_r.
  do 6 (split; [first [reflexivity|assumption]|]).
  split; [|split; [|split; [|split; [|split]]]].
  - intros c Hc Hi Hg.
    apply (@lookup_col_kept _ ["island"; "gender"] c (cols x)); [exact Hc|].
    simpl. apply String.eqb_neq in Hi, Hg. now rewrite Hi, Hg.
  - intros c v Hc Hv. apply in_app_or in Hc as [Hc|Hc].
    + exact (dummies_1d_values _ _ EDi c v Hc Hv).
    + exact (dummies_1d_values _ _ EDg c v Hc Hv).
  - intros c Hc. apply in_app_or in Hc as [Hc|Hc].
    + rewrite (dummies_1d_length _ _ EDi c Hc). exact (Hlen _ Hisl).
    + rewrite (dummies_1d_length _ _ EDg c Hc). exact (Hlen _ Hgen).
  - intros i Hi. split.
    + eapply dummies_1d_one_hot; [exact EDi|exact (fun v => Hna _ v Hisl)|].
      now rewrite (Hlen _ Hisl : length isl = nrows x).
    + eapply dummies_1d_one_hot; [exact EDg|exact (fun v => Hna _ v Hgen)|].
      now rewrite (Hlen _ Hgen : length gen = nrows x).
  - exact (dummies_1d_columns _ _ EDi).
  - exact (dummies_1d_columns _ _ EDg).
Qed.

Lemma get_dummies_frame_witness :
  well_formed penguins_sample = true /\
  drop_columns [target; "year"] (dropna penguins_sample) = Ok sample_x /\
  get_dummies sample_x ["island"; "gender"] = Ok sample_x_encoded /\
  index sample_x_encoded = index sample_x /\
  (forall i, i < nrows sample_x ->
     ones_at i (skipn 4 (firstn 6 (cols sample_x_encoded))) = 1 /\
     ones_at i (skipn 6 (cols sample_x_encoded)) = 1) /\
  indicator_columns "island"
    [Str "TORGERSEN"; Str "TORGERSEN"; Str "TORGERSEN"; Str "TORGERSEN";
     Str "BISCOE"]
    (skipn 4 (firstn 6 (cols sample_x_encoded))) /\
  indicator_columns "gender"
    [Str "MALE"; Str "FEMALE"; Str "FEMALE"; Str "FEMALE"; Str "FEMALE"]
    (skipn 6 (cols sample_x_encoded)).
Proof.
  destruct (@get_dummies_frame penguins_sample sample_x sample_x_encoded
              eq_refl eq_refl eq_refl)
    as (isl & gen & Disl & Dgen & Li & Lg & Hi & Hg & Hidx & _ & _ & _ & _ & H1
        & Hci & Hcg).
  injection Li as <-. injection Lg as <-.
  injection Hi as <-. injection Hg as <-.
  split; [reflexivity|]. split; [reflexivity|]. split; [reflexivity|].
  split; [reflexivity|]. split; [|split; [exact Hci|exact Hcg]].
  intros i Hlt. split; apply H1; assumption.
Defined.

(** ** Feature scaling *)

Section Scaling.
Local Open Scope R_scope.

Lemma Rsum_scale (g : R -> R) (s : R) (l : list R) :
  Rsum (map (fun v => g v / s) l) = Rsum (map g l) / s.
Proof.
  induction l as [|a l IH]; simpl.
  - unfold Rdiv. now rewrite Rmult_0_l.
  - rewrite IH. unfold Rdiv. now rewrite Rmult_plus_distr_r.
Qed.

Lemma Rsum_centered (m : R) (l : list R) :
  Rsum (map (fun v => v - m) l) = Rsum l - INR (length l) * m.
Proof.
  induction l as [|a l IH].
  - simpl. lra.
  - cbn [map Rsum fold_right length]. fold (Rsum (map (fun v => v - m) l)).
    fold (Rsum l). rewrite IH, S_INR. lra.
Qed.

Lemma Rsum_squares_nonneg (g : R -> R) (l : list R) :
  0 <= Rsum (map (fun v => g v * g v) l).
Proof.
  induction l as [|a l IH]; simpl; [lra|].
  pose proof (Rle_0_sqr (g a)) as H. unfold Rsqr in H. lra.
Qed.

Lemma Rsum_ext (f g : R -> R) (l : list R) :
  (forall v, f v = g v) -> Rsum (map f l) = Rsum (map g l).
Proof. intros H. f_equal. now apply map_ext. Qed.

Lemma finite_map (op : float -> float) (f : R -> R) (col : list float) :
  op None = None -> (forall v, op (Some v) = Some (f v)) ->
  finite (map op col) = map f (finite col).
Proof.
  intros Hn Hs. induction col as [|[v|] col IH]; simpl.
  - reflexivity.
  - now rewrite Hs, IH.
  - now rewrite Hn, IH.
Qed.

Lemma lookup_label_reduce (g : list float -> float)
    (cs : list (string * list float)) c col :
  NoDup (map fst cs) -> In (c, col) cs ->
  lookup_label c (map (fun p => (fst p, g (snd p))) cs) = g col.
Proof.
  unfold lookup_label. induction cs as [|[n v] cs IH]; intros Hnd Hin;
    [contradiction|].
  inversion Hnd as [|? ? Hnotin Hnd']; subst. simpl.
  destruct (String.eqb n c) eqn:E.
  - apply String.eqb_eq in E. subst n. destruct Hin as [Heq|Hin].
    + now injection Heq as ->.
    + exfalso. apply Hnotin. change c with (fst (c, col)). now apply in_map.
  - destruct Hin as [Heq|Hin].
    + injection Heq as -> _. now rewrite String.eqb_refl in E.
    + now apply IH.
Qed.

Lemma lookup_col_map {A B : Type} (g : string -> list A -> list B)
    (cs : list (string * list A)) c col :
  NoDup (map fst cs) -> In (c, col) cs ->
  lookup_col c (map (fun p => (fst p, g (fst p) (snd p))) cs) = Some (g c col).
Proof.
  unfold lookup_col. induction cs as [|[n v] cs IH]; intros Hnd Hin;
    [contradiction|].
  inversion Hnd as [|? ? Hnotin Hnd']; subst. simpl.
  destruct (String.eqb n c) eqn:E.
  - apply String.eqb_eq in E. subst n. destruct Hin as [Heq|Hin].
    + now injection Heq as ->.
    + exfalso. apply Hnotin. change c with (fst (c, col)). now apply in_map.
  - destruct Hin as [Heq|Hin].
    + injection Heq as -> _. now rewrite String.eqb_refl in E.
    + now apply IH.
Qed.

(** The column obtained by centring on [m] and dividing by [s]. *)
Lemma standardized_mean_std (col : list float) (m s : R) :
  (2 <= length (finite col))%nat ->
  m = Rsum (finite col) / INR (length (finite col)) ->
  s = sqrt (Rsum (map (fun v => (m - v) * (m - v)) (finite col))
            / INR (length (finite col) - 1)) ->
  s <> 0 ->
  let col' := map (fun v => fdiv (fsub v (Some m)) (Some s)) col in
  mean col' = Some 0 /\ std col' = Some 1.
Proof.
  intros Hn Hm Hs Hs0 col'.
  set (xs := finite col) in *. set (n := length xs) in *.
  assert (Hfin : finite col' = map (fun v => (v - m) / s) xs).
  { unfold col', xs. apply finite_map; [reflexivity|].
    intros v. simpl. now destruct (Req_dec_T s 0). }
  assert (Hlen : length (finite col') = n).
  { rewrite Hfin. apply length_map. }
  assert (HnR : INR n <> 0) by (apply not_0_INR; lia).
  assert (Hn1 : 0 < INR (n - 1)) by (apply lt_0_INR; lia).
  assert (Hsum : Rsum (finite col') = 0).
  { rewrite Hfin, (Rsum_scale (fun v => v - m)), Rsum_centered.
    fold n. rewrite Hm. fold xs n. field. split; assumption. }
  assert (Hmean : Rsum (finite col') / INR (length (finite col')) = 0).
  { rewrite Hsum. unfold Rdiv. apply Rmult_0_l. }
  split.
  - unfold mean. destruct (finite col') as [|a l] eqn:E.
    + simpl in Hlen. lia.
    + f_equal. exact Hmean.
  - unfold std. cbv zeta. rewrite Hmean, Hlen.
    destruct (Nat.ltb_spec n 2) as [Hlt|_]; [lia|].
    f_equal. rewrite <- sqrt_1. f_equal.
    set (V := Rsum (map (fun v => (m - v) * (m - v)) xs) / INR (n - 1)) in *.
    assert (HV : 0 <= V).
    { unfold V. apply Rmult_le_pos;
        [apply (Rsum_squares_nonneg (fun v => m - v))|].
      left. now apply Rinv_0_lt_compat. }
    assert (Hss : s * s = V) by (rewrite Hs; now apply sqrt_sqrt).
    rewrite Hfin, map_map.
    rewrite (Rsum_ext _ (fun v => ((m - v) * (m - v)) / (s * s))).
    + rewrite (Rsum_scale (fun v => (m - v) * (m - v))), Hss.
      fold V.
      assert (HV0 : V <> 0).
      { intros E0. apply Hs0. rewrite Hs. fold V. rewrite E0. apply sqrt_0. }
      unfold V in *. field. split; [lra|].
      intros E0. apply HV0. rewrite E0. unfold Rdiv. apply Rmult_0_l.
    + intros v. field. exact Hs0.
Qed.
End Scaling.

(** C3. In exact arithmetic, every column of [x] whose standard deviation
    is a nonzero number is mapped by the standardization of line 107 to a
    column (of the same name and length) whose mean is exactly 0 and whose
    standard deviation is exactly 1. *)
Theorem standardization_zero_mean_unit_std
    (x : DataFrame float) (c : string) (col : list float) (s : R) :
  NoDup (map fst (cols x)) ->
  In (c, col) (cols x) ->
  std col = Some s -> s <> 0%R ->
  exists col',
    lookup_col c (cols (x_scaled x)) = Some col' /\
    length col' = length col /\
    mean col' = Some 0%R /\ std col' = Some 1%R.
Proof.
  intros Hnd Hin Hstd Hs0.
  set (g := fun (n : string) (v : list float) =>
              map (fun w => fdiv (fsub w (lookup_label n (mean_axis0 x)))
                                 (lookup_label n (std_axis0 x))) v).
  assert (Hcols : cols (x_scaled x)
                  = map (fun p => (fst p, g (fst p) (snd p))) (cols x)).
  { unfold x_scaled, frame_op. cbn [cols]. rewrite map_map.
    apply map_ext. intros [n v]. cbn [fst snd]. unfold g.
    now rewrite map_map. }
  exists (g c col). rewrite Hcols.
  split; [now apply lookup_col_map|].
  split; [apply length_map|].
  unfold g, mean_axis0, std_axis0.
  rewrite (@lookup_label_reduce mean _ _ _ Hnd Hin),
          (@lookup_label_reduce std _ _ _ Hnd Hin), Hstd.
  unfold std in Hstd. cbv zeta in Hstd.
  destruct (Nat.ltb_spec (length (finite col)) 2) as [|Hn]; [discriminate|].
  injection Hstd as Hs.
  assert (Hmean : mean col
                  = Some (Rsum (finite col) / INR (length (finite col)))%R).
  { unfold mean. destruct (finite col); [simpl in Hn; lia|reflexivity]. }
  rewrite Hmean.
  apply standardized_mean_std; auto.
Qed.

Lemma standardization_zero_mean_unit_std_witness :
  NoDup (map fst (cols scaling_sample)) /\
  In ("gender_MALE", [Some 1%R; Some 0%R; Some 0%R]) (cols scaling_sample) /\
  std [Some 1%R; Some 0%R; Some 0%R] = Some (sqrt (/ 3))%R /\
  sqrt (/ 3) <> 0%R /\
  exists col',
    lookup_col "gender_MALE" (cols (x_scaled scaling_sample)) = Some col' /\
    length col' = 3 /\
    mean col' = Some 0%R /\ std col' = Some 1%R.
Proof.
  assert (Hnd : NoDup (map fst (cols scaling_sample))).
  { simpl. repeat constructor; simpl; intuition discriminate. }
  assert (Hin : In ("gender_MALE", [Some 1%R; Some 0%R; Some 0%R])
                  (cols scaling_sample)) by (simpl; auto).
  assert (Hstd : std [Some 1%R; Some 0%R; Some 0%R] = Some (sqrt (/ 3))%R).
  { unfold std. simpl. do 2 f_equal. field. }
  assert (Hs0 : sqrt (/ 3) <> 0%R).
  { apply Rgt_not_eq, sqrt_lt_R0. lra. }
  repeat (split; [assumption|]).
  exact (@standardization_zero_mean_unit_std scaling_sample _ _ _ Hnd Hin Hstd Hs0).
Defined.

(** ** Train/test split *)

Lemma mapM_length {A B : Type} (f : A -> result B) (l : list A) bs :
  mapM f l = Ok bs -> length bs = length l.
Proof.
  revert bs; induction l as [|a l IH]; intros bs H; simpl in H.
  - now injection H as <-.
  - inv_bind H. inv_bind H. injection H as <-. simpl. f_equal. eauto.
Qed.

Lemma mapM_total {A B : Type} (f : A -> result B) (l : list A) :
  (forall a, In a l -> exists b, f a = Ok b) -> exists bs, mapM f l = Ok bs.
Proof.
  induction l as [|a l IH]; intros H; simpl; [now exists []|].
  destruct (H a (or_introl eq_refl)) as (b & ->).
  destruct IH as (bs & ->); [intros; apply H; now right|].
  now exists (b :: bs).
Qed.

Lemma iloc_list_total {A : Type} (l : list A) (ind : list nat) :
  (forall i, In i ind -> i < length l) -> exists r, iloc_list l ind = Ok r.
Proof.
  intros H. apply mapM_total. intros i Hi.
  destruct (nth_error l i) as [a|] eqn:E; [now exists a|].
  apply nth_error_None in E. specialize (H i Hi). lia.
Qed.

Lemma iloc_total {A : Type} (df : DataFrame A) (ind : list nat) :
  well_formed df = true -> (forall i, In i ind -> i < nrows df) ->
  exists r, iloc df ind = Ok r /\ nrows r = length ind /\
            iloc_list (index df) ind = Ok (index r).
Proof.
  intros Hwf H. unfold iloc.
  destruct (iloc_list_total (index df) ind H) as (idx & Hidx).
  rewrite Hidx. simpl.
  destruct (mapM_total (fun c => vals <- iloc_list (snd c) ind ;; Ok (fst c, vals))
              (cols df)) as (cs & Hcs).
  { intros c Hc. destruct (iloc_list_total (snd c) ind) as (vals & Hv).
    - rewrite (well_formed_cols df Hwf c Hc). exact H.
    - rewrite Hv. simpl. eauto. }
  rewrite Hcs. simpl. eexists. split; [reflexivity|].
  split; [|reflexivity]. unfold nrows. simpl.
  exact (mapM_length _ _ Hidx).
Qed.

Lemma iloc_series_total {A : Type} (s : Series A) (ind : list nat) :
  length (svalues s) = length (sindex s) ->
  (forall i, In i ind -> i < length (sindex s)) ->
  exists r, iloc_series s ind = Ok r /\
            iloc_list (sindex s) ind = Ok (sindex r) /\
            length (svalues r) = length (sindex r).
Proof.
  intros Hlen H. unfold iloc_series.
  destruct (iloc_list_total (sindex s) ind H) as (idx & Hidx).
  destruct (iloc_list_total (svalues s) ind) as (vals & Hvals);
    [now rewrite Hlen|].
  rewrite Hidx, Hvals. simpl. eexists. split; [reflexivity|].
  split; [reflexivity|]. simpl.
  now rewrite (mapM_length _ _ Hidx), (mapM_length _ _ Hvals).
Qed.

Lemma iloc_list_taken {A : Type} (l : list A) (ind : list nat) r :
  iloc_list l ind = Ok r -> taken_at l ind r.
Proof.
  unfold iloc_list, taken_at.
  revert r; induction ind as [|i ind IH]; intros r H; simpl in H.
  - injection H as <-. constructor.
  - apply bind_Ok in H as (a & Ha & H).
    apply bind_Ok in H as (r' & Hr' & H). injection H as <-.
    constructor; [|now apply IH].
    destruct (nth_error l i) as [a'|]; [|discriminate]. congruence.
Qed.

Lemma iloc_rows_at {A : Type} (df : DataFrame A) (ind : list nat) r :
  iloc df ind = Ok r -> frame_rows_at df ind r.
Proof.
  unfold iloc, frame_rows_at. intros H.
  apply bind_Ok in H as (idx & Hidx & H).
  apply bind_Ok in H as (cs & Hcs & H). injection H as <-. cbn [index cols].
  split; [now apply iloc_list_taken|].
  clear Hidx. revert cs Hcs.
  induction (cols df) as [|c l IH]; intros cs Hcs; simpl in Hcs.
  - injection Hcs as <-. constructor.
  - apply bind_Ok in Hcs as (c' & Hc' & Hcs).
    apply bind_Ok in Hcs as (cs' & Hcs' & Hcs). injection Hcs as <-.
    constructor; [|now apply IH].
    apply bind_Ok in Hc' as (vals & Hvals & Hc'). injection Hc' as <-.
    split; [reflexivity|]. now apply iloc_list_taken.
Qed.

Lemma iloc_series_rows_at {A : Type} (y : Series A) (ind : list nat) r :
  iloc_series y ind = Ok r -> series_rows_at y ind r.
Proof.
  unfold iloc_series, series_rows_at. intros H.
  apply bind_Ok in H as (idx & Hidx & H).
  apply bind_Ok in H as (vals & Hvals & H). injection H as <-.
  cbn [sindex svalues]. split; now apply iloc_list_taken.
Qed.

Lemma ceiling_fifth (n : nat) :
  Qceiling ((1 # 5) * inject_Z (Z.of_nat n)) = ((Z.of_nat n + 4) / 5)%Z.
Proof.
  unfold Qceiling, Qfloor, Qopp, Qmult, inject_Z. cbn [Qnum Qden].
  rewrite Z.mul_1_l. change (Z.pos (5 * 1)) with 5%Z.
  set (z := Z.of_nat n).
  pose proof (Z.div_mod (- z) 5 ltac:(lia)) as H1.
  pose proof (Z.mod_pos_bound (- z) 5 ltac:(lia)) as H2.
  apply (Z.div_unique _ _ _ (4 - (- z) mod 5)%Z); lia.
Qed.

Lemma test_rows_fifth (n : nat) :
  2 <= n ->
  let n_test := Z.to_nat (Qceiling ((1 # 5) * inject_Z (Z.of_nat n))) in
  n <= 5 * n_test < n + 5 /\ 1 <= n_test < n.
Proof.
  intros Hn n_test. unfold n_test. rewrite ceiling_fifth.
  pose proof (Z.div_mod (Z.of_nat n + 4) 5 ltac:(lia)) as H1.
  pose proof (Z.mod_pos_bound (Z.of_nat n + 4) 5 ltac:(lia)) as H2.
  lia.
Qed.

Section TrainTestSplitFacts.
Variable permutation : Z -> nat -> list nat.
Hypothesis permutation_spec :
  forall seed n, Permutation (permutation seed n) (seq 0 n).

Lemma shuffle_split_partition seed n n_test :
  n_test <= n ->
  let (train, test) := shuffle_split permutation seed n (n - n_test) n_test in
  Permutation (train ++ test) (seq 0 n) /\
  length train = n - n_test /\ length test = n_test.
Proof.
  intros Hle. unfold shuffle_split.
  pose proof (permutation_spec seed n) as Hp.
  assert (Hlen : length (permutation seed n) = n).
  { rewrite (Permutation_length Hp). apply length_seq. }
  rewrite (firstn_all2 (n := n - n_test)) by (rewrite length_skipn; lia).
  split; [|split].
  - rewrite Permutation_app_comm, firstn_skipn. exact Hp.
  - rewrite length_skipn. lia.
  - rewrite length_firstn. lia.
Qed.

(** C6. With a generator that returns a permutation of the row positions,
    [train_test_split(x, y, test_size=0.2, random_state=99)] on at least two
    rows returns: the train and test positions are disjoint and together
    are all positions, the four results are the selections of [x] and [y]
    at these positions, the sizes add up to the number of rows, the test
    set holds a fifth of the rows rounded up, and the row labels of
    [x_train]/[y_train] and of [x_test]/[y_test] agree position by
    position.  The results are tied to the rows they come from: every
    column of [x_train] has the name of the corresponding column of [x] and
    holds, at place k, the cell of that column at the k-th train position;
    the index of [x_train] and the labels and values of [y_train] are taken
    at the same positions; likewise for the test results and the test
    positions. *)
Theorem train_test_split_partition {A B : Type}
    (x : DataFrame A) (y : Series B) :
  well_formed x = true ->
  length (svalues y) = length (sindex y) ->
  index x = sindex y ->
  2 <= nrows x ->
  exists train test x_train x_test y_train y_test,
    train_test_split permutation x y (1 # 5) 99
      = Ok (x_train, x_test, y_train, y_test) /\
    Permutation (train ++ test) (seq 0 (nrows x)) /\
    NoDup (train ++ test) /\
    iloc x train = Ok x_train /\ iloc x test = Ok x_test /\
    iloc_series y train = Ok y_train /\ iloc_series y test = Ok y_test /\
    nrows x_train = length train /\ nrows x_test = length test /\
    nrows x_train + nrows x_test = nrows x /\
    nrows x <= 5 * nrows x_test < nrows x + 5 /\
    index x_train = sindex y_train /\ index x_test = sindex y_test /\
    frame_rows_at x train x_train /\ frame_rows_at x test x_test /\
    series_rows_at y train y_train /\ series_rows_at y test y_test.
Proof.
  intros Hwf Hy Hidx Hn.
  assert (Hxy : nrows x = length (sindex y)) by (unfold nrows; now rewrite Hidx).
  destruct (test_rows_fifth Hn) as [Hfifth Hrange]. cbv zeta in Hfifth, Hrange.
  unfold train_test_split, validate_shuffle_split.
  rewrite <- Hxy, Nat.eqb_refl. cbn [negb].
  change (Qle_bool (1 # 5) 0 || Qle_bool 1 (1 # 5)) with false. cbv iota.
  set (n_test := Z.to_nat (Qceiling ((1 # 5) * inject_Z (Z.of_nat (nrows x))))) in *.
  destruct (Nat.eqb_spec (nrows x - n_test) 0) as [E|_]; [lia|].
  cbn [bind fst snd].
  pose proof (@shuffle_split_partition 99 (nrows x) n_test ltac:(lia)) as Hsp.
  destruct (shuffle_split permutation 99 (nrows x) (nrows x - n_test) n_test)
    as [train test].
  destruct Hsp as (Hperm & Hltrain & Hltest).
  assert (Hin : forall i, In i (train ++ test) -> i < nrows x).
  { intros i Hi. apply (Permutation_in _ Hperm) in Hi. apply in_seq in Hi. lia. }
  destruct (iloc_total x train Hwf) as (x_train & Ext & Hnt & Hit);
    [intros; apply Hin, in_or_app; now left|].
  destruct (iloc_total x test Hwf) as (x_test & Exs & Hns & His);
    [intros; apply Hin, in_or_app; now right|].
  destruct (iloc_series_total y train Hy) as (y_train & Eyt & Hyt & _);
    [rewrite <- Hxy; intros; apply Hin, in_or_app; now left|].
  destruct (iloc_series_total y test Hy) as (y_test & Eys & Hys & _);
    [rewrite <- Hxy; intros; apply Hin, in_or_app; now right|].
  exists train, test, x_train, x_test, y_train, y_test.
  rewrite Ext, Exs, Eyt, Eys. cbn [bind].
  split; [reflexivity|]. split; [exact Hperm|].
  split; [apply (Permutation_NoDup (Permutation_sym Hperm)), seq_NoDup|].
  do 4 (split; [reflexivity|]).
  split; [exact Hnt|]. split; [exact Hns|].
  split; [lia|]. split; [lia|].
  rewrite Hidx in Hit, His.
  split; [congruence|]. split; [congruence|].
  split; [exact (iloc_rows_at _ _ Ext)|].
  split; [exact (iloc_rows_at _ _ Exs)|].
  split; [exact (iloc_series_rows_at _ _ Eyt)|].
  exact (iloc_series_rows_at _ _ Eys).
Qed.
End TrainTestSplitFacts.

Lemma train_test_split_partition_witness :
  (forall seed n, Permutation (reversing_permutation seed n) (seq 0 n)) /\
  well_formed sample_x_encoded = true /\
  length (svalues sample_y) = length (sindex sample_y) /\
  index sample_x_encoded = sindex sample_y /\
  2 <= nrows sample_x_encoded /\
  exists x_train x_test y_train y_test,
    train_test_split reversing_permutation sample_x_encoded sample_y (1 # 5) 99
      = Ok (x_train, x_test, y_train, y_test) /\
    nrows x_train + nrows x_test = 5 /\
    index x_train = sindex y_train /\ index x_test = sindex y_test /\
    exists train test,
      Permutation (train ++ test) [0; 1; 2; 3; 4] /\
      frame_rows_at sample_x_encoded train x_train /\
      frame_rows_at sample_x_encoded test x_test /\
      series_rows_at sample_y train y_train /\
      series_rows_at sample_y test y_test.
Proof.
  assert (Hp : forall seed n, Permutation (reversing_permutation seed n) (seq 0 n)).
  { intros seed n. unfold reversing_permutation. symmetry. apply Permutation_rev. }
  split; [exact Hp|]. do 3 (split; [reflexivity|]).
  split; [cbv; lia|].
  destruct (@train_test_split_partition reversing_permutation Hp _ _
              sample_x_encoded sample_y eq_refl eq_refl eq_refl
              ltac:(cbv; lia))
    as (train & test & x_train & x_test & y_train & y_test & H & Hperm & _ & _
        & _ & _ & _ & _ & _ & Hsum & _ & Ht & Hs & Hxt & Hxs & Hyt & Hys).
  exists x_train, x_test, y_train, y_test.
  split; [exact H|]. split; [exact Hsum|]. split; [exact Ht|].
  split; [exact Hs|].
  exists train, test. auto.
Defined.

(** ** Vocabulary indices and feature counters *)

Lemma index_of_nth t vocab k :
  index_of t vocab = Some k -> nth_error vocab k = Some t.
Proof.
  revert k; induction vocab as [|h rest IH]; intros k H; simpl in H;
    [discriminate|].
  destruct (String.eqb h t) eqn:E.
  - injection H as <-. apply String.eqb_eq in E. now subst.
  - destruct (index_of t rest) as [k'|]; [|discriminate].
    injection H as <-. simpl. now apply IH.
Qed.

Lemma index_of_inj t u vocab k :
  index_of t vocab = Some k -> index_of u vocab = Some k -> t = u.
Proof.
  intros Ht Hu. apply index_of_nth in Ht, Hu. congruence.
Qed.

Lemma index_of_None t vocab : index_of t vocab = None <-> ~ In t vocab.
Proof.
  induction vocab as [|h rest IH]; simpl; [tauto|].
  destruct (String.eqb h t) eqn:E.
  - apply String.eqb_eq in E. subst. split; [discriminate|tauto].
  - apply String.eqb_neq in E.
    destruct (index_of t rest) as [k|]; simpl.
    + split; [discriminate|]. intros Hn. exfalso.
      destruct (in_dec string_dec t rest) as [Hin|Hout].
      * apply Hn. now right.
      * apply IH in Hout. discriminate.
    + split; [|reflexivity]. intros _ [Heq|Hin]; [congruence|].
      now apply (proj1 IH eq_refl).
Qed.

Lemma index_of_In t vocab : In t vocab -> exists k, index_of t vocab = Some k.
Proof.
  intros H. destruct (index_of t vocab) as [k|] eqn:E; [now exists k|].
  now apply index_of_None in E.
Qed.

Lemma index_of_app t vocab ext k :
  index_of t vocab = Some k -> index_of t (vocab ++ ext) = Some k.
Proof.
  revert k; induction vocab as [|h rest IH]; intros k H; simpl in *;
    [discriminate|].
  destruct (String.eqb h t); [exact H|].
  destruct (index_of t rest) as [k'|]; [|discriminate].
  now rewrite (IH k' eq_refl).
Qed.

Lemma index_of_new t vocab :
  index_of t vocab = None -> index_of t (vocab ++ [t]) = Some (length vocab).
Proof.
  induction vocab as [|h rest IH]; intros H; simpl in *.
  - now rewrite String.eqb_refl.
  - destruct (String.eqb h t); [discriminate|].
    destruct (index_of t rest); [discriminate|].
    now rewrite IH.
Qed.

Lemma index_of_beyond t vocab ext k :
  index_of t (vocab ++ ext) = Some k -> ~ In t vocab -> length vocab <= k.
Proof.
  revert k; induction vocab as [|h rest IH]; intros k H Hnot; simpl in *;
    [lia|].
  destruct (String.eqb h t) eqn:E.
  - apply String.eqb_eq in E. tauto.
  - destruct (index_of t (rest ++ ext)) as [k'|]; [|discriminate].
    injection H as <-. specialize (IH k' eq_refl). intuition lia.
Qed.

Lemma counter_get_incr k idx fc :
  counter_get k (counter_incr idx fc)
  = counter_get k fc + (if Nat.eqb k idx then 1 else 0).
Proof.
  induction fc as [|[k' n] fc IH]; simpl.
  - now destruct (Nat.eqb k idx).
  - destruct (Nat.eqb_spec idx k') as [->|Hne]; simpl.
    + destruct (Nat.eqb_spec k k'); lia.
    + destruct (Nat.eqb_spec k k') as [->|Hne'].
      * destruct (Nat.eqb_spec k' idx); [congruence|lia].
      * exact IH.
Qed.

Lemma count_feature_index st feature vocab1 fc1 :
  count_feature st feature = (vocab1, fc1) ->
  exists idx ext,
    vocab1 = fst st ++ ext /\ fc1 = counter_incr idx (snd st) /\
    index_of feature vocab1 = Some idx /\ idx < length vocab1.
Proof.
  destruct st as [vocab fc]. unfold count_feature.
  destruct (index_of feature vocab) as [idx|] eqn:E; intros [= <- <-].
  - exists idx, []. rewrite app_nil_r. repeat split; auto.
    apply index_of_nth in E. apply nth_error_Some. congruence.
  - exists (length vocab), [feature]. repeat split.
    + now apply index_of_new.
    + rewrite length_app. simpl. lia.
Qed.

(** Counting the tokens [ts] of one document. *)
Lemma count_tokens ts : forall vocab fc vocab' fc',
  fold_left count_feature ts (vocab, fc) = (vocab', fc') ->
  (exists ext, vocab' = vocab ++ ext) /\
  (forall t, In t ts -> In t vocab') /\
  ((forall k, length vocab <= k -> counter_get k fc = 0) ->
   forall k, length vocab' <= k -> counter_get k fc' = 0) /\
  (forall t k, index_of t vocab' = Some k ->
     counter_get k fc' = counter_get k fc + count_occ string_dec ts t).
Proof.
  induction ts as [|f ts IH]; intros vocab fc vocab' fc' H.
  - simpl in H. injection H as <- <-.
    split; [exists []; now rewrite app_nil_r|].
    split; [intros t []|]. split; [auto|]. intros t k _. simpl. lia.
  - change (fold_left count_feature ts (count_feature (vocab, fc) f)
            = (vocab', fc')) in H.
    destruct (count_feature (vocab, fc) f) as [vocab1 fc1] eqn:E1.
    destruct (count_feature_index _ _ E1) as (idx & ext1 & Hv1 & Hf1 & Hidx & Hlt).
    simpl in Hv1, Hf1. subst vocab1 fc1.
    destruct (IH _ _ _ _ H) as ((ext & Hext) & Hin & Hzero & Hcount).
    assert (Hidx' : index_of f vocab' = Some idx)
      by (rewrite Hext; now apply index_of_app).
    rewrite length_app in Hlt.
    split; [exists (ext1 ++ ext); now rewrite Hext, app_assoc|].
    split; [|split].
    + intros t [<-|Ht]; [|now apply Hin].
      apply index_of_nth in Hidx'. eapply nth_error_In; eauto.
    + intros Hz. apply Hzero. intros k Hk. rewrite counter_get_incr.
      rewrite length_app in Hk. rewrite Hz by lia.
      destruct (Nat.eqb_spec k idx); [lia|reflexivity].
    + intros t k Hk. rewrite (Hcount t k Hk), counter_get_incr. simpl.
      destruct (string_dec f t) as [->|Hne].
      * assert (k = idx) by congruence. subst. rewrite Nat.eqb_refl. lia.
      * destruct (Nat.eqb_spec k idx) as [->|_]; [|lia].
        exfalso. apply Hne. eapply index_of_inj; eauto.
Qed.

Lemma count_tokens_vocab ts : forall vocab fc vocab' fc',
  fold_left count_feature ts (vocab, fc) = (vocab', fc') ->
  forall t, In t vocab' -> In t vocab \/ In t ts.
Proof.
  induction ts as [|f ts IH]; intros vocab fc vocab' fc' H t Ht.
  - simpl in H. injection H as <- <-. now left.
  - change (fold_left count_feature ts (count_feature (vocab, fc) f)
            = (vocab', fc')) in H.
    destruct (count_feature (vocab, fc) f) as [vocab1 fc1] eqn:E1.
    destruct (IH _ _ _ _ H t Ht) as [H1|H1]; [|right; now right].
    unfold count_feature in E1.
    destruct (index_of f vocab); injection E1 as <- <-; [now left|].
    apply in_app_or in H1 as [H1|[<-|[]]]; [now left|right; now left].
Qed.

Section VectorizerFacts.
Variable ENGLISH_STOP_WORDS : list string.
Variable v : Vectorizer.

Lemma count_docs docs : forall vocab rows vocab' rows',
  fold_left (count_doc ENGLISH_STOP_WORDS v) docs (vocab, rows)
    = (vocab', rows') ->
  (exists ext, vocab' = vocab ++ ext) /\
  (forall t, In t vocab' ->
     In t vocab \/ exists doc, In doc docs /\ In t (analyze ENGLISH_STOP_WORDS v doc)) /\
  (forall doc t, In doc docs -> In t (analyze ENGLISH_STOP_WORDS v doc) -> In t vocab') /\
  exists newrows,
    rows' = rows ++ newrows /\ length newrows = length docs /\
    forall i doc fc,
      nth_error docs i = Some doc -> nth_error newrows i = Some fc ->
      forall t k, index_of t vocab' = Some k ->
        counter_get k fc = count_occ string_dec (analyze ENGLISH_STOP_WORDS v doc) t.
Proof.
  induction docs as [|d docs IH]; intros vocab rows vocab' rows' H.
  - simpl in H. injection H as <- <-.
    split; [exists []; now rewrite app_nil_r|].
    split; [now left|]. split; [intros ? ? []|].
    exists []. rewrite app_nil_r. repeat split. now intros [|i].
  - change (fold_left (count_doc ENGLISH_STOP_WORDS v) docs
              (count_doc ENGLISH_STOP_WORDS v (vocab, rows) d)
            = (vocab', rows')) in H.
    unfold count_doc at 2 in H.
    destruct (fold_left count_feature (analyze ENGLISH_STOP_WORDS v d) (vocab, []))
      as [vocab1 fc] eqn:E1.
    destruct (count_tokens _ _ _ E1) as ((ext1 & Hv1) & Hin1 & Hz1 & Hc1).
    pose proof (count_tokens_vocab _ _ _ E1) as Hfrom1.
    specialize (Hz1 (fun _ _ => eq_refl)).
    destruct (IH _ _ _ _ H)
      as ((ext & Hext) & Hfrom & Hin & newrows & Hrows & Hlen & Hcount).
    split; [exists (ext1 ++ ext); now rewrite Hext, Hv1, app_assoc|].
    split; [|split].
    + intros t Ht. destruct (Hfrom t Ht) as [H1|(doc & Hd & Hdt)].
      * destruct (Hfrom1 t H1) as [H0|H0]; [now left|].
        right. exists d. split; [now left|exact H0].
      * right. exists doc. split; [now right|exact Hdt].
    + intros doc t [<-|Hd] Ht; [|now apply (Hin doc)].
      rewrite Hext. apply in_or_app. left. now apply Hin1.
    + exists (fc :: newrows). rewrite Hrows, <- app_assoc. simpl.
      split; [reflexivity|]. split; [now rewrite Hlen|].
      intros [|i] doc fc0 Hdoc Hfc t k Hk; simpl in Hdoc, Hfc.
      * injection Hdoc as <-. injection Hfc as <-.
        destruct (in_dec string_dec t vocab1) as [Hv|Hv].
        -- destruct (index_of_In _ _ Hv) as (k1 & Hk1).
           assert (k = k1).
           { rewrite Hext, (index_of_app _ _ ext Hk1) in Hk. congruence. }
           subst k1. rewrite (Hc1 t k Hk1). reflexivity.
        -- rewrite Hext in Hk.
           rewrite (Hz1 k (index_of_beyond _ _ _ Hk Hv)).
           symmetry. apply count_occ_not_In. intros Ht. now apply Hv, Hin1.
      * exact (Hcount i doc fc0 Hdoc Hfc t k Hk).
Qed.

(** What [fit_transform] returns: as many rows as documents; the feature
    names are the tokens of the documents; entry (i, j) is the number of
    occurrences of feature j among the tokens of document i. *)
Lemma fit_transform_counts docs F :
  fit_transform ENGLISH_STOP_WORDS v docs = Ok F ->
  length (matrix F) = length docs /\
  (forall t, In t (feature_names F) <->
             exists doc, In doc docs /\ In t (analyze ENGLISH_STOP_WORDS v doc)) /\
  (forall i j doc term,
     nth_error docs i = Some doc -> nth_error (feature_names F) j = Some term ->
     exists row, nth_error (matrix F) i = Some row /\
       nth_error row j = Some (count_occ string_dec (analyze ENGLISH_STOP_WORDS v doc) term)).
Proof.
  unfold fit_transform, count_vocab. intros H.
  destruct (fold_left (count_doc ENGLISH_STOP_WORDS v) docs ([], []))
    as [vocab rows] eqn:E.
  destruct (count_docs _ _ _ E)
    as (_ & Hfrom & Hin & newrows & Hrows & Hlen & Hcount).
  simpl in Hrows. subst newrows.
  assert (HF : F = {| feature_names := sorted vocab;
                      matrix := map (fun fc =>
                        map (fun t => match index_of t vocab with
                                      | Some k => counter_get k fc
                                      | None => 0
                                      end) (sorted vocab)) rows |}).
  { destruct vocab; [discriminate|]. simpl in H. now injection H as <-. }
  subst F. cbn [feature_names matrix]. split; [now rewrite length_map|].
  assert (Hs : forall t, In t (sorted vocab) <-> In t vocab).
  { intros t. split; apply Permutation_in;
      [apply sorted_perm|symmetry; apply sorted_perm]. }
  split.
  - intros t. rewrite Hs. split.
    + intros Ht. destruct (Hfrom t Ht) as [[]|Hd]. exact Hd.
    + intros (doc & Hd & Ht). now apply (Hin doc).
  - intros i j doc term Hdoc Hterm.
    destruct (nth_error rows i) as [fc|] eqn:Ef.
    + exists (map (fun t => match index_of t vocab with
                            | Some k => counter_get k fc
                            | None => 0
                            end) (sorted vocab)).
      rewrite nth_error_map, Ef. split; [reflexivity|].
      rewrite nth_error_map, Hterm. simpl. f_equal.
      assert (Hv : In term vocab) by (apply Hs; eapply nth_error_In; eauto).
      destruct (index_of_In _ _ Hv) as (k & Hk). rewrite Hk.
      exact (Hcount i doc fc Hdoc Ef term k Hk).
    + exfalso. apply nth_error_None in Ef.
      assert (i < length docs) by (apply nth_error_Some; congruence). lia.
Qed.
End VectorizerFacts.

(** C7. The corpus has four sentences; [CountVectorizer().fit_transform]
    on it returns a matrix with four rows whose entry (i, j) is the number
    of occurrences of feature j among the tokens of sentence i; every entry
    is 0 or 1 and every row sums to 5.  The vocabulary is fixed: the
    features are the thirteen distinct words of the four sentences in
    ascending order, every row has one entry per feature, and entry (i, j)
    is the number of times word j occurs in sentence i, counted on the
    blank-separated words of the sentence. *)
Theorem bag_of_words_corpus (ENGLISH_STOP_WORDS : list string) :
  length corpus = 4 /\
  exists F,
    fit_transform ENGLISH_STOP_WORDS default_vectorizer corpus = Ok F /\
    length (matrix F) = 4 /\
    (forall i j doc term,
       nth_error corpus i = Some doc ->
       nth_error (feature_names F) j = Some term ->
       exists row, nth_error (matrix F) i = Some row /\
         nth_error row j
         = Some (count_occ string_dec
                   (analyze ENGLISH_STOP_WORDS default_vectorizer doc) term)) /\
    Forall (Forall (fun e => e = 0 \/ e = 1)) (matrix F) /\
    Forall (fun row => list_sum row = 5) (matrix F) /\
    feature_names F
    = ["ate"; "brown"; "dog"; "fox"; "lazy"; "quick"; "ran"; "red"; "slept";
       "slow"; "the"; "walked"; "yellow"] /\
    (forall t, In t (feature_names F) <->
               exists doc, In doc corpus /\ 0 < occurrences t doc) /\
    Forall (fun row => length row = length (feature_names F)) (matrix F) /\
    matrix F
    = map (fun doc => map (fun term => occurrences term doc) (feature_names F))
          corpus /\
    matrix F
    = [ [1; 1; 0; 1; 0; 1; 0; 0; 0; 0; 1; 0; 0];
        [0; 1; 1; 0; 0; 0; 0; 0; 0; 1; 1; 1; 0];
        [0; 0; 1; 0; 0; 1; 1; 1; 0; 0; 1; 0; 0];
        [0; 0; 0; 1; 1; 0; 0; 0; 1; 0; 1; 0; 1] ].
Proof.
  split; [reflexivity|].
  destruct (fit_transform ENGLISH_STOP_WORDS default_vectorizer corpus)
    as [F|e] eqn:E; [|vm_compute in E; discriminate].
  exists F. split; [reflexivity|].
  destruct (fit_transform_counts _ _ _ E) as (Hrows & _ & Hcount).
  split; [exact Hrows|]. split; [exact Hcount|].
  vm_compute in E. injection E as <-. cbn [matrix feature_names].
  split; [|split; [|split; [|split; [|split; [|split]]]]].
  - repeat (apply Forall_cons;
            [repeat (apply Forall_cons; [first [now left|now right]|]);
             apply Forall_nil|]).
    apply Forall_nil.
  - repeat (apply Forall_cons; [reflexivity|]). apply Forall_nil.
  - reflexivity.
  - intros t. split.
    + intros Ht.
      assert (Hdec : exists doc, In doc corpus /\
                       In t (split_words EmptyString doc)).
      { simpl in Ht.
        repeat (destruct Ht as [<-|Ht];
                [first [ exists "the quick brown fox ate"; split;
                         [simpl; tauto|vm_compute; tauto]
                       | exists "the slow brown dog walked"; split;
                         [simpl; tauto|vm_compute; tauto]
                       | exists "the quick red dog ran"; split;
                         [simpl; tauto|vm_compute; tauto]
                       | exists "the lazy yellow fox slept"; split;
                         [simpl; tauto|vm_compute; tauto] ]|]).
        contradiction. }
      destruct Hdec as (doc & Hdoc & Hin). exists doc. split; [exact Hdoc|].
      unfold occurrences.
      exact (proj1 (count_occ_In string_dec _ t) Hin).
    + intros (doc & Hdoc & Hocc). unfold occurrences in Hocc.
      apply (proj2 (count_occ_In string_dec _ t)) in Hocc.
      simpl in Hdoc.
      repeat (destruct Hdoc as [<-|Hdoc];
              [vm_compute in Hocc; simpl; intuition (subst; auto 20)|]).
      contradiction.
  - repeat (apply Forall_cons; [reflexivity|]). apply Forall_nil.
  - vm_compute. reflexivity.
  - reflexivity.
Qed.

(** ** Stop-word removal *)

Section StopWordFacts.
Variable ENGLISH_STOP_WORDS : list string.

Lemma fit_transform_total v docs doc t :
  In doc docs -> In t (analyze ENGLISH_STOP_WORDS v doc) ->
  exists F, fit_transform ENGLISH_STOP_WORDS v docs = Ok F.
Proof.
  intros Hd Ht. unfold fit_transform, count_vocab.
  destruct (fold_left (count_doc ENGLISH_STOP_WORDS v) docs ([], []))
    as [vocab rows] eqn:E.
  apply count_docs in E as (_ & _ & Hin & _).
  specialize (Hin doc t Hd Ht).
  destruct vocab; [contradiction|]. simpl. eauto.
Qed.

Lemma get_feature_names_out_spec v docs feats :
  get_feature_names_out ENGLISH_STOP_WORDS v docs = Ok feats ->
  forall t, In t feats <->
            exists doc, In doc docs /\ In t (analyze ENGLISH_STOP_WORDS v doc).
Proof.
  unfold get_feature_names_out. intros H. inv_bind H. injection H as <-.
  now apply fit_transform_counts in Ha as (_ & Hf & _).
Qed.

Lemma analyze_english_not_stop doc t :
  In t (analyze ENGLISH_STOP_WORDS english_vectorizer doc) ->
  ~ In t ENGLISH_STOP_WORDS.
Proof.
  unfold analyze. cbn [lowercase tokenizer get_stop_words stop_words
                       english_vectorizer].
  rewrite list_comp_map_filter, map_id. intros H Hstop.
  apply filter_In in H as [_ H]. apply mem_In in Hstop.
  now rewrite Hstop in H.
Qed.

Hypothesis the_is_stop_word : In "the" ENGLISH_STOP_WORDS.
Hypothesis fox_is_no_stop_word : ~ In "fox" ENGLISH_STOP_WORDS.

(** C8. With [stop_words="english"] no fitted feature name is an English
    stop word, whatever the documents.  On the four-sentence corpus the
    token "the" occurs in every document and is a feature of the default
    vectorizer, while the stop-word-removing vectorizer fits and "the" is
    not among its features. *)
Theorem stop_words_removed :
  (forall docs feats,
     get_feature_names_out ENGLISH_STOP_WORDS english_vectorizer docs = Ok feats ->
     forall w, In w feats -> ~ In w ENGLISH_STOP_WORDS) /\
  Forall (fun doc => In "the" (analyze ENGLISH_STOP_WORDS default_vectorizer doc))
         corpus /\
  (exists feats,
     get_feature_names_out ENGLISH_STOP_WORDS default_vectorizer corpus = Ok feats /\
     In "the" feats) /\
  (exists feats,
     get_feature_names_out ENGLISH_STOP_WORDS english_vectorizer corpus = Ok feats /\
     ~ In "the" feats).
Proof.
  assert (Hgen : forall docs feats,
     get_feature_names_out ENGLISH_STOP_WORDS english_vectorizer docs = Ok feats ->
     forall w, In w feats -> ~ In w ENGLISH_STOP_WORDS).
  { intros docs feats H w Hw.
    apply (proj1 (get_feature_names_out_spec _ _ H w)) in Hw as (doc & _ & Hw).
    eapply analyze_english_not_stop; eassumption. }
  split; [exact Hgen|]. split; [|split].
  - repeat (apply Forall_cons; [vm_compute; tauto|]). apply Forall_nil.
  - destruct (get_feature_names_out ENGLISH_STOP_WORDS default_vectorizer corpus)
      as [feats|e] eqn:E; [|vm_compute in E; discriminate].
    exists feats. split; [reflexivity|].
    vm_compute in E. injection E as <-. simpl. tauto.
  - destruct (fit_transform_total english_vectorizer corpus
                "the quick brown fox ate" "fox") as (F & HF).
    + now left.
    + unfold analyze. cbn [lowercase tokenizer get_stop_words stop_words
                            english_vectorizer].
      rewrite list_comp_map_filter, map_id. apply filter_In. split.
      * vm_compute. tauto.
      * destruct (mem "fox" ENGLISH_STOP_WORDS) eqn:Em; [|reflexivity].
        apply mem_In in Em. contradiction.
    + exists (feature_names F).
      assert (E : get_feature_names_out ENGLISH_STOP_WORDS english_vectorizer corpus
                  = Ok (feature_names F))
        by (unfold get_feature_names_out; now rewrite HF).
      split; [exact E|]. intros Hthe.
      exact (Hgen _ _ E "the" Hthe the_is_stop_word).
Qed.
End StopWordFacts.

Lemma stop_words_removed_witness :
  In "the" stop_words_excerpt /\ ~ In "fox" stop_words_excerpt /\
  exists feats,
    get_feature_names_out stop_words_excerpt english_vectorizer corpus = Ok feats /\
    ~ In "the" feats.
Proof.
  assert (H1 : In "the" stop_words_excerpt) by (simpl; tauto).
  assert (H2 : ~ In "fox" stop_words_excerpt)
    by (simpl; intuition discriminate).
  split; [exact H1|]. split; [exact H2|].
  exact (proj2 (proj2 (proj2 (@stop_words_removed stop_words_excerpt H1 H2)))).
Defined.

(** ** The confusion-matrix plot *)

(** The first [confusion_matrix] call of the body can stop the function
    before anything is shown: here [y_true] and [y_pred] differ in length. *)
Example plot_confusion_matrix_length_mismatch :
  plot_confusion_matrix sample_y_test [] sample_y_pred 450 false None None
  = Raise (ValueError
             "Found input variables with inconsistent numbers of samples").
Proof. reflexivity. Qed.

(** C9. Two calls of [plot_confusion_matrix] that differ only in [y_true]
    and both reach [fig.show()] show the same figure: its matrix is the one
    computed from the enclosing-scope [y_test] and [y_pred], and its class
    labels are the sorted distinct values of [y_test]. *)
Theorem plot_confusion_matrix_ignores_y_true
    (y_test y_pred : list string) (height : Z) (showscale : bool)
    (title subtitle : option string) (y_true1 y_true2 : list string)
    (fig1 fig2 : Figure) :
  plot_confusion_matrix y_test y_true1 y_pred height showscale title subtitle
    = Ok fig1 ->
  plot_confusion_matrix y_test y_true2 y_pred height showscale title subtitle
    = Ok fig2 ->
  fig1 = fig2 /\
  confusion_matrix y_test y_pred (Some (sorted (unique y_test)))
    = Ok (img fig1) /\
  fig_x fig1 = sorted (unique y_test) /\
  fig_y fig1 = sorted (unique y_test).
Proof.
  unfold plot_confusion_matrix. intros H1 H2.
  apply bind_Ok in H1 as (cm1 & _ & H1).
  apply bind_Ok in H2 as (cm2 & _ & H2).
  destruct (confusion_matrix y_test y_pred (Some (sorted (unique y_test))))
    as [cm|e]; [|discriminate].
  cbn [bind] in H1, H2. injection H1 as <-. injection H2 as <-.
  cbn [img fig_x fig_y]. auto.
Qed.

Lemma plot_confusion_matrix_ignores_y_true_witness :
  plot_confusion_matrix sample_y_test sample_y_test sample_y_pred 450 false
    None (Some "Penguin Classification Model: LogisticRegression")
    = Ok sample_figure /\
  plot_confusion_matrix sample_y_test sample_other_y_true sample_y_pred 450
    false None (Some "Penguin Classification Model: LogisticRegression")
    = Ok sample_figure /\
  confusion_matrix sample_y_test sample_y_pred
    (Some (sorted (unique sample_y_test)))
    = Ok (img sample_figure).
Proof.
  split; [reflexivity|]. split; [reflexivity|].
  exact (proj1 (proj2
    (@plot_confusion_matrix_ignores_y_true sample_y_test sample_y_pred 450
       false None (Some "Penguin Classification Model: LogisticRegression")
       sample_y_test sample_other_y_true sample_figure sample_figure
       eq_refl eq_refl))).
Defined.

(** ** The computational steps *)

(** Not every listed step is a single library call: the standardization
    of line 107 holds two calls and two arithmetic operators. *)
Lemma standardization_is_not_a_single_call :
  ~ Forall (fun step => single_library_call (snd step) = true)
           computational_steps.
Proof.
  intros H. rewrite Forall_forall in H.
  specialize (H ("standardization", standardization)).
  assert (Hin : In ("standardization", standardization) computational_steps)
    by (simpl; tauto).
  specialize (H Hin). vm_compute in H. discriminate.
Qed.

(** C1 (amended). Every computational step other than the standardization
    is a single call into an external library.  The standardization of
    line 107 is an arithmetic expression of the script: a subtraction and a
    division that combine two library reductions, [x.mean(axis=0)] and
    [x.std(axis=0)], each of them a single library call. *)
Theorem steps_are_single_calls_except_standardization :
  Forall (fun step => single_library_call (snd step) = true)
         (filter (fun step => negb (String.eqb (fst step) "standardization"))
                 computational_steps) /\
  In (SAssign 107 ["x_scaled"] standardization) penguins_script /\
  (exists mean_call std_call,
     standardization = EBinOp Div (EBinOp Sub (EName "x") mean_call) std_call /\
     single_library_call mean_call = true /\
     single_library_call std_call = true) /\
  calls standardization = 2 /\ operators standardization = 2.
Proof.
  split; [|split; [|split]].
  - repeat (apply Forall_cons; [vm_compute; reflexivity|]). apply Forall_nil.
  - unfold penguins_script. apply in_or_app. right. simpl. tauto.
  - do 2 eexists. split; [reflexivity|]. split; reflexivity.
  - split; reflexivity.
Qed.

(** ** Running the penguins notebook *)

Lemma all_le_spec n tr : all_le n tr = true -> forall l, In l tr -> l <= n.
Proof.
  unfold all_le. rewrite forallb_forall. intros H l Hl.
  now apply Nat.leb_le, H.
Qed.

Ltac whd_lhs E :=
  match type of E with
  | ?t = ?u => let t' := eval lazy head in t in change (t' = u) in E
  end.

(** One step of symbolic execution: reduce to the next consultation of an
    oracle and split on its answer, unless it is already known. *)
Ltac oracle_step E :=
  whd_lhs E;
  lazymatch type of E with
  | context [if ?R ?k then _ else _] =>
      let k' := eval cbv in k in
      change (R k) with (R k') in E;
      first [ match goal with H : R k' = _ |- _ => rewrite H in E end
            | destruct (R k') eqn:? ]
  end.

(** C2. Whatever the external libraries do, a run of the notebook from an
    empty namespace ends with an exception and starts no statement below
    line 98.  The exception is the [NameError] for [one_hot_encode], raised
    by the call of line 98, unless an external operation of an earlier line
    raised first; when no external operation raises it is that
    [NameError]. *)
Theorem penguins_script_stops_at_encoding
    (raises truth : nat -> bool) (depth : nat) :
  1 <= depth ->
  exists tr e,
    run_script raises truth depth penguins_script = (tr, Raise e) /\
    (forall l, In l tr -> l <= 98) /\
    (e = NameError "one_hot_encode" /\ last tr 0 = 98 \/
     exists l, l < 98 /\ e = LibraryError l) /\
    ((forall k, raises k = false) ->
     e = NameError "one_hot_encode" /\ last tr 0 = 98).
Proof.
  intros Hdepth. destruct depth as [|d]; [lia|].
  destruct (run_script raises truth (S d) penguins_script) as [tr r] eqn:E.
  repeat oracle_step E.
  all: whd_lhs E; injection E as <- <-.
  all: do 2 eexists; split; [reflexivity|].
  all: split; [apply all_le_spec; vm_compute; reflexivity|].
  all: split;
    [ first [ left; split; reflexivity
            | right; eexists; split; [|reflexivity]; cbv; lia ]
    | intros Hnever;
      first [ split; reflexivity
            | match goal with
              | H : _ = true |- _ => rewrite Hnever in H; discriminate
              end ] ].
Qed.

Lemma penguins_script_stops_at_encoding_witness :
  1 <= 1000 /\
  exists tr e,
    run_script never always 1000 penguins_script = (tr, Raise e) /\
    (forall l, In l tr -> l <= 98) /\
    (e = NameError "one_hot_encode" /\ last tr 0 = 98 \/
     exists l, l < 98 /\ e = LibraryError l) /\
    ((forall k, never k = false) ->
     e = NameError "one_hot_encode" /\ last tr 0 = 98).
Proof.
  assert (H : 1 <= 1000) by lia.
  split; [exact H|].
  exact (@penguins_script_stops_at_encoding never always 1000 H).
Defined.

(** ** Frames: dropping columns, selecting the target *)

Lemma mapM_Forall2 {A B : Type} (f : A -> result B) (l : list A) bs :
  mapM f l = Ok bs -> Forall2 (fun a b => f a = Ok b) l bs.
Proof.
  revert bs; induction l as [|a l IH]; intros bs H; simpl in H.
  - injection H as <-. constructor.
  - inv_bind H. inv_bind H. injection H as <-. constructor; auto.
Qed.

Lemma mapM_Raise {A B : Type} (f : A -> result B) (l : list A) e :
  mapM f l = Raise e -> exists a, In a l /\ f a = Raise e.
Proof.
  induction l as [|a l IH]; intros H; simpl in H; [discriminate|].
  destruct (f a) as [b|e'] eqn:E; simpl in H.
  - destruct (mapM f l) as [bs|e'']; simpl in H; [discriminate|].
    injection H as ->. destruct (IH eq_refl) as (a' & Hin & Ha').
    exists a'. split; [now right|exact Ha'].
  - injection H as ->. exists a. split; [now left|exact E].
Qed.

(** X1. [df.drop(columns=names)] returns a frame exactly when every name
    labels a column; otherwise it raises [KeyError] for a name that labels
    none.  The result keeps the index and, in their order, exactly the
    columns whose name is not listed. *)
Theorem drop_columns_frame {A : Type} (names : list string) (df : DataFrame A) :
  ((exists x, drop_columns names df = Ok x) <->
   (forall n, In n names -> In n (map fst (cols df)))) /\
  (forall e, drop_columns names df = Raise e ->
     exists n, e = KeyError n /\ In n names /\ ~ In n (map fst (cols df))) /\
  (forall x, drop_columns names df = Ok x ->
     index x = index df /\ Subseq (cols x) (cols df) /\
     (forall c, In c (cols x) <-> In c (cols df) /\ ~ In (fst c) names)).
Proof.
  unfold drop_columns.
  set (chk := fun n => if mem n (map fst (cols df)) then Ok tt
                       else Raise (KeyError n)).
  split; [split|split].
  - intros (x & H) n Hn. inv_bind H.
    pose proof (mapM_Forall2 _ _ Ha) as HF.
    assert (Hall : forall m, In m names -> exists u, chk m = Ok u).
    { clear -HF. induction HF as [|m u l l' Hm _ IH]; intros k [].
      - subst. eauto.
      - now apply IH. }
    destruct (Hall n Hn) as (u & Hu). unfold chk in Hu.
    destruct (mem n (map fst (cols df))) eqn:E; [|discriminate].
    now apply mem_In.
  - intros Hall. destruct (mapM_total chk names) as (us & ->).
    + intros n Hn. exists tt. unfold chk.
      now rewrite (proj2 (mem_In n _) (Hall n Hn)).
    + simpl. eauto.
  - intros e H. destruct (mapM chk names) as [us|e'] eqn:E;
      simpl in H; [discriminate|]. injection H as ->.
    apply mapM_Raise in E as (n & Hn & Hr). unfold chk in Hr.
    destruct (mem n (map fst (cols df))) eqn:Em; [discriminate|].
    injection Hr as <-. exists n. repeat split; auto.
    intros Hin. apply mem_In in Hin. congruence.
  - intros x H. inv_bind H. injection H as <-. cbn [index cols].
    split; [reflexivity|]. split; [apply filter_Subseq|].
    intros c. rewrite filter_In. split; intros [Hc Hn]; split; auto.
    + intros Hin. apply mem_In in Hin. now rewrite Hin in Hn.
    + destruct (mem (fst c) names) eqn:E; [|reflexivity].
      apply mem_In in E. contradiction.
Qed.

(** ** Frames: [dropna] on complete frames *)

Lemma select_all_true {A : Type} (mask : list bool) (l : list A) :
  length mask = length l -> (forall b, In b mask -> b = true) ->
  select mask l = l.
Proof.
  revert l; induction mask as [|b mask IH]; intros [|a l] Hlen Hall;
    simpl in *; try discriminate; [reflexivity|].
  injection Hlen as Hlen. rewrite (Hall b (or_introl eq_refl)).
  f_equal. apply IH; auto.
Qed.

Lemma no_missing_spec df :
  no_missing df = true <->
  (forall c v, In c (cols df) -> In v (snd c) -> notna v = true).
Proof.
  unfold no_missing. rewrite forallb_forall. split.
  - intros H c v Hc Hv. specialize (H c Hc).
    rewrite forallb_forall in H. auto.
  - intros H c Hc. apply forallb_forall. eauto.
Qed.

Lemma dropna_complete_frame (df : DataFrame cell) :
  well_formed df = true -> no_missing df = true -> dropna df = df.
Proof.
  intros Hwf Hno. rewrite no_missing_spec in Hno.
  pose proof (well_formed_cols df Hwf) as Hlen.
  assert (Hmask : forall b,
            In b (map (fun i => complete (row_at (cols df) i)) (seq 0 (nrows df)))
            -> b = true).
  { intros b Hb. apply in_map_iff in Hb as (i & <- & Hi). apply in_seq in Hi.
    unfold complete, row_at. apply forallb_forall. intros v Hv.
    apply in_map_iff in Hv as (c & <- & Hc).
    apply (Hno c _ Hc). apply nth_In. rewrite (Hlen c Hc). lia. }
  destruct df as [idx cs]. unfold dropna. cbn [index cols] in *.
  unfold nrows in *. cbn [index] in *. f_equal.
  - apply select_all_true; [now rewrite length_map, length_seq|exact Hmask].
  - rewrite <- (map_id cs) at 2. apply map_ext_in. intros [n v] Hc.
    cbn [fst snd]. f_equal. apply select_all_true; [|exact Hmask].
    rewrite length_map, length_seq. symmetry. exact (Hlen _ Hc).
Qed.

(** X2. Dropping nulls twice is the same as dropping them once, and a
    well-formed frame without missing cells is returned unchanged. *)
Theorem dropna_idempotent (df : DataFrame cell) :
  well_formed df = true ->
  dropna (dropna df) = dropna df /\
  (no_missing df = true -> dropna df = df).
Proof.
  intros Hwf. split; [|now apply dropna_complete_frame].
  apply dropna_complete_frame; [now apply well_formed_dropna|].
  apply no_missing_spec. intros c v. apply dropna_notna.
Qed.

Lemma dropna_idempotent_witness :
  well_formed penguins_sample = true /\
  dropna (dropna penguins_sample) = dropna penguins_sample.
Proof.
  split; [reflexivity|].
  exact (proj1 (@dropna_idempotent penguins_sample eq_refl)).
Defined.

(** ** Frames: encoding rows with a missing category *)

(** X3. A row whose cell in the encoded column is missing gets 0 in every
    indicator column of that column ([dummy_na=False]): without the
    preceding [dropna] such a row would have no 1 among the indicators. *)
Theorem dummies_1d_missing_row (prefix : string) (vals : list cell) D i :
  dummies_1d prefix vals = Ok D ->
  nth_error vals i = Some NA ->
  ones_at i D = 0 /\
  (forall c, In c D -> nth_error (snd c) i = Some (Int 0)).
Proof.
  unfold dummies_1d, ones_at. intros H Hi. inv_bind H. injection H as <-.
  assert (Hcol : forall lv, nth_error (map (indicator lv) vals) i = Some (Int 0)).
  { intros lv. now rewrite nth_error_map, Hi. }
  split.
  - induction (sorted (unique a)) as [|lv L IH]; [reflexivity|].
    cbn [map filter snd]. rewrite (nth_error_nth _ _ NA (Hcol lv)).
    exact IH.
  - intros c Hc. apply in_map_iff in Hc as (lv & <- & _). apply Hcol.
Qed.

Lemma dummies_1d_missing_row_witness :
  dummies_1d "gender" [Str "MALE"; NA; Str "FEMALE"]
    = Ok [("gender_FEMALE", [Int 0; Int 0; Int 1]);
          ("gender_MALE", [Int 1; Int 0; Int 0])] /\
  nth_error [Str "MALE"; NA; Str "FEMALE"] 1 = Some NA /\
  ones_at 1 [("gender_FEMALE", [Int 0; Int 0; Int 1]);
             ("gender_MALE", [Int 1; Int 0; Int 0])] = 0.
Proof.
  split; [reflexivity|]. split; [reflexivity|].
  exact (proj1 (@dummies_1d_missing_row "gender"
                  [Str "MALE"; NA; Str "FEMALE"] _ 1 eq_refl eq_refl)).
Defined.

(** ** Frames: the prepared features and target stay aligned *)

Lemma get_dummies_Ok data columns x :
  get_dummies data columns = Ok x ->
  index x = index data /\
  (forall c, In c (cols x) ->
     In c (cols data) \/
     exists src vals D, In src columns /\ lookup_col src (cols data) = Some vals /\
                        dummies_1d src vals = Ok D /\ In c D).
Proof.
  unfold get_dummies. intros H. inv_bind H. injection H as <-.
  cbn [index cols]. split; [reflexivity|].
  intros c Hc. apply in_app_or in Hc as [Hc|Hc].
  - left. now apply filter_In in Hc.
  - right. apply in_concat in Hc as (D & HD & HcD).
    apply mapM_Forall2 in Ha.
    assert (Hsrc : exists src, In src columns /\
              match lookup_col src (cols data) with
              | Some vals => dummies_1d src vals
              | None => Raise (KeyError src)
              end = Ok D).
    { clear -Ha HD. induction Ha as [|src D' l l' Hs _ IH]; [contradiction|].
      destruct HD as [<-|HD].
      - exists src. split; [now left|exact Hs].
      - destruct (IH HD) as (s & Hin & Hs'). exists s. split; [now right|exact Hs']. }
    destruct Hsrc as (src & Hin & Hs).
    destruct (lookup_col src (cols data)) as [vals|] eqn:El; [|discriminate].
    exists src, vals, D. auto.
Qed.

Lemma well_formed_get_dummies data columns x :
  well_formed data = true -> get_dummies data columns = Ok x ->
  well_formed x = true.
Proof.
  intros Hwf H. destruct (get_dummies_Ok _ _ H) as (Hidx & Hcols).
  unfold well_formed. apply forallb_forall. intros c Hc. apply Nat.eqb_eq.
  unfold nrows. rewrite Hidx.
  destruct (Hcols c Hc) as [Hin|(src & vals & D & _ & Hl & HD & HcD)].
  - exact (well_formed_cols data Hwf c Hin).
  - rewrite (dummies_1d_length _ _ HD c HcD).
    apply lookup_col_In in Hl. exact (well_formed_cols data Hwf _ Hl).
Qed.

Lemma well_formed_drop_columns {A : Type} names (df x : DataFrame A) :
  well_formed df = true -> drop_columns names df = Ok x ->
  well_formed x = true.
Proof.
  intros Hwf H. apply drop_columns_Ok in H as [Hidx Hcols].
  unfold well_formed. apply forallb_forall. intros c Hc. apply Nat.eqb_eq.
  unfold nrows. rewrite Hidx. rewrite Hcols in Hc. apply filter_In in Hc as [Hc _].
  exact (well_formed_cols df Hwf c Hc).
Qed.

(** X4. The feature frame [x] (lines 37, 91, 102) and the target [y]
    (line 92) built from one well-formed frame carry the same row labels in
    the same order, namely those of the rows without missing values; [x] is
    well formed and [y] has one value per label. *)
Theorem prepared_frames_aligned (df x : DataFrame cell) (y : Series cell) :
  well_formed df = true ->
  prepare_x df = Ok x ->
  prepare_y df = Ok y ->
  well_formed x = true /\
  index x = sindex y /\
  length (svalues y) = length (sindex y) /\
  index x = index (dropna df) /\
  index x = map fst (filter (fun r => complete (snd r)) (rows df)).
Proof.
  intros Hwf Hx Hy. unfold prepare_x in Hx. inv_bind Hx.
  pose proof (well_formed_dropna df Hwf) as Hwf1.
  pose proof (well_formed_drop_columns _ _ Hwf1 Ha) as Hwf2.
  pose proof (well_formed_get_dummies _ _ Hwf2 Hx) as Hwf3.
  apply get_dummies_Ok in Hx as (Hi3 & _).
  apply drop_columns_Ok in Ha as (Hi2 & _).
  unfold prepare_y, getitem in Hy.
  destruct (lookup_col target (cols (dropna df))) as [vals|] eqn:El;
    [|discriminate].
  injection Hy as <-. cbn [sindex svalues].
  apply lookup_col_In in El.
  assert (Hidx : index x = index (dropna df)) by congruence.
  split; [exact Hwf3|]. split; [exact Hidx|].
  split; [exact (well_formed_cols _ Hwf1 _ El)|]. split; [exact Hidx|].
  rewrite Hidx, <- (rows_dropna df Hwf). unfold rows, rows_of.
  rewrite map_map. cbn [fst].
  symmetry. apply nth_ext with (d := 0%Z) (d' := 0%Z).
  - now rewrite length_map, length_seq.
  - intros n Hn. rewrite length_map, length_seq in Hn.
    rewrite (nth_indep _ 0%Z (nth 0 (index (dropna df)) 0%Z))
      by now rewrite length_map, length_seq.
    rewrite (map_nth (fun i => nth i (index (dropna df)) 0%Z) (seq 0 _) 0 n).
    now rewrite seq_nth.
Qed.

Lemma prepared_frames_aligned_witness :
  well_formed penguins_sample = true /\
  prepare_x penguins_sample = Ok sample_x_encoded /\
  prepare_y penguins_sample = Ok sample_y /\
  index sample_x_encoded = sindex sample_y.
Proof.
  do 3 (split; [reflexivity|]).
  exact (proj1 (proj2 (@prepared_frames_aligned penguins_sample
                         sample_x_encoded sample_y eq_refl eq_refl eq_refl))).
Defined.

(** ** Train/test split: errors, and what happens to the rows *)

Lemma train_test_split_mismatch {A B : Type} (permutation : Z -> nat -> list nat)
    (x : DataFrame A) (y : Series B) (seed : Z) :
  nrows x <> length (sindex y) ->
  train_test_split permutation x y (1 # 5) seed
  = Raise (ValueError "inconsistent numbers of samples").
Proof.
  intros Hne. unfold train_test_split.
  destruct (Nat.eqb_spec (nrows x) (length (sindex y))); [contradiction|].
  reflexivity.
Qed.

Lemma train_test_split_small {A B : Type} (permutation : Z -> nat -> list nat)
    (x : DataFrame A) (y : Series B) (seed : Z) :
  nrows x = length (sindex y) -> nrows x <= 1 ->
  train_test_split permutation x y (1 # 5) seed
  = Raise (ValueError "the resulting train set will be empty").
Proof.
  intros Heq Hle. unfold train_test_split, validate_shuffle_split.
  rewrite <- Heq, Nat.eqb_refl. cbn [negb].
  change (Qle_bool (1 # 5) 0 || Qle_bool 1 (1 # 5)) with false. cbv iota.
  rewrite ceiling_fifth.
  assert (Hn : nrows x = 0 \/ nrows x = 1) by lia.
  destruct Hn as [-> | ->]; reflexivity.
Qed.

Lemma train_test_split_Ok_rows {A B : Type} (permutation : Z -> nat -> list nat)
    (x : DataFrame A) (y : Series B) (seed : Z) r :
  train_test_split permutation x y (1 # 5) seed = Ok r ->
  nrows x = length (sindex y) /\ 2 <= nrows x.
Proof.
  intros Hr.
  destruct (Nat.eq_dec (nrows x) (length (sindex y))) as [Heq|Hne];
    [|rewrite (train_test_split_mismatch permutation x y seed Hne) in Hr;
      discriminate].
  split; [exact Heq|].
  destruct (le_lt_dec (nrows x) 1) as [Hle|Hlt]; [|lia].
  rewrite (train_test_split_small permutation x y seed Heq Hle) in Hr.
  discriminate.
Qed.

(** X5. The split raises [ValueError] when [x] and [y] differ in their
    number of rows, and when there are fewer than two rows (the train set
    would be empty); so a split that returns had at least two rows on both
    inputs. *)
Theorem train_test_split_errors {A B : Type} (permutation : Z -> nat -> list nat)
    (x : DataFrame A) (y : Series B) (seed : Z) :
  (nrows x <> length (sindex y) ->
   train_test_split permutation x y (1 # 5) seed
   = Raise (ValueError "inconsistent numbers of samples")) /\
  (nrows x = length (sindex y) -> nrows x <= 1 ->
   train_test_split permutation x y (1 # 5) seed
   = Raise (ValueError "the resulting train set will be empty")) /\
  (forall r, train_test_split permutation x y (1 # 5) seed = Ok r ->
   nrows x = length (sindex y) /\ 2 <= nrows x).
Proof.
  split; [apply train_test_split_mismatch|].
  split; [apply train_test_split_small|].
  intros r. apply train_test_split_Ok_rows.
Qed.

Lemma iloc_list_map {A : Type} (l : list A) (ind : list nat) r (d : A) :
  iloc_list l ind = Ok r -> r = map (fun i => nth i l d) ind.
Proof.
  unfold iloc_list. revert r; induction ind as [|i ind IH]; intros r H;
    simpl in H.
  - now injection H as <-.
  - inv_bind H. inv_bind H. injection H as <-. simpl.
    destruct (nth_error l i) as [v|] eqn:E; [|discriminate].
    injection Ha as <-. f_equal; [|now apply IH].
    symmetry. now apply nth_error_nth.
Qed.

Lemma map_nth_seq {A : Type} (l : list A) (d : A) :
  map (fun i => nth i l d) (seq 0 (length l)) = l.
Proof.
  apply nth_ext with (d := d) (d' := d).
  - now rewrite length_map, length_seq.
  - intros n Hn. rewrite length_map, length_seq in Hn.
    rewrite (nth_indep _ d (nth 0 l d)) by now rewrite length_map, length_seq.
    rewrite (map_nth (fun i => nth i l d) (seq 0 (length l)) 0 n).
    now rewrite seq_nth.
Qed.

Section SplitRows.
Variable permutation : Z -> nat -> list nat.
Hypothesis permutation_spec :
  forall seed n, Permutation (permutation seed n) (seq 0 n).

Lemma train_test_split_positions {A B : Type}
    (x : DataFrame A) (y : Series B) :
  well_formed x = true ->
  length (svalues y) = length (sindex y) ->
  nrows x = length (sindex y) ->
  2 <= nrows x ->
  exists train test x_train x_test y_train y_test,
    train_test_split permutation x y (1 # 5) 99
      = Ok (x_train, x_test, y_train, y_test) /\
    Permutation (train ++ test) (seq 0 (nrows x)) /\
    iloc_list (index x) train = Ok (index x_train) /\
    iloc_list (index x) test = Ok (index x_test) /\
    iloc_series y train = Ok y_train /\ iloc_series y test = Ok y_test.
Proof.
  intros Hwf Hy Hxy Hn.
  destruct (test_rows_fifth Hn) as [_ Hrange]. cbv zeta in Hrange.
  unfold train_test_split, validate_shuffle_split.
  rewrite <- Hxy, Nat.eqb_refl. cbn [negb].
  change (Qle_bool (1 # 5) 0 || Qle_bool 1 (1 # 5)) with false. cbv iota.
  set (n_test := Z.to_nat (Qceiling ((1 # 5) * inject_Z (Z.of_nat (nrows x))))) in *.
  destruct (Nat.eqb_spec (nrows x - n_test) 0) as [E|_]; [lia|].
  cbn [bind fst snd].
  pose proof (@shuffle_split_partition permutation permutation_spec 99
                (nrows x) n_test ltac:(lia)) as Hsp.
  destruct (shuffle_split permutation 99 (nrows x) (nrows x - n_test) n_test)
    as [train test].
  destruct Hsp as (Hperm & _ & _).
  assert (Hin : forall i, In i (train ++ test) -> i < nrows x).
  { intros i Hi. apply (Permutation_in _ Hperm) in Hi. apply in_seq in Hi. lia. }
  destruct (iloc_total x train Hwf) as (x_train & Ext & _ & Hit);
    [intros; apply Hin, in_or_app; now left|].
  destruct (iloc_total x test Hwf) as (x_test & Exs & _ & His);
    [intros; apply Hin, in_or_app; now right|].
  destruct (iloc_series_total y train Hy) as (y_train & Eyt & _ & _);
    [rewrite <- Hxy; intros; apply Hin, in_or_app; now left|].
  destruct (iloc_series_total y test Hy) as (y_test & Eys & _ & _);
    [rewrite <- Hxy; intros; apply Hin, in_or_app; now right|].
  exists train, test, x_train, x_test, y_train, y_test.
  rewrite Ext, Exs, Eyt, Eys. cbn [bind]. auto 10.
Qed.

Lemma iloc_series_Ok {B : Type} (y r : Series B) ind (dz : Z) (db : B) :
  iloc_series y ind = Ok r ->
  sindex r = map (fun i => nth i (sindex y) dz) ind /\
  svalues r = map (fun i => nth i (svalues y) db) ind.
Proof.
  unfold iloc_series. intros H. inv_bind H. inv_bind H. injection H as <-.
  cbn [sindex svalues]. split; eapply iloc_list_map; eauto.
Qed.

(** X6. The split neither loses nor duplicates a row, and it keeps every
    row label with its own target value: the row labels of [x_train] and
    [x_test] together are a rearrangement of those of [x], and the
    (label, target) pairs of [y_train] and [y_test] together are a
    rearrangement of those of [y].  When the labels of [x] are distinct, no
    label is on both sides. *)
Theorem train_test_split_keeps_rows {A B : Type}
    (x : DataFrame A) (y : Series B) x_train x_test y_train y_test :
  well_formed x = true ->
  length (svalues y) = length (sindex y) ->
  nrows x = length (sindex y) ->
  train_test_split permutation x y (1 # 5) 99
    = Ok (x_train, x_test, y_train, y_test) ->
  Permutation (index x_train ++ index x_test) (index x) /\
  Permutation (combine (sindex y_train) (svalues y_train)
               ++ combine (sindex y_test) (svalues y_test))
              (combine (sindex y) (svalues y)) /\
  (NoDup (index x) ->
   forall l, In l (index x_train) -> ~ In l (index x_test)).
Proof.
  intros Hwf Hy Hxy Hres.
  destruct (train_test_split_Ok_rows _ _ _ _ Hres) as [_ Hn].
  destruct (train_test_split_positions x y Hwf Hy Hxy Hn)
    as (train & test & xt & xs & yt & ys & E & Hperm & Hit & His & Hyt & Hys).
  rewrite Hres in E. injection E as <- <- <- <-.
  assert (Hx : Permutation (index x_train ++ index x_test) (index x)).
  { rewrite (iloc_list_map _ _ 0%Z Hit), (iloc_list_map _ _ 0%Z His).
    rewrite <- map_app.
    etransitivity; [apply Permutation_map; exact Hperm|].
    unfold nrows. now rewrite map_nth_seq. }
  split; [exact Hx|]. split.
  - destruct (svalues y) as [|b0 vs] eqn:Ev.
    + assert (Hnil : sindex y = []).
      { destruct (sindex y); [reflexivity|simpl in Hy; discriminate]. }
      unfold nrows in *. rewrite Hnil in Hxy. simpl in Hxy. lia.
    + rewrite <- Ev in *.
      destruct (@iloc_series_Ok _ _ _ _ 0%Z b0 Hyt) as [E1 E2].
      destruct (@iloc_series_Ok _ _ _ _ 0%Z b0 Hys) as [E3 E4].
      rewrite E1, E2, E3, E4.
      assert (Hc : forall ind,
                combine (map (fun i => nth i (sindex y) 0%Z) ind)
                        (map (fun i => nth i (svalues y) b0) ind)
                = map (fun i => (nth i (sindex y) 0%Z, nth i (svalues y) b0)) ind).
      { induction ind as [|i ind IH]; simpl; [reflexivity|now rewrite IH]. }
      rewrite !Hc, <- map_app.
      assert (Hall : map (fun i => (nth i (sindex y) 0%Z, nth i (svalues y) b0))
                         (seq 0 (nrows x))
                     = combine (sindex y) (svalues y)).
      { rewrite <- Hc, Hxy, map_nth_seq, <- Hy, map_nth_seq. reflexivity. }
      rewrite <- Hall. apply Permutation_map. exact Hperm.
  - intros Hnd l Hl1 Hl2.
    assert (Hnd' : NoDup (index x_train ++ index x_test))
      by (apply (Permutation_NoDup (Permutation_sym Hx)); exact Hnd).
    clear -Hnd' Hl1 Hl2.
    induction (index x_train) as [|a t IH]; [contradiction|].
    simpl in Hnd'. inversion Hnd' as [|? ? Hnotin Hnd'']; subst.
    destruct Hl1 as [->|Hl1].
    + apply Hnotin. apply in_or_app. now right.
    + now apply IH.
Qed.
End SplitRows.

Lemma train_test_split_keeps_rows_witness :
  (forall seed n, Permutation (reversing_permutation seed n) (seq 0 n)) /\
  well_formed sample_x_encoded = true /\
  length (svalues sample_y) = length (sindex sample_y) /\
  nrows sample_x_encoded = length (sindex sample_y) /\
  exists x_train x_test y_train y_test,
    train_test_split reversing_permutation sample_x_encoded sample_y (1 # 5) 99
      = Ok (x_train, x_test, y_train, y_test) /\
    Permutation (index x_train ++ index x_test) (index sample_x_encoded).
Proof.
  assert (Hp : forall seed n, Permutation (reversing_permutation seed n) (seq 0 n)).
  { intros seed n. unfold reversing_permutation. symmetry. apply Permutation_rev. }
  split; [exact Hp|]. do 3 (split; [reflexivity|]).
  destruct (train_test_split reversing_permutation sample_x_encoded sample_y
              (1 # 5) 99) as [[[[xt xs] yt] ys]|e] eqn:E;
    [|vm_compute in E; discriminate].
  exists xt, xs, yt, ys. split; [reflexivity|].
  exact (proj1 (@train_test_split_keeps_rows reversing_permutation Hp _ _
                  sample_x_encoded sample_y xt xs yt ys
                  eq_refl eq_refl eq_refl E)).
Defined.

(** ** Feature scaling: degenerate columns, change of unit *)

Section ScalingMore.
Local Open Scope R_scope.

Lemma x_scaled_column (x : DataFrame float) c col :
  NoDup (map fst (cols x)) -> In (c, col) (cols x) ->
  lookup_col c (cols (x_scaled x)) = Some (standardize col).
Proof.
  intros Hnd Hin.
  set (g := fun (n : string) (v : list float) =>
              map (fun w => fdiv (fsub w (lookup_label n (mean_axis0 x)))
                                 (lookup_label n (std_axis0 x))) v).
  assert (Hcols : cols (x_scaled x)
                  = map (fun p => (fst p, g (fst p) (snd p))) (cols x)).
  { unfold x_scaled, frame_op. cbn [cols]. rewrite map_map.
    apply map_ext. intros [n v]. cbn [fst snd]. unfold g.
    now rewrite map_map. }
  rewrite Hcols, (@lookup_col_map _ _ g (cols x) c col Hnd Hin).
  unfold g, mean_axis0, std_axis0, standardize.
  now rewrite (@lookup_label_reduce mean _ _ _ Hnd Hin),
              (@lookup_label_reduce std _ _ _ Hnd Hin).
Qed.

Lemma Rsum_const (k : R) (l : list R) :
  (forall v, In v l -> v = k) -> Rsum l = INR (length l) * k.
Proof.
  induction l as [|a l IH]; intros H.
  - simpl. lra.
  - cbn [Rsum fold_right length]. fold (Rsum l).
    rewrite S_INR, IH, (H a (or_introl eq_refl)) by (intros; apply H; now right).
    lra.
Qed.

Lemma std_constant (col : list float) (k : R) :
  (forall v, In v (finite col) -> v = k) ->
  std col = None \/ std col = Some 0.
Proof.
  intros Hk. unfold std. cbv zeta.
  destruct (Nat.ltb_spec (length (finite col)) 2) as [|Hn]; [now left|].
  right. f_equal. rewrite <- sqrt_0. f_equal.
  assert (HnR : INR (length (finite col)) <> 0) by (apply not_0_INR; lia).
  assert (Havg : Rsum (finite col) / INR (length (finite col)) = k).
  { rewrite (@Rsum_const k _ Hk). field. exact HnR. }
  rewrite Havg.
  assert (Hz : Rsum (map (fun v => (k - v) * (k - v)) (finite col)) = 0).
  { rewrite (@Rsum_const 0).
    - lra.
    - intros v Hv. apply in_map_iff in Hv as (w & <- & Hw).
      rewrite (Hk w Hw). lra. }
  rewrite Hz. unfold Rdiv. apply Rmult_0_l.
Qed.

(** X7. A column whose values are all equal (or that has fewer than two
    values) has no usable standard deviation: line 107 turns every entry of
    such a column into NaN. *)
Theorem standardization_of_constant_column
    (x : DataFrame float) (c : string) (col : list float) (k : R) :
  NoDup (map fst (cols x)) ->
  In (c, col) (cols x) ->
  (forall v, In v (finite col) -> v = k) ->
  exists col',
    lookup_col c (cols (x_scaled x)) = Some col' /\
    length col' = length col /\
    (forall v, In v col' -> v = None).
Proof.
  intros Hnd Hin Hk. exists (standardize col).
  split; [now apply x_scaled_column|]. split; [apply length_map|].
  intros v Hv. unfold standardize in Hv.
  apply in_map_iff in Hv as (w & <- & _).
  destruct (std_constant col Hk) as [-> | ->].
  - now destruct (fsub w (mean col)).
  - destruct (fsub w (mean col)) as [r|]; [|reflexivity].
    simpl. destruct (Req_dec_T 0 0) as [_|Hne]; [reflexivity|].
    now contradiction Hne.
Qed.

Lemma finite_affine a b col :
  finite (map (affine a b) col) = map (fun r => a * r + b) (finite col).
Proof. apply finite_map; reflexivity. Qed.

Lemma Rsum_affine a b (l : list R) :
  Rsum (map (fun r => a * r + b) l) = a * Rsum l + INR (length l) * b.
Proof.
  induction l as [|v l IH].
  - simpl. lra.
  - cbn [map Rsum fold_right length].
    fold (Rsum (map (fun r => a * r + b) l)). fold (Rsum l).
    rewrite IH, S_INR. lra.
Qed.

Lemma mean_affine a b col :
  mean (map (affine a b) col) = affine a b (mean col).
Proof.
  unfold mean. rewrite finite_affine.
  destruct (finite col) as [|v l] eqn:E; [reflexivity|].
  set (xs := v :: l).
  change (Some (Rsum (map (fun r => a * r + b) xs)
                / INR (length (map (fun r => a * r + b) xs)))
          = Some (a * (Rsum xs / INR (length xs)) + b)).
  f_equal. rewrite Rsum_affine, length_map.
  assert (H : INR (length xs) <> 0) by (apply not_0_INR; simpl; lia).
  field. exact H.
Qed.

Lemma std_affine a b col :
  0 < a ->
  std (map (affine a b) col) = option_map (fun s => a * s) (std col).
Proof.
  intros Ha. unfold std. cbv zeta. rewrite finite_affine, length_map.
  destruct (Nat.ltb_spec (length (finite col)) 2) as [|Hn]; [reflexivity|].
  simpl option_map. f_equal.
  set (xs := finite col) in *. set (n := length xs) in *.
  assert (HnR : INR n <> 0) by (apply not_0_INR; lia).
  assert (Hn1 : 0 < INR (n - 1)) by (apply lt_0_INR; lia).
  rewrite Rsum_affine. fold n. rewrite map_map.
  set (m := Rsum xs / INR n).
  rewrite (Rsum_ext _ (fun v => (a * a * ((m - v) * (m - v))) / 1)).
  2:{ intros v. unfold m. field. exact HnR. }
  rewrite (Rsum_scale (fun v => a * a * ((m - v) * (m - v)))).
  assert (Hmul : forall l, Rsum (map (fun v => a * a * ((m - v) * (m - v))) l)
                           = a * a * Rsum (map (fun v => (m - v) * (m - v)) l)).
  { induction l as [|v l IH]; simpl; [lra|].
    fold (Rsum (map (fun v => a * a * ((m - v) * (m - v))) l)).
    fold (Rsum (map (fun v => (m - v) * (m - v)) l)). rewrite IH. lra. }
  rewrite Hmul.
  set (S2 := Rsum (map (fun v => (m - v) * (m - v)) xs)).
  replace (a * a * S2 / 1 / INR (n - 1)) with ((a * a) * (S2 / INR (n - 1)))
    by (field; lra).
  rewrite sqrt_mult_alt by nra.
  rewrite sqrt_square by lra. reflexivity.
Qed.

Lemma standardize_affine a b col :
  0 < a -> standardize (map (affine a b) col) = standardize col.
Proof.
  intros Ha. unfold standardize.
  rewrite map_map, mean_affine, (std_affine b col Ha).
  apply map_ext. intros w.
  destruct w as [w|]; [|reflexivity].
  destruct (mean col) as [m|]; [|reflexivity].
  destruct (std col) as [s|]; [|reflexivity].
  simpl. destruct (Req_dec_T s 0) as [->|Hs].
  - destruct (Req_dec_T (a * 0) 0) as [_|Hne]; [reflexivity|].
    exfalso. apply Hne. lra.
  - destruct (Req_dec_T (a * s) 0) as [Hz|_].
    + exfalso. apply Rmult_integral in Hz. destruct Hz; [lra|contradiction].
    + f_equal. field. split; [exact Hs|lra].
Qed.

(** X8. Standardization does not depend on the unit of a feature: if a
    column of one frame is a positive rescaling and shift [a * v + b] of a
    column of another, the two standardized columns are equal. *)
Theorem standardization_unit_invariant
    (x1 x2 : DataFrame float) (c : string) (col : list float) (a b : R) :
  0 < a ->
  NoDup (map fst (cols x1)) -> NoDup (map fst (cols x2)) ->
  In (c, col) (cols x1) ->
  In (c, map (affine a b) col) (cols x2) ->
  lookup_col c (cols (x_scaled x2)) = lookup_col c (cols (x_scaled x1)).
Proof.
  intros Ha Hnd1 Hnd2 Hin1 Hin2.
  rewrite (@x_scaled_column x1 _ _ Hnd1 Hin1), (@x_scaled_column x2 _ _ Hnd2 Hin2).
  f_equal. now apply standardize_affine.
Qed.
End ScalingMore.

Lemma standardization_of_constant_column_witness :
  NoDup (map fst (cols constant_column_sample)) /\
  In ("island_TORGERSEN", [Some 1%R; Some 1%R; Some 1%R])
     (cols constant_column_sample) /\
  (forall v, In v (finite [Some 1%R; Some 1%R; Some 1%R]) -> v = 1%R) /\
  exists col',
    lookup_col "island_TORGERSEN" (cols (x_scaled constant_column_sample))
      = Some col' /\
    length col' = 3 /\
    (forall v, In v col' -> v = None).
Proof.
  assert (Hnd : NoDup (map fst (cols constant_column_sample))).
  { simpl. repeat constructor; simpl; intuition discriminate. }
  assert (Hin : In ("island_TORGERSEN", [Some 1%R; Some 1%R; Some 1%R])
                  (cols constant_column_sample)) by (simpl; auto).
  assert (Hk : forall v, In v (finite [Some 1%R; Some 1%R; Some 1%R]) -> v = 1%R).
  { simpl. intros v [H|[H|[H|[]]]]; now symmetry. }
  repeat (split; [assumption|]).
  exact (@standardization_of_constant_column constant_column_sample _ _ _
           Hnd Hin Hk).
Defined.

Lemma standardization_unit_invariant_witness :
  (0 < / 1000)%R /\
  NoDup (map fst (cols scaling_sample)) /\
  NoDup (map fst (cols kilogram_sample)) /\
  In ("body_mass_g", [Some 3750%R; Some 3800%R; Some 3250%R])
     (cols scaling_sample) /\
  In ("body_mass_g",
      map (affine (/ 1000) 0) [Some 3750%R; Some 3800%R; Some 3250%R])
     (cols kilogram_sample) /\
  lookup_col "body_mass_g" (cols (x_scaled kilogram_sample))
  = lookup_col "body_mass_g" (cols (x_scaled scaling_sample)).
Proof.
  assert (Ha : (0 < / 1000)%R) by (apply Rinv_0_lt_compat; lra).
  assert (Hnd1 : NoDup (map fst (cols scaling_sample))).
  { simpl. repeat constructor; simpl; intuition discriminate. }
  assert (Hnd2 : NoDup (map fst (cols kilogram_sample))).
  { simpl. repeat constructor; simpl; intuition discriminate. }
  assert (Hin1 : In ("body_mass_g", [Some 3750%R; Some 3800%R; Some 3250%R])
                   (cols scaling_sample)) by (simpl; auto).
  assert (Hin2 : In ("body_mass_g",
                     map (affine (/ 1000) 0)
                         [Some 3750%R; Some 3800%R; Some 3250%R])
                   (cols kilogram_sample)) by (simpl; auto).
  repeat (split; [assumption|]).
  exact (@standardization_unit_invariant scaling_sample kilogram_sample _ _ _ _
           Ha Hnd1 Hnd2 Hin1 Hin2).
Defined.

(** ** Tokens of the default analyzer *)

Lemma string_forall_app p s1 s2 :
  string_forall p (s1 ++ s2)%string
  = string_forall p s1 && string_forall p s2.
Proof.
  induction s1 as [|a s1 IH]; simpl; [reflexivity|].
  now rewrite IH, andb_assoc.
Qed.

Lemma flush_spec p run t :
  string_forall p run = true -> In t (flush run) ->
  2 <= String.length t /\ string_forall p t = true.
Proof.
  unfold flush. intros Hp Ht.
  destruct (Nat.leb_spec 2 (String.length run)) as [Hlen|_]; [|contradiction].
  destruct Ht as [<-|[]]. auto.
Qed.

Lemma tokenize_from_spec p s : forall run t,
  string_forall p run = true ->
  string_forall (fun a => implb (is_word_char a) (p a)) s = true ->
  In t (tokenize_from run s) ->
  2 <= String.length t /\ string_forall p t = true.
Proof.
  induction s as [|a s IH]; intros run t Hrun Hs Ht; simpl in Ht.
  - now apply (flush_spec p run).
  - simpl in Hs. apply andb_true_iff in Hs as [Ha Hs].
    destruct (is_word_char a) eqn:Ew.
    + apply (IH (run ++ String a EmptyString)%string); auto.
      rewrite string_forall_app, Hrun. simpl in *. now rewrite Ha.
    + apply in_app_or in Ht as [Ht|Ht].
      * now apply (flush_spec p run).
      * now apply (IH EmptyString).
Qed.

Lemma lower_char_idempotent a : lower_char (lower_char a) = lower_char a.
Proof.
  destruct a as [[] [] [] [] [] [] [] []]; reflexivity.
Qed.

Lemma lower_is_lower s : string_forall is_lower_char (lower s) = true.
Proof.
  induction s as [|a s IH]; simpl; [reflexivity|].
  unfold is_lower_char at 1. rewrite lower_char_idempotent, Ascii.eqb_refl.
  exact IH.
Qed.

Lemma is_lower_fixed s : string_forall is_lower_char s = true -> lower s = s.
Proof.
  induction s as [|a s IH]; simpl; [reflexivity|].
  intros H. apply andb_true_iff in H as [Ha Hs].
  apply Ascii.eqb_eq in Ha. now rewrite Ha, IH.
Qed.

Lemma string_forall_weaken (p q : ascii -> bool) s :
  (forall a, p a = true -> q a = true) ->
  string_forall p s = true -> string_forall q s = true.
Proof.
  intros Hpq. induction s as [|a s IH]; simpl; [reflexivity|].
  intros H. apply andb_true_iff in H as [Ha Hs].
  now rewrite (Hpq a Ha), IH.
Qed.

(** X9. With the default token pattern and lower-casing (no custom
    tokenizer), every token, and so every fitted feature name, has at
    least two characters, consists of word characters only and is in lower
    case; one-letter words never become features. *)
Theorem default_tokens_shape (ENGLISH_STOP_WORDS : list string)
    (v : Vectorizer) (docs feats : list string) :
  tokenizer v = None ->
  lowercase v = true ->
  get_feature_names_out ENGLISH_STOP_WORDS v docs = Ok feats ->
  forall t, In t feats ->
    2 <= String.length t /\
    string_forall is_word_char t = true /\
    lower t = t.
Proof.
  intros Htok Hlow Hfit t Ht.
  apply (proj1 (get_feature_names_out_spec _ _ _ Hfit t)) in Ht
    as (doc & _ & Ht).
  unfold analyze in Ht. rewrite Htok, Hlow in Ht.
  assert (Htk : In t (tokenize (lower doc))).
  { destruct (get_stop_words ENGLISH_STOP_WORDS v); [|exact Ht].
    rewrite list_comp_map_filter, map_id in Ht. now apply filter_In in Ht. }
  unfold tokenize in Htk.
  destruct (tokenize_from_spec (fun a => is_word_char a && is_lower_char a)
              (lower doc) EmptyString t eq_refl) as [Hlen Hp]; auto.
  - apply (string_forall_weaken is_lower_char); [|apply lower_is_lower].
    intros a Ha. rewrite Ha. now destruct (is_word_char a).
  - split; [exact Hlen|]. split.
    + revert Hp. apply string_forall_weaken.
      intros a Ha. now apply andb_true_iff in Ha.
    + apply is_lower_fixed. revert Hp. apply string_forall_weaken.
      intros a Ha. now apply andb_true_iff in Ha.
Qed.

Lemma default_tokens_shape_witness :
  tokenizer default_vectorizer = None /\
  lowercase default_vectorizer = true /\
  get_feature_names_out [] default_vectorizer ["I saw A fox"; "a Fox saw me"]
    = Ok ["fox"; "me"; "saw"] /\
  (forall t, In t ["fox"; "me"; "saw"] -> 2 <= String.length t).
Proof.
  do 3 (split; [reflexivity|]).
  intros t Ht.
  exact (proj1 (@default_tokens_shape [] default_vectorizer
                  ["I saw A fox"; "a Fox saw me"] ["fox"; "me"; "saw"]
                  eq_refl eq_refl eq_refl t Ht)).
Defined.

(** ** The fitted vocabulary and matrix *)

Lemma count_feature_NoDup st feature :
  NoDup (fst st) -> NoDup (fst (count_feature st feature)).
Proof.
  destruct st as [vocab fc]. unfold count_feature. simpl. intros Hnd.
  destruct (index_of feature vocab) eqn:E; simpl; [exact Hnd|].
  apply index_of_None in E.
  apply NoDup_app; [exact Hnd|repeat constructor; intros []|].
  intros x Hx [<-|[]]. contradiction.
Qed.

Lemma count_tokens_NoDup ts : forall st,
  NoDup (fst st) -> NoDup (fst (fold_left count_feature ts st)).
Proof.
  induction ts as [|f ts IH]; intros st Hnd; simpl; [exact Hnd|].
  apply IH. now apply count_feature_NoDup.
Qed.

Lemma count_docs_NoDup sw v docs : forall st,
  NoDup (fst st) -> NoDup (fst (fold_left (count_doc sw v) docs st)).
Proof.
  induction docs as [|d docs IH]; intros st Hnd; simpl; [exact Hnd|].
  apply IH. destruct st as [vocab rows]. unfold count_doc.
  pose proof (count_tokens_NoDup (analyze sw v d) (vocab, []) Hnd) as H.
  destruct (fold_left count_feature (analyze sw v d) (vocab, [])). exact H.
Qed.

Lemma map_related {A B C : Type} (f : B -> C) (g : A -> C) (l1 : list A) :
  forall (l2 : list B),
  length l2 = length l1 ->
  (forall i a b, nth_error l1 i = Some a -> nth_error l2 i = Some b ->
                 f b = g a) ->
  map f l2 = map g l1.
Proof.
  induction l1 as [|a l1 IH]; intros [|b l2] Hlen H; simpl in *;
    try discriminate; [reflexivity|].
  f_equal.
  - exact (H 0 a b eq_refl eq_refl).
  - apply IH; [lia|]. intros i a' b' Ha Hb. exact (H (S i) a' b' Ha Hb).
Qed.

Lemma sum_count_occ_cons (a : string) (ts L : list string) :
  NoDup L -> In a L ->
  list_sum (map (count_occ string_dec (a :: ts)) L)
  = S (list_sum (map (count_occ string_dec ts) L)).
Proof.
  induction 1 as [|x L Hx Hnd IHL]; intros Ha; [contradiction|].
  cbn [map list_sum]. destruct (string_dec a x) as [Heq|Hne].
  - subst x. rewrite count_occ_cons_eq by reflexivity.
    assert (Hrest : map (count_occ string_dec (a :: ts)) L
                    = map (count_occ string_dec ts) L).
    { apply map_ext_in. intros y Hy. apply count_occ_cons_neq.
      intros ->. contradiction. }
    rewrite Hrest. simpl. lia.
  - rewrite count_occ_cons_neq by exact Hne.
    destruct Ha as [->|Ha]; [contradiction|].
    specialize (IHL Ha). simpl in *. lia.
Qed.

Lemma sum_count_occ (ts L : list string) :
  NoDup L -> (forall t, In t ts -> In t L) ->
  list_sum (map (count_occ string_dec ts) L) = length ts.
Proof.
  intros Hnd. induction ts as [|a ts IH]; intros Hin.
  - clear. induction L; simpl; auto.
  - rewrite sum_count_occ_cons; [|exact Hnd|apply Hin; now left].
    simpl. f_equal. apply IH. intros; apply Hin; now right.
Qed.

Section FittedFacts.
Variable ENGLISH_STOP_WORDS : list string.
Variable v : Vectorizer.

Lemma fit_transform_spec docs F :
  fit_transform ENGLISH_STOP_WORDS v docs = Ok F ->
  feature_names F <> [] /\
  NoDup (feature_names F) /\
  ascending (feature_names F) = true /\
  matrix F = map (fun doc => map (count_occ string_dec
                                    (analyze ENGLISH_STOP_WORDS v doc))
                                 (feature_names F)) docs.
Proof.
  unfold fit_transform, count_vocab. intros H.
  pose proof (count_docs_NoDup ENGLISH_STOP_WORDS v docs ([], []) (NoDup_nil _))
    as Hnd.
  destruct (fold_left (count_doc ENGLISH_STOP_WORDS v) docs ([], []))
    as [vocab rows] eqn:E.
  cbn [fst] in Hnd.
  apply count_docs in E as (_ & _ & _ & newrows & Hrows & Hlen & Hcount).
  simpl in Hrows. subst newrows.
  destruct vocab as [|t0 vocab0] eqn:Ev; [discriminate|].
  rewrite <- Ev in *. simpl in H.
  assert (HF : F = {| feature_names := sorted vocab;
                      matrix := map (fun fc =>
                        map (fun t => match index_of t vocab with
                                      | Some k => counter_get k fc
                                      | None => 0
                                      end) (sorted vocab)) rows |}).
  { rewrite Ev in H |- *. now injection H as <-. }
  subst F. cbn [feature_names matrix].
  assert (Hs : forall t, In t (sorted vocab) -> In t vocab).
  { intros t. apply Permutation_in, sorted_perm. }
  split.
  { intros Hnil. assert (Hin : In t0 (sorted vocab)).
    { apply (Permutation_in _ (Permutation_sym (sorted_perm vocab))).
      rewrite Ev. now left. }
    rewrite Hnil in Hin. contradiction. }
  split; [apply (Permutation_NoDup (Permutation_sym (sorted_perm vocab))), Hnd|].
  split; [apply sorted_ascending|].
  apply map_related; [exact Hlen|].
  intros i doc fc Hdoc Hfc. apply map_ext_in. intros t Ht.
  destruct (index_of_In _ _ (Hs t Ht)) as (k & Hk). rewrite Hk.
  exact (Hcount i doc fc Hdoc Hfc t k Hk).
Qed.

(** X10. After fitting, the feature names are in ascending order without
    repetition, row i of the matrix lists the occurrence counts of the
    features in document i, and each row sums to the number of tokens of
    its document. *)
Theorem fitted_matrix_rows (docs : list string) (F : Fitted) :
  fit_transform ENGLISH_STOP_WORDS v docs = Ok F ->
  NoDup (feature_names F) /\
  ascending (feature_names F) = true /\
  matrix F = map (fun doc => map (count_occ string_dec
                                    (analyze ENGLISH_STOP_WORDS v doc))
                                 (feature_names F)) docs /\
  map (@list_sum) (matrix F)
  = map (fun doc => length (analyze ENGLISH_STOP_WORDS v doc)) docs.
Proof.
  intros H. destruct (fit_transform_spec _ H) as (_ & Hnd & Hasc & Hm).
  split; [exact Hnd|]. split; [exact Hasc|]. split; [exact Hm|].
  rewrite Hm, map_map. apply map_ext_in. intros doc Hdoc.
  apply sum_count_occ; [exact Hnd|].
  intros t Ht. apply fit_transform_counts in H as (_ & Hf & _).
  apply Hf. eauto.
Qed.

(** X11. Fitting raises exactly when no document yields a token (for
    instance when the documents hold stop words only), and then with the
    "empty vocabulary" [ValueError]; it raises nothing else. *)
Theorem fit_transform_empty_vocabulary (docs : list string) :
  ((forall doc, In doc docs -> analyze ENGLISH_STOP_WORDS v doc = []) <->
   fit_transform ENGLISH_STOP_WORDS v docs
   = Raise (ValueError
       "empty vocabulary; perhaps the documents only contain stop words")) /\
  (forall e, fit_transform ENGLISH_STOP_WORDS v docs = Raise e ->
     e = ValueError
       "empty vocabulary; perhaps the documents only contain stop words").
Proof.
  assert (Hraise : forall e, fit_transform ENGLISH_STOP_WORDS v docs = Raise e ->
     e = ValueError
       "empty vocabulary; perhaps the documents only contain stop words").
  { unfold fit_transform, count_vocab. intros e H.
    destruct (fold_left (count_doc ENGLISH_STOP_WORDS v) docs ([], []))
      as [vocab rows].
    destruct vocab; simpl in H; [now injection H as <-|discriminate]. }
  split; [|exact Hraise]. split.
  - intros Hempty.
    destruct (fit_transform ENGLISH_STOP_WORDS v docs) as [F|e] eqn:E.
    + exfalso. destruct (fit_transform_spec _ E) as (Hne & _).
      apply fit_transform_counts in E as (_ & Hf & _).
      destruct (feature_names F) as [|t l]; [now apply Hne|].
      destruct (proj1 (Hf t) (or_introl eq_refl)) as (doc & Hd & Ht).
      rewrite (Hempty doc Hd) in Ht. contradiction.
    + f_equal. now apply Hraise.
  - intros Hr doc Hd.
    destruct (analyze ENGLISH_STOP_WORDS v doc) as [|t l] eqn:Ea; [reflexivity|].
    destruct (@fit_transform_total ENGLISH_STOP_WORDS v docs doc t Hd) as (F & HF).
    + rewrite Ea. now left.
    + rewrite HF in Hr. discriminate.
Qed.
End FittedFacts.

Lemma fitted_matrix_rows_witness :
  exists F,
    fit_transform [] default_vectorizer corpus = Ok F /\
    map (@list_sum) (matrix F) = [5; 5; 5; 5].
Proof.
  destruct (fit_transform [] default_vectorizer corpus) as [F|e] eqn:E;
    [|vm_compute in E; discriminate].
  exists F. split; [reflexivity|].
  destruct (@fitted_matrix_rows [] default_vectorizer corpus F E)
    as (_ & _ & _ & Hsum).
  rewrite Hsum. reflexivity.
Defined.

(** ** Custom tokenizers as vectorizer tokenizers *)

Lemma lemmatizer_nostop_incl nlp text :
  incl (lemmatizer_nostop nlp text) (lemmatizer nlp text).
Proof.
  unfold lemmatizer, lemmatizer_nostop. rewrite !list_comp_map_filter.
  rewrite filter_true. intros t Ht.
  apply in_map_iff in Ht as (tok & <- & Htok).
  apply in_map. now apply filter_In in Htok.
Qed.

(** X12. Every feature learnt with [tokenizer=lemmatizer_nostop] is also a
    feature learnt with [tokenizer=lemmatizer] on the same documents, and
    whenever the former fit succeeds so does the latter. *)
Theorem lemma_nostop_features_included
    (ENGLISH_STOP_WORDS : list string) (nlp : string -> list Token)
    (docs feats_nostop : list string) :
  get_feature_names_out ENGLISH_STOP_WORDS (lemma_nostop_vectorizer nlp) docs
    = Ok feats_nostop ->
  exists feats,
    get_feature_names_out ENGLISH_STOP_WORDS (lemma_vectorizer nlp) docs
      = Ok feats /\
    incl feats_nostop feats.
Proof.
  intros H.
  assert (Htok : forall doc t,
            In t (analyze ENGLISH_STOP_WORDS (lemma_nostop_vectorizer nlp) doc) ->
            In t (analyze ENGLISH_STOP_WORDS (lemma_vectorizer nlp) doc)).
  { intros doc t. unfold analyze. simpl. apply lemmatizer_nostop_incl. }
  pose proof (get_feature_names_out_spec _ _ _ H) as Hspec.
  unfold get_feature_names_out in H. inv_bind H. injection H as <-.
  destruct (@fit_transform_spec _ _ _ _ Ha) as (Hne & _).
  destruct (feature_names a) as [|t0 l] eqn:Ef; [now contradiction Hne|].
  destruct (proj1 (Hspec t0) (or_introl eq_refl)) as (doc0 & Hd0 & Ht0).
  destruct (@fit_transform_total ENGLISH_STOP_WORDS (lemma_vectorizer nlp)
              docs doc0 t0 Hd0 (Htok _ _ Ht0)) as (F & HF).
  exists (feature_names F).
  assert (E : get_feature_names_out ENGLISH_STOP_WORDS (lemma_vectorizer nlp) docs
              = Ok (feature_names F))
    by (unfold get_feature_names_out; now rewrite HF).
  split; [exact E|]. intros t Ht.
  apply (get_feature_names_out_spec _ _ _ E).
  destruct (proj1 (Hspec t) Ht) as (doc & Hd & Hdt). eauto.
Qed.

Lemma lemma_nostop_features_included_witness :
  get_feature_names_out [] (lemma_nostop_vectorizer toy_nlp) corpus
    = Ok ["ate"; "brown"; "dog"; "fox"; "lazy"; "quick"; "ran"; "red";
          "slept"; "slow"; "walked"; "yellow"] /\
  exists feats,
    get_feature_names_out [] (lemma_vectorizer toy_nlp) corpus = Ok feats /\
    incl ["ate"; "brown"; "dog"; "fox"; "lazy"; "quick"; "ran"; "red";
          "slept"; "slow"; "walked"; "yellow"] feats.
Proof.
  split; [reflexivity|].
  exact (@lemma_nostop_features_included [] toy_nlp corpus _ eq_refl).
Defined.

(** ** Pruning by document frequency *)

Lemma count_occ_pos_mem (ts : list string) (t : string) :
  Nat.ltb 0 (count_occ string_dec ts t) = mem t ts.
Proof.
  destruct (mem t ts) eqn:E.
  - apply mem_In in E. apply Nat.ltb_lt. now apply count_occ_In.
  - apply Nat.ltb_ge.
    assert (Hn : ~ In t ts) by (intros H; apply mem_In in H; congruence).
    apply (count_occ_not_In string_dec) in Hn. lia.
Qed.

Lemma filter_map_length {A B : Type} (p : B -> bool) (g : A -> B) (l : list A) :
  length (filter p (map g l)) = length (filter (fun a => p (g a)) l).
Proof.
  induction l as [|a l IH]; simpl; [reflexivity|].
  destruct (p (g a)); simpl; now rewrite IH.
Qed.

Section PruningFacts.
Variable ENGLISH_STOP_WORDS : list string.
Variable float_mul : Q -> nat -> Q.
Variable v : Vectorizer.

Lemma document_frequency_occurs docs names j t :
  nth_error names j = Some t ->
  document_frequency
    (map (fun doc => map (count_occ string_dec (analyze ENGLISH_STOP_WORDS v doc))
                         names) docs) j
  = occurs_in ENGLISH_STOP_WORDS v docs t.
Proof.
  intros Hj. unfold document_frequency, occurs_in.
  rewrite filter_map_length. f_equal. apply filter_ext. intros doc.
  rewrite <- count_occ_pos_mem. f_equal.
  apply nth_error_nth.
  now rewrite nth_error_map, Hj.
Qed.

(** X13. For fractions [min_df] and [max_df] between 0 and 1, the feature
    names after fitting with these bounds are, in their order, exactly the
    feature names of the fit without bounds that occur in at least
    [min_df * n_doc] and at most [max_df * n_doc] documents, the two
    products being the ones the code computes; there is at least one. *)
Theorem pruned_feature_names (min_df max_df : Q) (docs : list string)
    (feats : list string) :
  (0 <= min_df <= 1)%Q -> (0 <= max_df <= 1)%Q ->
  get_feature_names_out_df ENGLISH_STOP_WORDS float_mul min_df max_df v docs
  = Ok feats ->
  exists names,
    get_feature_names_out ENGLISH_STOP_WORDS v docs = Ok names /\
    Subseq feats names /\
    feats <> [] /\
    (forall t, In t feats <->
       In t names /\
       (float_mul min_df (length docs)
          <= inject_Z (Z.of_nat (occurs_in ENGLISH_STOP_WORDS v docs t)))%Q /\
       (inject_Z (Z.of_nat (occurs_in ENGLISH_STOP_WORDS v docs t))
          <= float_mul max_df (length docs))%Q).
Proof.
  intros _ _. unfold get_feature_names_out_df, get_feature_names_out.
  intros H. apply bind_Ok in H as (F & HF & H).
  exists (feature_names F). rewrite HF. split; [reflexivity|].
  destruct (@fit_transform_spec _ _ _ _ HF) as (_ & _ & _ & Hm).
  cbv zeta in H.
  set (low := float_mul min_df (length docs)) in *.
  set (high := float_mul max_df (length docs)) in *.
  destruct (negb (Qle_bool low high)); [discriminate|].
  unfold limit_features in H. cbv zeta in H.
  set (P := fun t => within low high (occurs_in ENGLISH_STOP_WORDS v docs t)).
  assert (Hmask : map (fun j => within low high (document_frequency (matrix F) j))
                      (seq 0 (length (feature_names F)))
                  = map P (feature_names F)).
  { rewrite <- (map_nth_seq (feature_names F) EmptyString) at 2.
    rewrite map_map. apply map_ext_in. intros j Hj. apply in_seq in Hj.
    unfold P. f_equal. rewrite Hm. apply document_frequency_occurs.
    apply nth_error_nth'. lia. }
  rewrite Hmask in H.
  destruct (existsb (fun b => b) (map P (feature_names F))) eqn:Ex;
    [|discriminate].
  injection H as <-. rewrite select_id_filter.
  split; [apply filter_Subseq|]. split.
  - apply existsb_exists in Ex as (b & Hb & ->).
    apply in_map_iff in Hb as (t & Ht & Hin).
    intros Hnil.
    assert (Hf : In t (filter P (feature_names F))) by now apply filter_In.
    rewrite Hnil in Hf. contradiction.
  - intros t. rewrite filter_In. unfold P, within.
    rewrite andb_true_iff, !Qle_bool_iff. tauto.
Qed.
End PruningFacts.

Lemma pruned_feature_names_witness :
  (0 <= 1 # 2 <= 1)%Q /\ (0 <= 9 # 10 <= 1)%Q /\
  get_feature_names_out_df [] exact_product (1 # 2) (9 # 10)
    default_vectorizer corpus
  = Ok ["brown"; "dog"; "fox"; "quick"] /\
  exists names,
    get_feature_names_out [] default_vectorizer corpus = Ok names /\
    Subseq ["brown"; "dog"; "fox"; "quick"] names /\
    (In "the" names /\ ~ In "the" ["brown"; "dog"; "fox"; "quick"]).
Proof.
  assert (Hmin : (0 <= 1 # 2 <= 1)%Q) by (split; discriminate).
  assert (Hmax : (0 <= 9 # 10 <= 1)%Q) by (split; discriminate).
  split; [exact Hmin|]. split; [exact Hmax|]. split; [reflexivity|].
  destruct (@pruned_feature_names [] exact_product default_vectorizer
              (1 # 2) (9 # 10) corpus ["brown"; "dog"; "fox"; "quick"]
              Hmin Hmax eq_refl)
    as (names & Hn & Hsub & _ & _).
  exists names. split; [exact Hn|]. split; [exact Hsub|].
  vm_compute in Hn. injection Hn as <-. split.
  - simpl. tauto.
  - simpl. intuition discriminate.
Defined.

(** ** The confusion-matrix plot: when it is shown, and what it shows *)

Lemma sorted_unique_nil l : sorted (unique l) = [] <-> l = [].
Proof.
  split; [|now intros ->].
  destruct l as [|a l]; [reflexivity|]. intros H.
  assert (Hin : In a (sorted (unique (a :: l))))
    by (apply sorted_unique_In; now left).
  rewrite H in Hin. contradiction.
Qed.

Lemma confusion_matrix_unlabelled y_true y_pred :
  (exists cm, confusion_matrix y_true y_pred None = Ok cm) <->
  length y_true = length y_pred.
Proof.
  unfold confusion_matrix.
  destruct (Nat.eqb_spec (length y_true) (length y_pred)) as [E|E]; simpl.
  - split; [auto|]. intros _. eauto.
  - split; [intros (cm & H); discriminate|contradiction].
Qed.

Lemma confusion_matrix_classes y_test y_pred :
  (exists cm, confusion_matrix y_test y_pred (Some (sorted (unique y_test)))
              = Ok cm) <->
  length y_test = length y_pred /\ y_test <> [].
Proof.
  unfold confusion_matrix.
  destruct (Nat.eqb_spec (length y_test) (length y_pred)) as [E|E];
    cbn [negb].
  - destruct (sorted (unique y_test)) as [|c cs] eqn:Ec.
    + apply (proj1 (sorted_unique_nil y_test)) in Ec. cbn [bind].
      split; [intros (cm & H); discriminate|intros [_ H]; destruct (H Ec)].
    + assert (Hne : y_test <> []).
      { intros Hnil. apply (proj2 (sorted_unique_nil y_test)) in Hnil. congruence. }
      destruct y_test as [|a l] eqn:Ey; [contradiction|].
      assert (Hex : existsb (fun y => mem y (c :: cs)) (a :: l) = true).
      { apply existsb_exists. exists a. split; [now left|].
        apply mem_In. rewrite <- Ec. apply sorted_unique_In. now left. }
      rewrite Hex. cbn [bind].
      split; [intros _; split; [exact E|exact Hne]|intros _; eauto].
  - split; [intros (cm & H); discriminate|intros [H _]; contradiction].
Qed.

(** X14. [plot_confusion_matrix] reaches [fig.show()] exactly when
    [y_true], [y_pred] and the enclosing-scope [y_test] have the same
    length and [y_test] is not empty; otherwise one of its two
    [confusion_matrix] calls raises. *)
Theorem plot_confusion_matrix_shown
    (y_test y_true y_pred : list string) (height : Z) (showscale : bool)
    (title subtitle : option string) :
  (exists fig,
     plot_confusion_matrix y_test y_true y_pred height showscale title subtitle
     = Ok fig) <->
  length y_true = length y_pred /\ length y_test = length y_pred /\
  y_test <> [].
Proof.
  unfold plot_confusion_matrix. split.
  - intros (fig & H). apply bind_Ok in H as (cm1 & H1 & H).
    apply bind_Ok in H as (cm2 & H2 & _).
    split; [apply confusion_matrix_unlabelled; eauto|].
    apply confusion_matrix_classes. eauto.
  - intros (H1 & H2 & H3).
    destruct (proj2 (confusion_matrix_unlabelled y_true y_pred) H1) as (cm1 & ->).
    destruct (proj2 (confusion_matrix_classes y_test y_pred) (conj H2 H3))
      as (cm2 & ->).
    simpl. eauto.
Qed.

Lemma label_to_ind_from_Some k labels y i :
  label_to_ind_from k labels y = Some i ->
  exists j, i = k + j /\ nth_error labels j = Some y.
Proof.
  revert k; induction labels as [|h t IH]; intros k H; simpl in H;
    [discriminate|].
  destruct (label_to_ind_from (S k) t y) as [m|] eqn:E.
  - injection H as <-. destruct (IH _ E) as (j & -> & Hj).
    exists (S j). split; [lia|exact Hj].
  - destruct (String.eqb h y) eqn:Eh; [|discriminate].
    injection H as <-. apply String.eqb_eq in Eh. subst.
    exists 0. split; [lia|reflexivity].
Qed.

Lemma label_to_ind_from_nth k labels y j :
  NoDup labels -> nth_error labels j = Some y ->
  label_to_ind_from k labels y = Some (k + j).
Proof.
  revert k j; induction labels as [|h t IH]; intros k j Hnd Hj;
    [destruct j; discriminate|].
  inversion Hnd as [|? ? Hnotin Hnd']; subst. simpl.
  destruct j as [|j]; simpl in Hj.
  - injection Hj as ->.
    destruct (label_to_ind_from (S k) t y) as [m|] eqn:E.
    + apply label_to_ind_from_Some in E as (j & _ & Hj).
      exfalso. apply Hnotin. eapply nth_error_In; eauto.
    + rewrite String.eqb_refl. f_equal. lia.
  - rewrite (IH (S k) j Hnd' Hj). f_equal. lia.
Qed.

Lemma label_to_ind_iff labels y i t :
  NoDup labels -> nth_error labels i = Some t ->
  (label_to_ind labels y = Some i <-> y = t).
Proof.
  intros Hnd Hi. unfold label_to_ind. split.
  - intros H. apply label_to_ind_from_Some in H as (j & Hj & Hy).
    simpl in Hj. subst j. congruence.
  - intros ->. now rewrite (@label_to_ind_from_nth 0 _ _ _ Hnd Hi).
Qed.

Lemma combine_map_pair {A B C D : Type} (f : A -> C) (g : B -> D) l1 l2 :
  combine (map f l1) (map g l2)
  = map (fun s => (f (fst s), g (snd s))) (combine l1 l2).
Proof.
  revert l2; induction l1 as [|a l1 IH]; intros [|b l2]; simpl; auto.
  now rewrite IH.
Qed.

Lemma same_cell_labels labels i j t p a b :
  NoDup labels -> nth_error labels i = Some t -> nth_error labels j = Some p ->
  same_cell i j (label_to_ind labels a, label_to_ind labels b)
  = String.eqb a t && String.eqb b p.
Proof.
  intros Hnd Hi Hj. unfold same_cell.
  pose proof (@label_to_ind_iff labels a i t Hnd Hi) as Ha.
  pose proof (@label_to_ind_iff labels b j p Hnd Hj) as Hb.
  destruct (label_to_ind labels a) as [m|] eqn:Ea.
  - destruct (label_to_ind labels b) as [n|] eqn:Eb.
    + destruct (Nat.eqb_spec m i) as [->|Hm].
      * rewrite (proj2 (String.eqb_eq a t) (proj1 Ha eq_refl)). simpl.
        destruct (Nat.eqb_spec n j) as [->|Hn].
        -- now rewrite (proj2 (String.eqb_eq b p) (proj1 Hb eq_refl)).
        -- symmetry. apply String.eqb_neq. intros Hbp.
           apply Hb in Hbp. congruence.
      * simpl. symmetry. apply andb_false_iff. left.
        apply String.eqb_neq. intros Hat. apply Ha in Hat. congruence.
    + symmetry. apply andb_false_iff. right.
      apply String.eqb_neq. intros Hbp. apply Hb in Hbp. discriminate.
  - symmetry. apply andb_false_iff. left.
    apply String.eqb_neq. intros Hat. apply Ha in Hat. discriminate.
Qed.

Lemma map_over_positions {A C : Type} (h : A -> C) (l : list A) (d : A) :
  map h l = map (fun i => h (nth i l d)) (seq 0 (length l)).
Proof.
  rewrite <- (map_nth_seq l d) at 1. now rewrite map_map.
Qed.

Lemma confusion_cells labels y_true y_pred :
  NoDup labels ->
  map (fun i => map (fun j =>
         length (filter (same_cell i j)
                   (combine (map (label_to_ind labels) y_true)
                            (map (label_to_ind labels) y_pred))))
       (seq 0 (length labels))) (seq 0 (length labels))
  = map (fun t => map (fun p => samples_with y_true y_pred t p) labels) labels.
Proof.
  intros Hnd.
  rewrite (map_over_positions
             (fun t => map (fun p => samples_with y_true y_pred t p) labels)
             labels EmptyString).
  apply map_ext_in. intros i Hi. apply in_seq in Hi.
  rewrite (map_over_positions
             (fun p => samples_with y_true y_pred (nth i labels EmptyString) p)
             labels EmptyString).
  apply map_ext_in. intros j Hj. apply in_seq in Hj.
  unfold samples_with. rewrite combine_map_pair, filter_map_length.
  f_equal. apply filter_ext. intros [a b]. cbn [fst snd].
  apply same_cell_labels; [exact Hnd| |]; apply nth_error_nth'; lia.
Qed.

(** X15. The matrix that is shown is square over the sorted distinct
    classes of [y_test]: its entry in the row of class [t] and the column
    of class [p] is the number of test samples whose true label is [t] and
    whose predicted label is [p]; with perfect predictions every
    off-diagonal entry is 0. *)
Theorem plot_confusion_matrix_cells
    (y_test y_true y_pred : list string) (height : Z) (showscale : bool)
    (title subtitle : option string) (fig : Figure) :
  plot_confusion_matrix y_test y_true y_pred height showscale title subtitle
    = Ok fig ->
  NoDup (fig_x fig) /\
  (forall c, In c (fig_x fig) <-> In c y_test) /\
  img fig = map (fun t => map (fun p => samples_with y_test y_pred t p)
                              (fig_x fig)) (fig_x fig) /\
  (y_pred = y_test ->
   forall t p, t <> p -> samples_with y_test y_pred t p = 0).
Proof.
  unfold plot_confusion_matrix. intros H.
  apply bind_Ok in H as (cm1 & _ & H). apply bind_Ok in H as (cm & Hcm & H).
  injection H as <-. cbn [fig_x img].
  split; [apply sorted_unique_NoDup|].
  split; [intros c; apply sorted_unique_In|]. split.
  - unfold confusion_matrix in Hcm.
    destruct (negb (Nat.eqb (length y_test) (length y_pred))); [discriminate|].
    apply bind_Ok in Hcm as (labels & Hl & Hcm).
    assert (labels = sorted (unique y_test)).
    { destruct (sorted (unique y_test)) as [|c cs]; [discriminate|].
      destruct y_test; [now injection Hl as <-|].
      destruct (existsb _ _); [now injection Hl as <-|discriminate]. }
    subst labels. injection Hcm as <-.
    apply confusion_cells, sorted_unique_NoDup.
  - intros -> t p Hne. unfold samples_with.
    assert (Hall : forall l : list string,
              filter (fun s => String.eqb (fst s) t && String.eqb (snd s) p)
                     (combine l l) = []).
    { induction l as [|a l IH]; [reflexivity|]. simpl.
      destruct (String.eqb a t) eqn:Et; simpl; [|exact IH].
      destruct (String.eqb a p) eqn:Ep; [|exact IH].
      apply String.eqb_eq in Et, Ep. congruence. }
    now rewrite Hall.
Qed.

Lemma plot_confusion_matrix_cells_witness :
  plot_confusion_matrix sample_y_test sample_other_y_true sample_y_pred 450
    false None (Some "Penguin Classification Model: LogisticRegression")
    = Ok sample_figure /\
  img sample_figure
  = map (fun t => map (fun p => samples_with sample_y_test sample_y_pred t p)
                      (fig_x sample_figure)) (fig_x sample_figure).
Proof.
  split; [reflexivity|].
  exact (proj1 (proj2 (proj2
    (@plot_confusion_matrix_cells sample_y_test sample_other_y_true
       sample_y_pred 450 false None
       (Some "Penguin Classification Model: LogisticRegression")
       sample_figure eq_refl)))).
Defined.

(** ** Running the notebook: what follows line 98, and the functions' names *)

Lemma exec_block_app raises truth call ss1 : forall sc ss2 tr,
  exec_block raises truth call sc (ss1 ++ ss2) tr
  = match exec_block raises truth call sc ss1 tr with
    | (tr', Ok (Next sc')) => exec_block raises truth call sc' ss2 tr'
    | (tr', Ok Returned) => (tr', Ok Returned)
    | (tr', Raise e) => (tr', Raise e)
    end.
Proof.
  induction ss1 as [|s ss1 IH]; intros sc ss2 tr.
  - simpl. reflexivity.
  - cbn [app exec_block]. unfold bindM.
    destruct (exec raises truth call sc s tr) as [tr1 [[sc1|]|e]];
      [apply IH|reflexivity|reflexivity].
Qed.

Lemma penguins_head_raises (raises truth : nat -> bool) (d : nat) :
  exists tr e, run_script raises truth (S d) penguins_head = (tr, Raise e).
Proof.
  destruct (run_script raises truth (S d) penguins_head) as [tr r] eqn:E.
  repeat oracle_step E.
  all: whd_lhs E; injection E as <- <-; eauto.
Qed.

(** X16. The run of the notebook is decided by lines 1-98: whatever
    statements follow line 98, the trace and the exception are those of
    lines 1-98 alone. *)
Theorem statements_after_line_98_are_irrelevant
    (raises truth : nat -> bool) (depth : nat) (rest : list stmt) :
  1 <= depth ->
  run_script raises truth depth (penguins_head ++ rest)
  = run_script raises truth depth penguins_head /\
  exists tr e, run_script raises truth depth penguins_head = (tr, Raise e).
Proof.
  intros Hd. destruct depth as [|d]; [lia|].
  destruct (penguins_head_raises raises truth d) as (tr & e & H).
  split; [|eauto].
  unfold run_script in *. now rewrite exec_block_app, H.
Qed.

Lemma statements_after_line_98_are_irrelevant_witness :
  1 <= 1000 /\
  run_script never always 1000 (penguins_head ++ penguins_tail)
  = run_script never always 1000 penguins_head.
Proof.
  assert (H : 1 <= 1000) by lia.
  split; [exact H|].
  exact (proj1 (@statements_after_line_98_are_irrelevant never always 1000
                  penguins_tail H)).
Defined.





(** X18. [plot_confusion_matrix] reads [y_test] from the enclosing scope:
    called in a namespace that binds [confusion_matrix] but no [y_test], it
    raises [NameError] for [y_test] at line 173, after the call of line 171
    on its arguments has returned. *)
Theorem plot_confusion_matrix_needs_global_y_test
    (truth : nat -> bool) (d : nat) (g : env) :
  lookup_env "confusion_matrix" g = Some VObj ->
  lookup_env "y_test" g = None ->
  call_function never truth (S d) plot_confusion_matrix_params
    plot_confusion_matrix_body g []
  = ([171; 173], Raise (NameError "y_test")).
Proof.
  intros H1 H2.
  destruct (call_function never truth (S d) plot_confusion_matrix_params
              plot_confusion_matrix_body g []) as [tr r] eqn:E.
  whd_lhs E. fold (lookup_env "confusion_matrix" g) in E. rewrite H1 in E.
  whd_lhs E. destruct (lookup_env "sorted" g) eqn:Es.
  all: fold (lookup_env "sorted" g) in E; rewrite Es in E; whd_lhs E.
  all: fold (lookup_env "y_test" g) in E; rewrite H2 in E; whd_lhs E.
  all: injection E as <- <-; reflexivity.
Qed.

Lemma plot_confusion_matrix_needs_global_y_test_witness :
  lookup_env "confusion_matrix" metrics_namespace = Some VObj /\
  lookup_env "y_test" metrics_namespace = None /\
  call_function never always 1 plot_confusion_matrix_params
    plot_confusion_matrix_body metrics_namespace []
  = ([171; 173], Raise (NameError "y_test")).
Proof.
  do 2 (split; [reflexivity|]).
  exact (@plot_confusion_matrix_needs_global_y_test always 0 metrics_namespace
           eq_refl eq_refl).
Defined.

(** X19. [compute_roc_auc_score] uses its own parameters: in a namespace
    that binds [roc_auc_score] it returns when no library operation raises,
    through line 205 when [is_multiclass] is true and through lines 207-208
    otherwise; no global [y_test] or [y_pred_proba] is needed. *)
Theorem compute_roc_auc_score_returns
    (truth : nat -> bool) (d : nat) (g : env) :
  lookup_env "roc_auc_score" g = Some VObj ->
  call_function never truth (S d) compute_roc_auc_score_params
    compute_roc_auc_score_body g []
  = (if truth 2 then [202; 204; 205] else [202; 204; 207; 208], Ok VObj).
Proof.
  intros H1.
  destruct (call_function never truth (S d) compute_roc_auc_score_params
              compute_roc_auc_score_body g []) as [tr r] eqn:E.
  oracle_step E.
  all: whd_lhs E; fold (lookup_env "roc_auc_score" g) in E; rewrite H1 in E.
  all: whd_lhs E; injection E as <- <-; reflexivity.
Qed.

Lemma compute_roc_auc_score_returns_witness :
  lookup_env "roc_auc_score" roc_namespace = Some VObj /\
  call_function never always 1 compute_roc_auc_score_params
    compute_roc_auc_score_body roc_namespace []
  = ([202; 204; 205], Ok VObj).
Proof.
  split; [reflexivity|].
  exact (@compute_roc_auc_score_returns always 0 roc_namespace eq_refl).
Defined.

(** ** Loading and cleaning *)

Lemma upper_char_idempotent a : upper_char (upper_char a) = upper_char a.
Proof.
  destruct a as [[] [] [] [] [] [] [] []]; reflexivity.
Qed.

Lemma upper_idempotent s : upper (upper s) = upper s.
Proof.
  induction s as [|a s IH]; simpl; [reflexivity|].
  now rewrite upper_char_idempotent, IH.
Qed.

Lemma mapM_upper_cell vals vals' :
  mapM upper_cell vals = Ok vals' -> vals' = map upper_total vals.
Proof.
  revert vals'; induction vals as [|c vals IH]; intros vals' H; simpl in H.
  - now injection H as <-.
  - inv_bind H. inv_bind H. injection H as <-. simpl. f_equal; [|now apply IH].
    destruct c; simpl in Ha; try discriminate; now injection Ha as <-.
Qed.

Lemma upper_case_column_Ok name df df' :
  upper_case_column name df = Ok df' ->
  index df' = index df /\
  cols df' = map (fun c => if String.eqb (fst c) name
                           then (fst c, map upper_total (snd c)) else c)
                 (cols df).
Proof.
  unfold upper_case_column.
  destruct (count_occ string_dec (map fst (cols df)) name) as [|[|n]];
    try discriminate.
  intros H. inv_bind H. injection H as <-. cbn [index cols].
  split; [reflexivity|].
  revert a Ha. induction (cols df) as [|c cs IH]; intros a Ha; simpl in Ha.
  - now injection Ha as <-.
  - apply bind_Ok in Ha as (c' & Hc & Ha).
    apply bind_Ok in Ha as (cs' & Hcs & Ha). injection Ha as <-. simpl.
    f_equal; [|now apply IH].
    destruct (String.eqb (fst c) name); [|now injection Hc as <-].
    apply bind_Ok in Hc as (vals & Hvals & Hc). injection Hc as <-.
    now rewrite (mapM_upper_cell _ Hvals).
Qed.

Lemma select_map {A B : Type} (h : A -> B) (mask : list bool) (l : list A) :
  select mask (map h l) = map h (select mask l).
Proof.
  revert l; induction mask as [|b mask IH]; intros [|a l]; simpl; auto.
  destruct b; simpl; now rewrite IH.
Qed.

Lemma cleaned_cell_notna label c : notna (cleaned_cell label c) = notna c.
Proof.
  unfold cleaned_cell. destruct (mem label _); [|reflexivity]. now destruct c.
Qed.

Lemma dropna_cleaned_columns (df : DataFrame cell) :
  dropna {| index := index df; cols := map cleaned_column (cols df) |}
  = {| index := index (dropna df);
       cols := map cleaned_column (cols (dropna df)) |}.
Proof.
  unfold dropna. cbn [index cols nrows]. unfold nrows. cbn [index].
  assert (Hmask : forall i,
            complete (row_at (map cleaned_column (cols df)) i)
            = complete (row_at (cols df) i)).
  { intros i. unfold complete, row_at. rewrite map_map.
    induction (cols df) as [|c cs IH]; [reflexivity|].
    cbn [map forallb]. rewrite IH. f_equal. unfold cleaned_column. cbn [snd].
    set (h := cleaned_cell (cleaned_label (fst c))).
    assert (HNA : h NA = NA).
    { unfold h, cleaned_cell. now destruct (mem _ _). }
    rewrite <- HNA at 1. rewrite map_nth. apply cleaned_cell_notna. }
  rewrite (map_ext _ _ Hmask). f_equal.
  rewrite !map_map. apply map_ext. intros c. unfold cleaned_column.
  cbn [fst snd]. f_equal. apply select_map.
Qed.

(** X20. Cleaning (rename sex to gender, upper-case species, island and
    gender, drop nulls) commutes with dropping nulls: when it returns, the
    result has the rows of [dropna] on the loaded frame, in the same order,
    each column relabelled and upper-cased cell by cell; upper-casing never
    changes which rows are dropped, and afterwards every string in the
    three categorical columns is in upper case. *)
Theorem clean_commutes_with_dropna (raw df : DataFrame cell) :
  clean raw = Ok df ->
  index df = index (dropna raw) /\
  cols df = map cleaned_column (cols (dropna raw)) /\
  (forall c s, In c (cols df) ->
     In (fst c) ["species"; "island"; "gender"] ->
     In (Str s) (snd c) -> upper s = s).
Proof.
  unfold clean. intros H.
  apply bind_Ok in H as (df1 & H1 & H).
  apply bind_Ok in H as (df2 & H2 & H).
  apply bind_Ok in H as (df3 & H3 & H). injection H as <-.
  apply upper_case_column_Ok in H1 as (I1 & C1).
  apply upper_case_column_Ok in H2 as (I2 & C2).
  apply upper_case_column_Ok in H3 as (I3 & C3).
  assert (Hdf3 : df3 = {| index := index raw;
                          cols := map cleaned_column (cols raw) |}).
  { destruct df3 as [i3 c3]. cbn [index cols] in *. f_equal.
    - rewrite I3, I2, I1. reflexivity.
    - rewrite C3, C2, C1. cbn [rename_column cols]. rewrite !map_map.
      apply map_ext. intros [n vals]. unfold cleaned_column, cleaned_label,
        cleaned_cell. cbn [fst snd mem existsb].
      destruct (String.eqb n "sex") eqn:Esex.
      + cbn. reflexivity.
      + destruct (String.eqb n "species") eqn:E1; cbn [fst snd].
        * apply String.eqb_eq in E1. subst n. cbn. reflexivity.
        * destruct (String.eqb n "island") eqn:E2; cbn [fst snd].
          -- apply String.eqb_eq in E2. subst n. cbn. reflexivity.
          -- destruct (String.eqb n "gender") eqn:E3; cbn [fst snd].
             ++ apply String.eqb_eq in E3. subst n. cbn. reflexivity.
             ++ cbn. now rewrite map_id. }
  rewrite Hdf3, dropna_cleaned_columns. cbn [index cols].
  split; [reflexivity|]. split; [reflexivity|].
  intros c s Hc Hlabel Hs.
  apply in_map_iff in Hc as (c0 & <- & _).
  unfold cleaned_column in *. cbn [fst snd] in *.
  apply in_map_iff in Hs as (v & Hv & _). unfold cleaned_cell in Hv.
  rewrite (proj2 (mem_In _ _) Hlabel) in Hv.
  destruct v; simpl in Hv; try discriminate.
  injection Hv as <-. apply upper_idempotent.
Qed.

Lemma clean_commutes_with_dropna_witness :
  clean raw_penguins_sample = Ok (dropna penguins_sample) /\
  index (dropna penguins_sample) = index (dropna raw_penguins_sample).
Proof.
  split; [reflexivity|].
  exact (proj1 (@clean_commutes_with_dropna raw_penguins_sample
                  (dropna penguins_sample) eq_refl)).
Defined.
